(** * TravelAgency: rate limiter and session authority

    A shallow embedding of the two components of the repository that carry
    a contract:

    - [src/lib/errorHandler.ts] (the part the routes import as [@/lib/rateLimit]):
      [RateLimitStore], [createRateLimiter], [getClientIP], the profile
      table [RateLimitConfigs];
    - [src/lib/auth.ts]: [createSession], [verifySession],
      [verifyCredentials];

    and of the code around them: the CORS policy ([src/lib/cors.ts]), the
    middleware ([src/middleware.ts]), the login and inquiry routes, and
    the error handler and the performance monitor of
    [src/lib/errorHandler.ts].

    Conventions.  JavaScript numbers that hold millisecond timestamps and
    request counts are integers far below 2^53, so they are embedded as
    [Z].  [Date.now()] is an input: every function that reads the clock
    takes one argument per reading, in program order.  The [Map] behind
    the store is a [gmap]; an entry object that is mutated in place
    ([entry.count++]) is written back under its key.  A function that can
    throw returns in [Error + A]; [console] output is left out.  What
    [auth.ts] takes from outside the repository (jose, bcryptjs, [Date]) is
    an interface, [Auth.Platform], with a reference implementation to run
    the functions on. *)

From Stdlib Require Import ZArith Lia Ascii String DecimalString DecimalZ.
From stdpp Require Import gmap strings list fin_maps sorting.

Local Open Scope Z_scope.

(** ** Rate limiter ([src/lib/errorHandler.ts], lines 300-540) *)

Module RateLimit.

(** [interface RateLimitConfig] *)
Record RateLimitConfig := {
  windowMs : Z;
  maxRequests : Z;
  message : string;
  statusCode : Z;
  keyGenerator : option (string → string)
}.

(** [interface RateLimitEntry] *)
Record RateLimitEntry := {
  count : Z;
  firstRequest : Z;
  resetTime : Z
}.

(** [class RateLimitStore]: the map, and the period (ms) of the interval
    timer held in [cleanupInterval] ([None] is JavaScript's [null]). *)
Record RateLimitStore := {
  store : gmap string RateLimitEntry;
  cleanupInterval : option Z
}.

Definition with_store (m : gmap string RateLimitEntry) (s : RateLimitStore)
  : RateLimitStore :=
  {| store := m; cleanupInterval := cleanupInterval s |}.

(** [constructor()]: an empty map and [setInterval(() => this.cleanup(), 60000)]. *)
Definition constructor : RateLimitStore :=
  {| store := ∅; cleanupInterval := Some 60000 |}.

(** [entry.resetTime < now] *)
Definition expired (now : Z) (entry : RateLimitEntry) : bool :=
  resetTime entry <? now.

(** [cleanup()]: a first pass collects the keys of the expired entries, a
    second pass deletes them. *)
Definition expiredKeys (now : Z) (m : gmap string RateLimitEntry) : list string :=
  (filter (λ ke, expired now ke.2 = true) (map_to_list m)).*1.

Definition cleanup (now : Z) (s : RateLimitStore) : RateLimitStore :=
  with_store (foldl (λ m key, delete key m) (store s) (expiredKeys now (store s))) s.

(** [get(key)]: lazy expiry on read. *)
Definition get (key : string) (now : Z) (s : RateLimitStore)
  : option RateLimitEntry * RateLimitStore :=
  match store s !! key with
  | None => (None, s)
  | Some entry =>
      if expired now entry then (None, with_store (delete key (store s)) s)
      else (Some entry, s)
  end.

(** [increment(key, windowMs)] *)
Definition increment (key : string) (windowMs : Z) (now : Z) (s : RateLimitStore)
  : RateLimitEntry * RateLimitStore :=
  let newEntry := {| count := 1; firstRequest := now; resetTime := now + windowMs |} in
  match store s !! key with
  | None => (newEntry, with_store (<[key := newEntry]> (store s)) s)
  | Some entry =>
      if expired now entry then (newEntry, with_store (<[key := newEntry]> (store s)) s)
      else
        let entry' := {| count := count entry + 1;
                         firstRequest := firstRequest entry;
                         resetTime := resetTime entry |} in
        (entry', with_store (<[key := entry']> (store s)) s)
  end.

(** [reset(key)], [size()], [destroy()] *)
Definition reset (key : string) (s : RateLimitStore) : RateLimitStore :=
  with_store (delete key (store s)) s.

Definition size (s : RateLimitStore) : nat := base.size (store s).

Definition destroy (s : RateLimitStore) : RateLimitStore :=
  {| store := ∅; cleanupInterval := cleanupInterval s |}.

(** The object returned by a limiter. *)
Record RateLimitResult := {
  allowed : bool;
  remaining : Z;
  resultResetTime : Z;
  retryAfter : Z
}.

(** [Math.ceil(x / 1000)] on an integer [x]. *)
Definition ceil_div1000 (x : Z) : Z := - ((- x) / 1000).

(** [config.keyGenerator ? config.keyGenerator(identifier) : identifier] *)
Definition key_of (config : RateLimitConfig) (identifier : string) : string :=
  match keyGenerator config with
  | Some g => g identifier
  | None => identifier
  end.

(** [createRateLimiter(config)(identifier)]: [now] is the clock read by
    [store.increment], [now'] the one read for [retryAfter]. *)
Definition createRateLimiter (config : RateLimitConfig) (identifier : string)
    (now now' : Z) (s : RateLimitStore) : RateLimitResult * RateLimitStore :=
  let key := key_of config identifier in
  let '(entry, s') := increment key (windowMs config) now s in
  let remaining := Z.max 0 (maxRequests config - count entry) in
  let retryAfter := ceil_div1000 (resetTime entry - now') in
  ({| allowed := count entry <=? maxRequests config;
      remaining := remaining;
      resultResetTime := resetTime entry;
      retryAfter := if 0 <? retryAfter then retryAfter else 0 |}, s').

(** [RateLimitConfigs] and [getRateLimitConfig] *)
Inductive ProfileName := login | admin | publicAPI | inquiry | development.

Definition RateLimitConfigs (type : ProfileName) : RateLimitConfig :=
  match type with
  | login =>
      {| windowMs := 15 * 60 * 1000; maxRequests := 5;
         message := "Too many login attempts. Please try again later.";
         statusCode := 429; keyGenerator := None |}
  | admin =>
      {| windowMs := 1 * 60 * 1000; maxRequests := 30;
         message := "Too many requests to admin API. Please slow down.";
         statusCode := 429; keyGenerator := None |}
  | publicAPI =>
      {| windowMs := 1 * 60 * 1000; maxRequests := 60;
         message := "Too many requests. Please try again later.";
         statusCode := 429; keyGenerator := None |}
  | inquiry =>
      {| windowMs := 60 * 60 * 1000; maxRequests := 10;
         message := "Too many inquiries. Please try again later.";
         statusCode := 429; keyGenerator := None |}
  | development =>
      {| windowMs := 60 * 60 * 1000; maxRequests := 1000000;
         message := "Rate limited";
         statusCode := 429; keyGenerator := None |}
  end.

(** The fallback [|| RateLimitConfigs.publicAPI] of the source is for a
    [type] outside the table, which [ProfileName] does not have. *)
Definition getRateLimitConfig (type : ProfileName) (isDevelopment : bool)
  : RateLimitConfig :=
  if isDevelopment then RateLimitConfigs development else RateLimitConfigs type.

(** The entry that is live for [key] at [now], if any: present and not
    past its [resetTime]. *)
Definition live (key : string) (now : Z) (s : RateLimitStore) : option RateLimitEntry :=
  match store s !! key with
  | Some entry => if expired now entry then None else Some entry
  | None => None
  end.

(** What can happen to the shared store: a call of some limiter, or a pass
    of the cleanup timer. *)
Inductive Event :=
| Call (config : RateLimitConfig) (identifier : string) (now now' : Z)
| Sweep (now : Z).

Definition step (ev : Event) (s : RateLimitStore)
  : option RateLimitResult * RateLimitStore :=
  match ev with
  | Call config identifier now now' =>
      let '(r, s') := createRateLimiter config identifier now now' s in (Some r, s')
  | Sweep now => (None, cleanup now s)
  end.

(** Runs a trace and keeps, in order, the results of the calls whose key is [key]. *)
Fixpoint run (key : string) (evs : list Event) (s : RateLimitStore)
  : list RateLimitResult * RateLimitStore :=
  match evs with
  | [] => ([], s)
  | ev :: evs' =>
      let '(r, s') := step ev s in
      let '(rs, s'') := run key evs' s' in
      (match ev, r with
       | Call config identifier _ _, Some r =>
           if decide (key_of config identifier = key) then r :: rs else rs
       | _, _ => rs
       end, s'')
  end.

(** The number of calls under [key] in a trace. *)
Definition is_call_under (key : string) (ev : Event) : bool :=
  match ev with
  | Call config identifier _ _ => bool_decide (key_of config identifier = key)
  | Sweep _ => false
  end.

Definition calls_under (key : string) (evs : list Event) : nat :=
  length (List.filter (is_call_under key) evs).

(** An event that respects the window of [key] that ends at [resetTime]:
    a call under another key, a call of the limiter [config] under [key]
    made no later than [resetTime], or a cleanup pass no later than that. *)
Definition in_window (config : RateLimitConfig) (key : string) (resetTime : Z)
    (ev : Event) : Prop :=
  match ev with
  | Call c identifier now _ => key_of c identifier ≠ key ∨ (c = config ∧ now ≤ resetTime)
  | Sweep now => now ≤ resetTime
  end.

(** A profile that admits nothing, and a store that holds one entry whose
    window ended at clock 10. *)
Definition closed_profile : RateLimitConfig :=
  {| windowMs := 1000; maxRequests := 0; message := ""; statusCode := 429;
     keyGenerator := None |}.

Definition stale_store : RateLimitStore :=
  {| store := {[ "k"%string := {| count := 3; firstRequest := 0; resetTime := 10 |} ]};
     cleanupInterval := Some 60000 |}.

(** A store with one entry past its window at clock 50 and one still live. *)
Definition two_entry_store : RateLimitStore :=
  {| store := <["gone"%string := {| count := 7; firstRequest := 0; resetTime := 10 |}]>
                (<["kept"%string := {| count := 2; firstRequest := 40; resetTime := 100 |}]> ∅);
     cleanupInterval := Some 60000 |}.

(** Five more login attempts of one client, ten seconds apart, to follow a
    first attempt at clock 0. *)
Definition five_more_logins : list Event :=
  (λ n, Call (RateLimitConfigs login) "login:1.2.3.4" (10000 * n) (10000 * n)) <$>
  [1; 2; 3; 4; 5].

(** The entry a first call of a window creates, and an existing entry
    after one more request. *)
Definition fresh_entry (now windowMs : Z) : RateLimitEntry :=
  {| count := 1; firstRequest := now; resetTime := now + windowMs |}.

Definition bumped (entry : RateLimitEntry) : RateLimitEntry :=
  {| count := count entry + 1;
     firstRequest := firstRequest entry;
     resetTime := resetTime entry |}.

Definition next_entry (key : string) (windowMs now : Z) (s : RateLimitStore)
  : RateLimitEntry :=
  match live key now s with
  | None => fresh_entry now windowMs
  | Some entry => bumped entry
  end.

End RateLimit.

(** ** Client identity ([getClientIP], [src/lib/errorHandler.ts], lines 444-466) *)

Module ClientIP.

Local Open Scope string_scope.

(** A [Headers] object: lower-case header name to value.  A header value is
    a byte string, one [ascii] per code unit. *)
Abbreviation Headers := (gmap string string).

(** [headers.get(name)]: [None] is JavaScript's [null]. *)
Definition headers_get (headers : Headers) (name : string) : option string :=
  headers !! name.

(** Truthiness of a [string | null] in [if (v)]: neither [null] nor empty. *)
Definition truthy (v : option string) : bool :=
  match v with
  | Some EmptyString => false
  | Some _ => true
  | None => false
  end.

Definition comma : ascii := ","%char.

(** [s.split(',')[0]]: the text before the first comma. *)
Fixpoint split_comma_first (s : string) : string :=
  match s with
  | EmptyString => EmptyString
  | String c s' => if Ascii.eqb c comma then EmptyString else String c (split_comma_first s')
  end.

(** The white space and line terminators that [String.prototype.trim]
    strips, among the code units below 256: TAB, LF, VT, FF, CR, SP, NBSP. *)
Definition is_white (c : ascii) : bool :=
  let n := nat_of_ascii c in
  (Nat.eqb n 9 || Nat.eqb n 10 || Nat.eqb n 11 || Nat.eqb n 12 || Nat.eqb n 13
   || Nat.eqb n 32 || Nat.eqb n 160)%bool.

Fixpoint trim_start (s : string) : string :=
  match s with
  | EmptyString => EmptyString
  | String c s' => if is_white c then trim_start s' else s
  end.

Fixpoint trim_end (s : string) : string :=
  match s with
  | EmptyString => EmptyString
  | String c s' =>
      match trim_end s' with
      | EmptyString => if is_white c then EmptyString else String c EmptyString
      | r => String c r
      end
  end.

(** [s.trim()] *)
Definition trim (s : string) : string := trim_end (trim_start s).

(** [getClientIP(headers)] *)
Definition getClientIP (headers : Headers) : string :=
  let forwarded := headers_get headers "x-forwarded-for" in
  if truthy forwarded then trim (split_comma_first (default EmptyString forwarded))
  else
    let cloudflare := headers_get headers "cf-connecting-ip" in
    if truthy cloudflare then default EmptyString cloudflare
    else
      let realIP := headers_get headers "x-real-ip" in
      if truthy realIP then default EmptyString realIP
      else "unknown".

(** The specification's words, to compare the functions above with. *)
Fixpoint has_comma (s : string) : bool :=
  match s with
  | EmptyString => false
  | String c s' => Ascii.eqb c comma || has_comma s'
  end.

Fixpoint all_white (s : string) : bool :=
  match s with
  | EmptyString => true
  | String c s' => is_white c && all_white s'
  end.

(** [seg] is the first element of the comma-separated list [s]. *)
Definition first_of_list (s seg : string) : Prop :=
  (s = seg ∨ ∃ rest, s = seg ++ String comma rest) ∧ has_comma seg = false.

(** [r] is [s] without its leading and trailing white space. *)
Definition trimmed_of (s r : string) : Prop :=
  (∃ a b, s = a ++ r ++ b ∧ all_white a = true ∧ all_white b = true) ∧
  (∀ c r', r = String c r' → is_white c = false) ∧
  (∀ r' c, r = r' ++ String c EmptyString → is_white c = false).

(** A header is usable when it is present with a non-empty value. *)
Definition usable (headers : Headers) (name : string) : Prop :=
  ∃ v, headers !! name = Some v ∧ v ≠ EmptyString.

(** A request that came through two proxies. *)
Definition proxied : Headers :=
  <["x-forwarded-for" := " 203.0.113.5 , 10.0.0.1"]> (<["x-real-ip" := "10.0.0.9"]> ∅).

(** A request whose [x-forwarded-for] header is present and empty. *)
Definition empty_forwarded : Headers :=
  <["x-forwarded-for" := ""]> (<["x-real-ip" := "10.0.0.1"]> ∅).

End ClientIP.

(** ** Session authority ([src/lib/auth.ts]) *)

Module Auth.

Local Open Scope string_scope.

(** *** JavaScript values, dates and exceptions *)

(** The scalar JSON values that a claim of a JWT payload can hold (numbers
    are taken to be integers). *)
Inductive Value :=
| Null
| Bool (b : bool)
| Number (n : Z)
| Str (s : string).

(** The time value of a [Date] object: milliseconds since the epoch, or
    [None] for NaN (an Invalid Date). *)
Abbreviation Date := (option Z).

(** What can be thrown inside the two [try] blocks of [auth.ts]: the error
    classes of jose and an error of bcryptjs. *)
Inductive Error :=
| JWSInvalid
| JWSSignatureVerificationFailed
| JWTInvalid
| JWTClaimValidationFailed (claim : string)
| JWTExpired
| BcryptError.

(** A computation that returns or throws. *)
Abbreviation Result A := (Error + A)%type.

Definition ret {A} (a : A) : Result A := inr a.
Definition throw {A} (e : Error) : Result A := inl e.
Definition bind {A B} (m : Result A) (k : A → Result B) : Result B :=
  match m with
  | inl e => inl e
  | inr a => k a
  end.
(** [try { body } catch (error) { handler(error) }] *)
Definition try_catch {A} (body : Result A) (handler : Error → Result A) : Result A :=
  match body with
  | inl e => handler e
  | inr a => inr a
  end.

Notation "'let!' x ':=' m 'in' k" := (bind m (λ x, k))
  (at level 10, x name, m at level 100, k at level 200, only parsing).

(** The payload object of a JWT, as a map from claim name to value. *)
Abbreviation Payload := (gmap string Value).

(** [payload.name]; [None] is [undefined], what an absent claim reads as. *)
Definition claim (payload : Payload) (name : string) : option Value :=
  payload !! name.

(** *** What the platform and the libraries provide

    [auth.ts] calls three things it does not define: the ISO rendering and
    parsing of [Date], the compact JWS of jose ([SignJWT ... .sign],
    and the signature and structure checks inside [jwtVerify]) and
    [bcrypt.compare].  They are taken as an interface; the only laws
    assumed are that a rendered date parses back to itself and that a
    token signed with a key opens under that key to the signed payload.
    No unforgeability of the signature is assumed. *)
Class Platform := {
  (** [Date.prototype.toISOString]; time values are taken in the range
      where a [Date] is valid *)
  toISOString : Z → string;
  (** the time value of [new Date(s)] for a string [s] *)
  Date_parse : string → Date;
  Date_parse_toISOString : ∀ t, Date_parse (toISOString t) = Some t;
  (** the opaque signed token ([string] in the source) *)
  Token : Type;
  (** [new SignJWT(payload).setProtectedHeader({ alg }).sign(key)] *)
  jws_sign : string → string → Payload → Token;
  (** signature verification and decoding of a compact JWS under [key] *)
  jws_open : string → Token → Result Payload;
  jws_open_sign : ∀ key payload, jws_open key (jws_sign "HS256" key payload) = inr payload;
  (** [bcrypt.compare(password, hash)] *)
  bcrypt_compare : string → string → Result bool
}.

(** A reference platform, used to run the functions on concrete inputs:
    dates are rendered in decimal, a token is the key and payload it was
    signed with ([None] is a malformed token), and a hash is the password
    behind a fixed prefix. *)
Definition ref_toISOString (t : Z) : string :=
  DecimalString.NilEmpty.string_of_int (Z.to_int t).

Definition ref_Date_parse (s : string) : Date :=
  Z.of_int <$> DecimalString.NilEmpty.int_of_string s.

Definition ref_jws_open (key : string) (token : option (string * Payload))
  : Result Payload :=
  match token with
  | None => throw JWSInvalid
  | Some (k, payload) =>
      if String.eqb k key then ret payload else throw JWSSignatureVerificationFailed
  end.

Definition ref_bcrypt_compare (password hash : string) : Result bool :=
  ret (String.eqb hash ("$ref$" ++ password)).

#[refine] Instance ref_platform : Platform := {|
  toISOString := ref_toISOString;
  Date_parse := ref_Date_parse;
  Token := option (string * Payload);
  jws_sign := λ _ key payload, Some (key, payload);
  jws_open := ref_jws_open;
  bcrypt_compare := ref_bcrypt_compare
|}.
Proof.
  - intros t. unfold ref_Date_parse, ref_toISOString.
    rewrite DecimalString.NilEmpty.isi. simpl. f_equal. apply DecimalZ.of_to.
  - intros key payload. unfold ref_jws_open. now rewrite String.eqb_refl.
Defined.

(** *** jose: what the builder adds and what [jwtVerify] checks

    These follow the documented behaviour of the library (it is not part
    of the repository): NumericDate claims are whole seconds,
    [setIssuedAt()] and [setExpirationTime("<n>h")] read the clock when
    they are called, and [jwtVerify] validates [iat], [nbf] and [exp]
    without clock tolerance. *)

(** [epoch(date)]: [Math.floor(date.getTime() / 1000)] *)
Definition epoch (t : Z) : Z := t / 1000.

(** [secs("<hours>h")] *)
Definition secs_hours (hours : Z) : Z := hours * (60 * 60).

(** [.setIssuedAt()] read at clock [now] *)
Definition setIssuedAt (now : Z) (payload : Payload) : Payload :=
  <["iat" := Number (epoch now)]> payload.

(** [.setExpirationTime("<hours>h")] read at clock [now] *)
Definition setExpirationTime (hours : Z) (now : Z) (payload : Payload) : Payload :=
  <["exp" := Number (epoch now + secs_hours hours)]> payload.

(** The claims validation of [jwtVerify] at clock [now]. *)
Definition validateClaims (payload : Payload) (now : Z) : Result Payload :=
  let now_s := epoch now in
  let! _ :=
    match claim payload "iat" with
    | None | Some (Number _) => ret tt
    | _ => throw (JWTClaimValidationFailed "iat")
    end in
  let! _ :=
    match claim payload "nbf" with
    | None => ret tt
    | Some (Number nbf) => if (now_s <? nbf)%Z then throw (JWTClaimValidationFailed "nbf") else ret tt
    | _ => throw (JWTClaimValidationFailed "nbf")
    end in
  let! _ :=
    match claim payload "exp" with
    | None => ret tt
    | Some (Number exp) => if (exp <=? now_s)%Z then throw JWTExpired else ret tt
    | _ => throw (JWTClaimValidationFailed "exp")
    end in
  ret payload.

(** [jwtVerify(token, key)] at clock [now] *)
Definition jwtVerify `{Platform} (token : Token) (key : string) (now : Z)
  : Result Payload :=
  let! payload := jws_open key token in
  validateClaims payload now.

(** *** [auth.ts] *)

(** [new Date(value)] *)
Definition TimeClip (t : Z) : Date :=
  if (Z.abs t <=? 8640000000000000)%Z then Some t else None.

Definition new_Date `{Platform} (value : option Value) : Date :=
  match value with
  | None => None
  | Some Null => TimeClip 0
  | Some (Bool b) => TimeClip (if b then 1 else 0)
  | Some (Number n) => TimeClip n
  | Some (Str s) => Date_parse s
  end.

(** [a < b] on two [Date] objects: false as soon as one is invalid. *)
Definition date_lt (a b : Date) : bool :=
  match a, b with
  | Some x, Some y => (x <? y)%Z
  | _, _ => false
  end.

(** [process.env] as far as [auth.ts] reads it ([None]: not set). *)
Record Env := {
  env_JWT_SECRET : option string;
  env_ADMIN_EMAIL : option string;
  env_ADMIN_PASSWORD : option string
}.

(** The module body: the three guards, then [JWT_SECRET]. *)
Definition module_init (env : Env) : option string :=
  if negb (ClientIP.truthy (env_JWT_SECRET env)) then None
  else if negb (ClientIP.truthy (env_ADMIN_EMAIL env)) then None
  else if negb (ClientIP.truthy (env_ADMIN_PASSWORD env)) then None
  else env_JWT_SECRET env.

Definition SESSION_EXPIRATION_HOURS : Z := 2.

(** [interface SessionPayload]; the two casts [as string] are unchecked,
    so [username] is whatever the payload holds. *)
Record SessionPayload := {
  username : option Value;
  expiresAt : Date
}.

(** [createSession(username)].  [now] is read by [Date.now()], [now_iat]
    by [setIssuedAt()] and [now_exp] by [setExpirationTime]. *)
Definition createSession `{Platform} (JWT_SECRET : string) (username : string)
    (now now_iat now_exp : Z) : Token :=
  let expiresAt := now + SESSION_EXPIRATION_HOURS * 60 * 60 * 1000 in
  let payload : Payload :=
    <["username" := Str username]> (<["expiresAt" := Str (toISOString expiresAt)]> ∅) in
  jws_sign "HS256" JWT_SECRET
    (setExpirationTime SESSION_EXPIRATION_HOURS now_exp (setIssuedAt now_iat payload)).

(** [verifySession(token)].  [now_lib] is the clock read inside
    [jwtVerify], [now] the one read by [new Date()] in the explicit check.
    [None] in the result is JavaScript's [null]. *)
Definition verifySession `{Platform} (JWT_SECRET : string) (token : Token)
    (now_lib now : Z) : Result (option SessionPayload) :=
  try_catch
    (let! payload := jwtVerify token JWT_SECRET now_lib in
     let expiresAt := new_Date (claim payload "expiresAt") in
     if date_lt expiresAt (Some now) then ret None
     else ret (Some {| username := claim payload "username"; expiresAt := expiresAt |}))
    (λ error, ret None).

(** A token issued and a token checked under one frozen clock reading. *)
Definition issue `{Platform} (JWT_SECRET username : string) (T0 : Z) : Token :=
  createSession JWT_SECRET username T0 T0 T0.

Definition verify `{Platform} (JWT_SECRET : string) (token : Token) (T : Z)
  : Result (option SessionPayload) :=
  verifySession JWT_SECRET token T T.

Definition TARGET_EMAIL : string := "admin@russoluxtours.de".
Definition TARGET_HASH : string :=
  "$2b$10$tUUemSJgbfXhTFH.LgwXJup6UoxMAp6i36lKZGRiXcgaGuCkCNdf2".

(** [verifyCredentials(email, password)].  The first component of the
    result is the time slept in [setTimeout], in milliseconds; the second
    is what the promise settles to. *)
Definition verifyCredentials `{Platform} (env : Env) (email password : string)
  : Z * Result bool :=
  let adminEmail := env_ADMIN_EMAIL env in
  let adminPassword := env_ADMIN_PASSWORD env in
  if negb (String.eqb email TARGET_EMAIL) then (100, ret false)
  else
    (0, try_catch
          (let! isPasswordValid := bcrypt_compare password TARGET_HASH in
           ret isPasswordValid)
          (λ error, ret false)).

(** The credential branch of [POST /api/auth/login]
    ([src/app/api/auth/login/route.ts], lines 54-70, and the [catch] of
    line 92): the total time slept in timers and the status of the
    response. *)
Definition login_credentials `{Platform} (env : Env) (email password : string)
  : Z * Z :=
  let '(slept, isValid) := verifyCredentials env email password in
  match isValid with
  | inr true => (slept, 200)
  | inr false => (slept + 1000, 401)
  | inl _ => (slept, 500)
  end.

(** The specification's words, to compare [verifyCredentials] with: the check
    against the pair that the process configuration supplies. *)
Definition configured_check `{Platform} (env : Env) (email password : string) : bool :=
  match env_ADMIN_EMAIL env, env_ADMIN_PASSWORD env with
  | Some adminEmail, Some adminHash =>
      String.eqb email adminEmail &&
      match bcrypt_compare password adminHash with
      | inr b => b
      | inl _ => false
      end
  | _, _ => false
  end.

(** The payload that [createSession] signs. *)
Definition session_claims `{Platform} (username : string) (now now_iat now_exp : Z)
  : Payload :=
  setExpirationTime SESSION_EXPIRATION_HOURS now_exp
    (setIssuedAt now_iat
       (<["username" := Str username]>
          (<["expiresAt" :=
               Str (toISOString (now + SESSION_EXPIRATION_HOURS * 60 * 60 * 1000))]> ∅))).

(** Two hours, in milliseconds. *)
Definition two_hours : Z := 2 * 60 * 60 * 1000.

(** A configuration whose administrator is not the one written in the code. *)
Definition other_admin_env : Env :=
  {| env_JWT_SECRET := Some "secret";
     env_ADMIN_EMAIL := Some "owner@example.com";
     env_ADMIN_PASSWORD := Some "$ref$s3cret" |}.

(** Tokens of the reference platform, signed with the key ["secret"],
    whose payload has no [expiresAt], or one that is not a date. *)
Definition token_without_expiresAt : option (string * Payload) :=
  Some ("secret", <["username" := Str "admin"]> ∅).

Definition token_with_bad_expiresAt : option (string * Payload) :=
  Some ("secret", <["username" := Str "admin"]> (<["expiresAt" := Str "soon"]> ∅)).

End Auth.

(** ** Traces of the shared store *)

Module RateLimitTraces.
Import RateLimit.

(** The store after a trace. *)
Definition exec (evs : list Event) (s : RateLimitStore) : RateLimitStore :=
  foldl (λ s ev, (step ev s).2) s evs.

(** A call under a key other than [key]. *)
Definition is_call_elsewhere (key : string) (ev : Event) : bool :=
  match ev with
  | Call config identifier _ _ => negb (bool_decide (key_of config identifier = key))
  | Sweep _ => false
  end.

(** The trace without its calls under other keys. *)
Definition without_other_keys (key : string) (evs : list Event) : list Event :=
  List.filter (λ ev, negb (is_call_elsewhere key ev)) evs.

(** [entry] carries the clock and the window of a call of the trace made
    under [key]. *)
Definition opened_by (evs : list Event) (key : string) (entry : RateLimitEntry) : Prop :=
  ∃ config identifier now now',
    In (Call config identifier now now') evs ∧
    key_of config identifier = key ∧
    firstRequest entry = now ∧
    resetTime entry = now + windowMs config.

(** Two visitors and a cleanup pass in between. *)
Definition mixed_trace : list Event :=
  [ Call (RateLimitConfigs publicAPI) "gallery:198.51.100.7" 0 0;
    Call (RateLimitConfigs login) "login:203.0.113.5" 1000 1000;
    Call (RateLimitConfigs publicAPI) "gallery:198.51.100.7" 2000 2001;
    Sweep 60000;
    Call (RateLimitConfigs login) "login:203.0.113.5" 61000 61000;
    Call (RateLimitConfigs publicAPI) "gallery:198.51.100.7" 61500 61500 ].

End RateLimitTraces.

(** ** CORS policy ([src/lib/cors.ts]) *)

Module Cors.

Local Open Scope string_scope.

(** [interface CORSConfig] *)
Record CORSConfig := {
  allowedOrigins : list string;
  credentials : bool;
  methods : list string;
  headers : list string;
  exposedHeaders : list string;
  maxAge : Z
}.

(** [s.slice(n)] *)
Fixpoint string_drop (n : nat) (s : string) : string :=
  match n, s with
  | O, _ => s
  | S n', String _ s' => string_drop n' s'
  | S _, EmptyString => EmptyString
  end.

(** [s.replace(pattern, replacement)] for a string [pattern] and a
    [replacement] without [$]: the first occurrence is replaced. *)
Fixpoint replace_first (pattern replacement s : string) : string :=
  if String.prefix pattern s
  then replacement ++ string_drop (String.length pattern) s
  else match s with
       | EmptyString => EmptyString
       | String c s' => String c (replace_first pattern replacement s')
       end.

(** [s.includes(pattern)] *)
Fixpoint includes (pattern s : string) : bool :=
  String.prefix pattern s ||
  match s with
  | EmptyString => false
  | String _ s' => includes pattern s'
  end.

(** [list.join(", ")] *)
Definition join (l : list string) : string := String.concat ", " l.

(** [n.toString()] for an integer [n] (below 10^21 in size). *)
Definition toString (n : Z) : string :=
  DecimalString.NilEmpty.string_of_int (Z.to_int n).

Definition standard_methods : list string :=
  ["GET"; "POST"; "PUT"; "DELETE"; "OPTIONS"; "PATCH"].
Definition standard_headers : list string :=
  ["Content-Type"; "Authorization"; "X-Requested-With"; "Accept"].

(** [getCORSConfig()], reading [NODE_ENV] and [NEXT_PUBLIC_APP_URL] from
    the environment ([None]: not set). *)
Definition getCORSConfig (NODE_ENV NEXT_PUBLIC_APP_URL : option string) : CORSConfig :=
  let isDevelopment := bool_decide (NODE_ENV = Some "development") in
  let isProduction := bool_decide (NODE_ENV = Some "production") in
  if isDevelopment then
    {| allowedOrigins := ["http://localhost:3000"; "http://localhost:3001";
                          "http://127.0.0.1:3000"; "http://127.0.0.1:3001"];
       credentials := true;
       methods := standard_methods;
       headers := standard_headers;
       exposedHeaders := ["X-Total-Count"; "X-Page-Number"];
       maxAge := 86400 |}
  else
    let productionDomain :=
      if ClientIP.truthy NEXT_PUBLIC_APP_URL
      then default EmptyString NEXT_PUBLIC_APP_URL
      else "https://russoluxtours.de" in
    let allowedOrigins :=
      [productionDomain; replace_first "https://" "https://www." productionDomain] in
    {| allowedOrigins := allowedOrigins;
       credentials := true;
       methods := standard_methods;
       headers := standard_headers;
       exposedHeaders := ["X-Total-Count"; "X-Page-Number"];
       maxAge := 86400 |}.

(** [isOriginAllowed(origin, config)]; [None] is [undefined]. *)
Definition isOriginAllowed (origin : option string) (config : CORSConfig) : bool :=
  if negb (ClientIP.truthy origin) then false
  else bool_decide (default EmptyString origin ∈ allowedOrigins config).

(** [getCORSHeaders(origin, config)]: the returned object, as a map. *)
Definition getCORSHeaders (origin : option string) (config : CORSConfig)
  : gmap string string :=
  let isAllowed := isOriginAllowed origin config in
  if negb isAllowed then ∅
  else
    <["Access-Control-Allow-Origin" :=
        if ClientIP.truthy origin then default EmptyString origin else "*"]>
    (<["Access-Control-Allow-Credentials" :=
         if credentials config then "true" else "false"]>
    (<["Access-Control-Allow-Methods" := join (methods config)]>
    (<["Access-Control-Allow-Headers" := join (headers config)]>
    (<["Access-Control-Expose-Headers" := join (exposedHeaders config)]>
    (<["Access-Control-Max-Age" := toString (maxAge config)]> ∅))))).

(** [handleCORSPreflight(origin, config)] *)
Definition handleCORSPreflight (origin : option string) (config : CORSConfig)
  : gmap string string :=
  getCORSHeaders origin config.

End Cors.

(** ** The middleware ([src/middleware.ts]) and [getSession] *)

Module Middleware.
Import ClientIP Auth.
Local Open Scope string_scope.

(** The value of the [admin-session] cookie of a request: no such cookie
    ([undefined]), the empty string, or a non-empty string, which is a
    token. *)
Inductive Cookie `{Platform} :=
| NoCookie
| EmptyCookie
| TokenCookie (token : Token).

(** [getSession()] of [auth.ts], given the cookie store's [admin-session]. *)
Definition getSession `{Platform} (JWT_SECRET : string) (cookie : Cookie)
    (now_lib now : Z) : Result (option SessionPayload) :=
  match cookie with
  | NoCookie | EmptyCookie => ret None
  | TokenCookie token => verifySession JWT_SECRET token now_lib now
  end.

(** What the middleware reads of a [NextRequest]. *)
Record Request `{Platform} := {
  method : string;
  pathname : string;
  search : string;
  req_headers : Headers;
  admin_session : Cookie
}.

(** Header names are case-insensitive: a [Headers] object keeps them in
    lower case. *)
Definition lower_ascii (c : ascii) : ascii :=
  let n := nat_of_ascii c in
  if (Nat.leb 65 n && Nat.leb n 90)%bool then ascii_of_nat (n + 32) else c.

Fixpoint lower (s : string) : string :=
  match s with
  | EmptyString => EmptyString
  | String c s' => String (lower_ascii c) (lower s')
  end.

(** [Object.entries(object).forEach(([key, value]) => headers.set(key, value))] *)
Definition set_all (object : gmap string string) (headers : Headers) : Headers :=
  foldr (λ kv acc, <[lower kv.1 := kv.2]> acc) headers (map_to_list object).

(** What the middleware answers. *)
Inductive Response :=
(** [new NextResponse(null, { status, headers })] *)
| Preflight (status : Z) (headers : gmap string string)
(** [NextResponse.next()], with the headers set on it, the request headers
    it overrides (if any) and the cookies it deletes *)
| Next (headers : gmap string string) (request_headers : option Headers)
       (deleted : list string)
(** [NextResponse.redirect(new URL(location, request.url))] *)
| Redirect (location : string) (deleted : list string)
(** [NextResponse.json({ error }, { status, headers })] *)
| Json (status : Z) (error : string) (headers : gmap string string).

(** [middleware(request)].  [stringify] is [JSON.stringify] on a session;
    the two clocks are those of [verifySession], which is called at most
    once; the log lines are left out. *)
Definition middleware `{Platform} (stringify : SessionPayload → string)
    (NODE_ENV NEXT_PUBLIC_APP_URL : option string) (JWT_SECRET : string)
    (request : Request) (now_lib now : Z) : Result Response :=
  let requestOrigin := headers_get (req_headers request) "origin" in
  let corsConfig := Cors.getCORSConfig NODE_ENV NEXT_PUBLIC_APP_URL in
  let clientIP := getClientIP (req_headers request) in
  let origin := if truthy requestOrigin then requestOrigin else None in
  if String.eqb (method request) "OPTIONS" then
    ret (Preflight 200 (Cors.getCORSHeaders origin corsConfig))
  else if (String.prefix "/api/" (pathname request) &&
           String.eqb (method request) "GET")%bool then
    ret (Next (Cors.getCORSHeaders origin corsConfig) None [])
  else if (String.prefix "/admin" (pathname request) &&
           negb (String.prefix "/admin/login" (pathname request)))%bool then
    match admin_session request with
    | NoCookie | EmptyCookie => ret (Redirect "/admin/login" [])
    | TokenCookie token =>
        let! session := verifySession JWT_SECRET token now_lib now in
        match session with
        | None => ret (Redirect "/admin/login" ["admin-session"])
        | Some _ => ret (Next ∅ None [])
        end
    end
  else if (String.prefix "/api/admin" (pathname request) ||
           String.prefix "/api/auth/logout" (pathname request))%bool then
    let corsHeaders := Cors.getCORSHeaders origin corsConfig in
    match admin_session request with
    | NoCookie | EmptyCookie =>
        ret (Json 401 "Unauthorized: No session token" corsHeaders)
    | TokenCookie token =>
        let! session := verifySession JWT_SECRET token now_lib now in
        match session with
        | None => ret (Json 401 "Unauthorized: Invalid or expired session" corsHeaders)
        | Some session =>
            let requestHeaders :=
              <["x-admin-session" := stringify session]> (req_headers request) in
            ret (Next ∅ (Some (set_all corsHeaders requestHeaders)) [])
        end
    end
  else
    let fallthrough := ret (Next ∅ None []) in
    if String.eqb (pathname request) "/admin/login" then
      match admin_session request with
      | NoCookie | EmptyCookie => fallthrough
      | TokenCookie token =>
          let! session := verifySession JWT_SECRET token now_lib now in
          match session with
          | Some _ => ret (Redirect "/admin" [])
          | None => ret (Next ∅ None ["admin-session"])
          end
      end
    else fallthrough.

(** The cookie a browser holds after a response. *)
Definition cookie_after `{Platform} (cookie : Cookie) (response : Response) : Cookie :=
  match response with
  | Next _ _ deleted | Redirect _ deleted =>
      if bool_decide ("admin-session" ∈ deleted) then NoCookie else cookie
  | _ => cookie
  end.

(** The request a browser makes when it follows a redirect (status 307:
    the method is kept). *)
Definition follow `{Platform} (request : Request) (response : Response) : Request :=
  match response with
  | Redirect location _ =>
      {| method := method request; pathname := location; search := "";
         req_headers := req_headers request;
         admin_session := cookie_after (admin_session request) response |}
  | _ => request
  end.

(** The CORS headers the middleware computes for a request. *)
Definition cors_of `{Platform} (NODE_ENV NEXT_PUBLIC_APP_URL : option string)
    (request : Request) : gmap string string :=
  Cors.getCORSHeaders
    (if truthy (headers_get (req_headers request) "origin")
     then headers_get (req_headers request) "origin" else None)
    (Cors.getCORSConfig NODE_ENV NEXT_PUBLIC_APP_URL).

(** A request without headers, and the session rendering used to run the
    middleware on the reference platform. *)
Definition plain_request `{Platform} (method pathname : string) (cookie : Cookie)
  : Request :=
  {| method := method; pathname := pathname; search := "";
     req_headers := ∅; admin_session := cookie |}.

Definition ref_stringify (session : SessionPayload) : string :=
  match username session with
  | Some (Str name) => name
  | _ => ""
  end.

(** The middleware of a production deployment on the reference platform. *)
Definition ref_middleware :=
  middleware (H := ref_platform) ref_stringify (Some "production") None "secret".

End Middleware.

(** ** The login route ([src/app/api/auth/login/route.ts], lines 1-99) *)

Module Login.
Import RateLimit ClientIP Auth.
Local Open Scope string_scope.

(** What [await request.json()] gives: a rejection, a JSON object, or
    another JSON value.  A member that holds an array or an object is not
    represented; the schema treats it like any member that is not a
    string. *)
Inductive Body :=
| NotJson
| Fields (fields : gmap string Value)
| NotAnObject.

(** [loginSchema.safeParse(body)]: [email] must be a string that passes
    zod's e-mail check ([z_email], taken as given), [password] a string of
    length at least 1. *)
Definition safeParse (z_email : string → bool) (body : Body) : option (string * string) :=
  match body with
  | Fields fields =>
      match fields !! "email", fields !! "password" with
      | Some (Str email), Some (Str password) =>
          if (z_email email && (1 <=? Z.of_nat (String.length password))%Z)%bool
          then Some (email, password) else None
      | _, _ => None
      end
  | _ => None
  end.

(** The options of [response.cookies.set('admin-session', token, ...)]. *)
Record SessionCookie `{Platform} := {
  value : Token;
  httpOnly : bool;
  secure : bool;
  sameSite : string;
  cookieMaxAge : Z;
  path : string
}.

(** The responses of the route. *)
Inductive LoginResponse `{Platform} :=
(** 429, with the header [Retry-After] *)
| TooManyAttempts (retryAfter : Z)
(** 400 *)
| InvalidInput
(** 401, with the remaining quota *)
| InvalidCredentials (remaining : Z)
(** 200, with the session cookie *)
| LoggedIn (email : string) (cookie : SessionCookie)
(** 500 *)
| InternalError.

Definition status `{Platform} (response : LoginResponse) : Z :=
  match response with
  | TooManyAttempts _ => 429
  | InvalidInput => 400
  | InvalidCredentials _ => 401
  | LoggedIn _ _ => 200
  | InternalError => 500
  end.

(** The clock readings of one request, in program order: two in the
    limiter, three in [createSession]. *)
Record Clocks := {
  at_increment : Z;
  at_retryAfter : Z;
  at_expiresAt : Z;
  at_iat : Z;
  at_exp : Z
}.

(** One reading for all five. *)
Definition frozen (T : Z) : Clocks :=
  {| at_increment := T; at_retryAfter := T; at_expiresAt := T; at_iat := T; at_exp := T |}.

(** [loginLimiter] *)
Definition loginLimiter (NODE_ENV : option string) :=
  createRateLimiter
    (getRateLimitConfig login (bool_decide (NODE_ENV = Some "development"))).

(** [`login:${clientIP}`] *)
Definition rateLimitKey (headers : Headers) : string :=
  "login:" ++ getClientIP headers.

(** [POST(request)]: the store afterwards, the time slept in timers and
    the response. *)
Definition POST `{Platform} (z_email : string → bool) (NODE_ENV : option string)
    (env : Env) (JWT_SECRET : string) (headers : Headers) (body : Body)
    (clocks : Clocks) (s : RateLimitStore) : RateLimitStore * Z * LoginResponse :=
  let clientIP := getClientIP headers in
  let '(rateLimitResult, s') :=
    loginLimiter NODE_ENV ("login:" ++ clientIP)
      (at_increment clocks) (at_retryAfter clocks) s in
  if negb (allowed rateLimitResult)
  then (s', 0, TooManyAttempts (retryAfter rateLimitResult))
  else
    match body with
    | NotJson => (s', 0, InternalError)
    | _ =>
        match safeParse z_email body with
        | None => (s', 0, InvalidInput)
        | Some (email, password) =>
            let '(slept, isValid) := verifyCredentials env email password in
            match isValid with
            | inl _ => (s', slept, InternalError)
            | inr false => (s', slept + 1000, InvalidCredentials (remaining rateLimitResult))
            | inr true =>
                let token := createSession JWT_SECRET email (at_expiresAt clocks)
                               (at_iat clocks) (at_exp clocks) in
                (s', slept,
                 LoggedIn email
                   {| value := token;
                      httpOnly := true;
                      secure := bool_decide (NODE_ENV = Some "production");
                      sameSite := "lax";
                      cookieMaxAge := 2 * 60 * 60;
                      path := "/" |})
            end
        end
    end.

(** One request as the route sees it. *)
Record LoginRequest := {
  headers : Headers;
  body : Body;
  clocks : Clocks
}.

(** Requests served one after the other on the shared store. *)
Fixpoint serve `{Platform} (z_email : string → bool) (NODE_ENV : option string)
    (env : Env) (JWT_SECRET : string) (requests : list LoginRequest)
    (s : RateLimitStore) : list LoginResponse * RateLimitStore :=
  match requests with
  | [] => ([], s)
  | request :: requests' =>
      let '(s', _, response) :=
        POST z_email NODE_ENV env JWT_SECRET (headers request) (body request)
          (clocks request) s in
      let '(responses, s'') := serve z_email NODE_ENV env JWT_SECRET requests' s' in
      (response :: responses, s'')
  end.

(** The body that carries the credentials written in [verifyCredentials]. *)
Definition credentials (email password : string) : Body :=
  Fields (<["email" := Str email]> (<["password" := Str password]> ∅)).

(** An address made of [n] digits 1, to put in [x-forwarded-for]. *)
Fixpoint ones (n : nat) : string :=
  match n with
  | O => EmptyString
  | S n' => String "1" (ones n')
  end.

(** A platform on which [password] is the one password that matches the
    hash written in the code; the rest is the reference platform. *)
Definition platform_with_password (password : string) : Platform :=
  {| toISOString := ref_toISOString;
     Date_parse := ref_Date_parse;
     Date_parse_toISOString := @Date_parse_toISOString ref_platform;
     Token := option (string * Payload);
     jws_sign := λ _ key payload, Some (key, payload);
     jws_open := ref_jws_open;
     jws_open_sign := @jws_open_sign ref_platform;
     bcrypt_compare := λ given hash,
       ret (String.eqb given password && String.eqb hash TARGET_HASH) |}.

Definition open_sesame : Platform := platform_with_password "open sesame".

(** A login attempt the way a browser sends it: no proxy header unless
    [forwarded] is given, one clock reading for the whole request. *)
Definition attempt (forwarded : option string) (password : string) (T : Z)
  : LoginRequest :=
  {| headers := match forwarded with
                | Some ip => {[ "x-forwarded-for" := ip ]}
                | None => ∅
                end;
     body := credentials TARGET_EMAIL password;
     clocks := frozen T |}.

(** Five wrong guesses, then the right password, a minute apart. *)
Definition six_logins : list LoginRequest :=
  [ attempt None "guess 1" 0; attempt None "guess 2" 60000;
    attempt None "guess 3" 120000; attempt None "guess 4" 180000;
    attempt None "guess 5" 240000; attempt None "open sesame" 300000 ].

Definition production_login :=
  POST (H := open_sesame) (λ _, true) (Some "production") other_admin_env "secret".

Definition production_serve :=
  serve (H := open_sesame) (λ _, true) (Some "production") other_admin_env "secret".

Definition production_cookie (T0 : Z) : SessionCookie (H := open_sesame) :=
  {| value := issue (H := open_sesame) "secret" TARGET_EMAIL T0;
     httpOnly := true;
     secure := true;
     sameSite := "lax";
     cookieMaxAge := 7200;
     path := "/" |}.

End Login.

(** ** Performance monitor ([src/lib/errorHandler.ts], lines 542-885)

    Durations and byte counts are integers, and every operation below is
    exact on them.  The fields of [getStats] that the source computes in
    floating point ([avg], [p95], [p99], [slowPercentage] and the memory
    averages), [getSystemHealth], [getCPUUsage] and [exportMetrics] are not
    part of the model. *)

Module Performance.
Local Open Scope string_scope.
Local Open Scope Z_scope.

Record PerformanceThresholds := {
  api : Z;
  database : Z;
  critical : Z
}.

(** The [type] argument of the measuring functions. *)
Inductive ThresholdKey := key_api | key_database | key_critical.

(** [thresholds[type]] *)
Definition threshold_of (thresholds : PerformanceThresholds) (type : ThresholdKey) : Z :=
  match type with
  | key_api => api thresholds
  | key_database => database thresholds
  | key_critical => critical thresholds
  end.

Definition DEFAULT_THRESHOLDS : PerformanceThresholds :=
  {| api := 500; database := 200; critical := 1000 |}.

(** [process.memoryUsage()], in bytes. *)
Record MemoryUsage := {
  heapUsed : Z;
  heapTotal : Z;
  external : Z;
  rss : Z
}.

(** [Math.round(bytes / 1024 / 1024)]: the two divisions are exact on an
    integer, and [Math.round] takes a half upwards. *)
Definition round_MB (bytes : Z) : Z := (bytes + 512 * 1024) / (1024 * 1024).

(** The [memory] field of a metric, in megabytes. *)
Record Memory := {
  mb_heapUsed : Z;
  mb_heapTotal : Z;
  mb_external : Z;
  mb_rss : Z;
  delta : Z
}.

Record PerformanceMetric := {
  operation : string;
  duration : Z;
  memory : Memory;
  timestamp : Z;
  slow : bool;
  threshold : Z
}.

Record PerformanceMonitor := {
  metrics : list PerformanceMetric;
  thresholds : PerformanceThresholds
}.

Definition maxMetrics : Z := 1000.

(** [new PerformanceMonitor(thresholds)]; a field of the argument is a
    number or is absent. *)
Definition constructor (given : option (option Z * option Z * option Z))
  : PerformanceMonitor :=
  {| metrics := [];
     thresholds :=
       match given with
       | None => DEFAULT_THRESHOLDS
       | Some (given_api, given_database, given_critical) =>
           {| api := default (api DEFAULT_THRESHOLDS) given_api;
              database := default (database DEFAULT_THRESHOLDS) given_database;
              critical := default (critical DEFAULT_THRESHOLDS) given_critical |}
       end |}.

(** The singleton the module exports. *)
Definition performanceMonitor : PerformanceMonitor := constructor None.

Definition with_metrics (l : list PerformanceMetric) (m : PerformanceMonitor)
  : PerformanceMonitor :=
  {| metrics := l; thresholds := thresholds m |}.

(** [array.slice(start)] for an integer [start]: a negative one counts
    from the end. *)
Definition slice {A} (start : Z) (l : list A) : list A :=
  let len := Z.of_nat (length l) in
  let k := if start <? 0 then Z.max (len + start) 0 else Z.min start len in
  drop (Z.to_nat k) l.

(** [getMemoryUsage()] *)
Definition getMemoryUsage (memUsage : MemoryUsage) : Z * Z * Z * Z :=
  (round_MB (heapUsed memUsage), round_MB (heapTotal memUsage),
   round_MB (external memUsage), round_MB (rss memUsage)).

Inductive LogLevel := log_error | log_warn | log_debug.

(** [recordMetric(operation, duration, type, memoryDelta)]: [memUsage] is
    what [process.memoryUsage()] returns to it and [now] its clock.  The
    result is the monitor afterwards and the level of the one line it
    logs. *)
Definition recordMetric (operation : string) (duration : Z) (type : ThresholdKey)
    (memoryDelta : Z) (memUsage : MemoryUsage) (now : Z) (m : PerformanceMonitor)
  : PerformanceMonitor * LogLevel :=
  let threshold := threshold_of (thresholds m) type in
  let isSlow := threshold <? duration in
  let isCritical := critical (thresholds m) <? duration in
  let '(used, total, ext, resident) := getMemoryUsage memUsage in
  let metric :=
    {| operation := operation;
       duration := duration;
       memory := {| mb_heapUsed := used; mb_heapTotal := total;
                    mb_external := ext; mb_rss := resident;
                    delta := round_MB (if memoryDelta =? 0 then 0 else memoryDelta) |};
       timestamp := now;
       slow := isSlow;
       threshold := threshold |} in
  let pushed := (metrics m ++ [metric])%list in
  let kept :=
    if maxMetrics <? Z.of_nat (length pushed) then slice (- maxMetrics) pushed
    else pushed in
  (with_metrics kept m,
   if isCritical then log_error else if isSlow then log_warn else log_debug).

(** What one measurement reads from the process: the clock and the heap
    before and after the measured function, then the memory usage and the
    clock inside [recordMetric]. *)
Record Readings := {
  startTime : Z;
  startMemory : Z;
  endTime : Z;
  endMemory : Z;
  usage : MemoryUsage;
  stamp : Z
}.

(** [measureSync(operation, fn, type)], where [fn] is what the measured
    function returns ([inr]) or throws ([inl]).  The result is the monitor
    afterwards, the level of the line logged, and what the call returns or
    throws. *)
Definition measureSync {E T} (operation : string) (fn : E + T) (type : ThresholdKey)
    (readings : Readings) (m : PerformanceMonitor)
  : PerformanceMonitor * LogLevel * (E + T) :=
  match fn with
  | inr result =>
      let duration := endTime readings - startTime readings in
      let memoryDelta := endMemory readings - startMemory readings in
      let '(m', level) :=
        recordMetric operation duration type memoryDelta (usage readings)
          (stamp readings) m in
      (m', level, inr result)
  | inl error => (m, log_error, inl error)
  end.

(** [measureAsync(operation, fn, type)], where [fn] is how the promise of
    the measured function settles, and [m] the monitor at that moment. *)
Definition measureAsync {E T} (operation : string) (fn : E + T) (type : ThresholdKey)
    (readings : Readings) (m : PerformanceMonitor)
  : PerformanceMonitor * LogLevel * (E + T) :=
  match fn with
  | inr result =>
      let duration := endTime readings - startTime readings in
      let memoryDelta := endMemory readings - startMemory readings in
      let '(m', level) :=
        recordMetric operation duration type memoryDelta (usage readings)
          (stamp readings) m in
      (m', level, inr result)
  | inl error => (m, log_error, inl error)
  end.

(** [clear()] *)
Definition clear (m : PerformanceMonitor) : PerformanceMonitor := with_metrics [] m.

(** [getMetrics(limit)]: [None] is an omitted argument. *)
Definition getMetrics (limit : option Z) (m : PerformanceMonitor)
  : list PerformanceMetric :=
  slice (- default 100 limit) (metrics m).

(** [haystack.includes(needle)] on strings. *)
Fixpoint includes (needle haystack : string) : bool :=
  String.prefix needle haystack ||
  match haystack with
  | EmptyString => false
  | String _ rest => includes needle rest
  end.

(** The fields of the result of [getStats] that are computed on integers.
    [None] in [p50] is [undefined]. *)
Record Stats := {
  stats_operation : string;
  count : Z;
  min : Z;
  max : Z;
  p50 : option Z;
  slowCount : Z;
  maxHeapUsed : Z
}.

(** [[...durations].sort((a, b) => a - b)] *)
Definition sort (durations : list Z) : list Z := merge_sort Z.le durations.

(** [Math.min(...numbers)] and [Math.max(...numbers)] of a list that is
    not empty. *)
Definition Math_min (first : Z) (others : list Z) : Z := foldl Z.min first others.
Definition Math_max (first : Z) (others : list Z) : Z := foldl Z.max first others.

Definition is_slow (metric : PerformanceMetric) : bool := slow metric.

(** The metrics [getStats(operation)] is about: all of them when the
    argument is omitted or empty, else those whose name contains it. *)
Definition relevantMetrics (operation : option string) (m : PerformanceMonitor)
  : list PerformanceMetric :=
  match operation with
  | Some (String c name) =>
      List.filter (λ metric, includes (String c name) (Performance.operation metric))
        (metrics m)
  | _ => metrics m
  end.

(** [getStats(operation)]: [None] is an omitted argument and [None] as a
    result is [null]. *)
Definition getStats (operation : option string) (m : PerformanceMonitor)
  : option Stats :=
  let relevantMetrics := relevantMetrics operation m in
  match relevantMetrics with
  | [] => None
  | first :: others =>
      let durations := duration <$> relevantMetrics in
      let sorted := sort durations in
      Some {| stats_operation :=
                match operation with
                | Some (String c name) => String c name
                | _ => "all"
                end;
              count := Z.of_nat (length relevantMetrics);
              min := Math_min (duration first) (duration <$> others);
              max := Math_max (duration first) (duration <$> others);
              p50 := sorted !! Z.to_nat (Z.of_nat (length sorted) / 2);
              slowCount := Z.of_nat (length (List.filter is_slow relevantMetrics));
              maxHeapUsed :=
                Math_max (mb_heapUsed (memory first))
                  ((λ metric, mb_heapUsed (memory metric)) <$> others) |}
  end.

(** The statistics [GET /api/admin/metrics] reports
    ([src/app/api/admin/metrics/route.ts], lines 12 and 27-29) and the
    recent metrics it lists (lines 32 and 42-47); [param] is the
    [operation] parameter of the query. *)
Definition GET_stats (param : option string) (m : PerformanceMonitor) : option Stats :=
  match param with
  | Some (String c name) => getStats (Some (String c name)) m
  | _ => getStats (Some "all") m
  end.

Definition GET_recentMetrics (m : PerformanceMonitor) : list (string * Z * bool * Z) :=
  (λ metric, (operation metric, duration metric, slow metric, timestamp metric)) <$>
  getMetrics (Some 50) m.

(** One measurement, as the monitor sees it when it ends: made with
    [measureAsync] or with [measureSync]; [settled] is the message of the
    error the measured function threw, or [inr tt]. *)
Record Measurement := {
  measured : string;
  type : ThresholdKey;
  asynchronous : bool;
  settled : string + unit;
  readings : Readings
}.

Definition measure (x : Measurement) (m : PerformanceMonitor) : PerformanceMonitor :=
  (if asynchronous x
   then measureAsync (measured x) (settled x) (type x) (readings x) m
   else measureSync (measured x) (settled x) (type x) (readings x) m).1.1.

Definition succeeded (x : Measurement) : bool :=
  match settled x with
  | inr _ => true
  | inl _ => false
  end.

Definition run (measurements : list Measurement) (m : PerformanceMonitor)
  : PerformanceMonitor :=
  foldl (λ m x, measure x m) m measurements.

(** The metric a successful measurement leaves. *)
Definition metric_of (thresholds : PerformanceThresholds) (x : Measurement)
  : PerformanceMetric :=
  let duration := endTime (readings x) - startTime (readings x) in
  {| operation := measured x;
     duration := duration;
     memory := {| mb_heapUsed := round_MB (heapUsed (usage (readings x)));
                  mb_heapTotal := round_MB (heapTotal (usage (readings x)));
                  mb_external := round_MB (external (usage (readings x)));
                  mb_rss := round_MB (rss (usage (readings x)));
                  delta := round_MB (endMemory (readings x) - startMemory (readings x)) |};
     timestamp := stamp (readings x);
     slow := threshold_of thresholds (type x) <? duration;
     threshold := threshold_of thresholds (type x) |}.

(** A measurement of [duration] milliseconds with nothing else to report. *)
Definition took (name : string) (duration : Z) : Measurement :=
  {| measured := name; type := key_api; asynchronous := true; settled := inr tt;
     readings := {| startTime := 0; startMemory := 0; endTime := duration;
                    endMemory := 0;
                    usage := {| heapUsed := 0; heapTotal := 0; external := 0; rss := 0 |};
                    stamp := duration |} |}.

(** The same measurement when the measured function throws. *)
Definition failed (name : string) (duration : Z) : Measurement :=
  {| measured := name; type := key_api; asynchronous := false; settled := inl "failed";
     readings := readings (took name duration) |}.

(** A buffer of the reference measurements used below. *)
Definition busy_monitor : PerformanceMonitor :=
  run [took "db_query_packages" 120; took "install" 700; failed "render" 5000;
       took "getAllPackages" 90; took "call_api" 1500; took "db_query_fairs" 300]
    performanceMonitor.

(** A buffer without a name that contains ["all"]. *)
Definition quiet_monitor : PerformanceMonitor :=
  run [took "db_query_packages" 120; took "getAllPackages" 90] performanceMonitor.

(** What [getStats('db_query')] returns on [busy_monitor]. *)
Definition db_query_stats : Stats :=
  {| stats_operation := "db_query"; count := 2; min := 120; max := 300;
     p50 := Some 300; slowCount := 0; maxHeapUsed := 0 |}.

End Performance.

(** ** The inquiry route ([src/app/api/inquiry/route.ts], lines 1-107)

    [InquirySchema] is zod's: what the route needs of it is whether
    [safeParse] succeeds on a body. *)

Module Inquiry.
Import RateLimit ClientIP.
Local Open Scope string_scope.
Local Open Scope Z_scope.

Inductive InquiryResponse :=
(** 429, with the header [Retry-After] *)
| TooManyInquiries (retryAfter : Z)
(** 400, with the issues *)
| ValidationFailed
(** 201, with the remaining quota *)
| Submitted (remaining : Z)
(** 500 *)
| InternalError.

Definition status (response : InquiryResponse) : Z :=
  match response with
  | TooManyInquiries _ => 429
  | ValidationFailed => 400
  | Submitted _ => 201
  | InternalError => 500
  end.

(** [inquiryLimiter] *)
Definition inquiryLimiter (NODE_ENV : option string) :=
  createRateLimiter
    (getRateLimitConfig inquiry (bool_decide (NODE_ENV = Some "development"))).

Definition rateLimitKey (headers : Headers) : string :=
  "inquiry:" ++ getClientIP headers.

(** [POST]: [now] and [now'] are the two clock readings of the limiter.
    The result is the store afterwards, the time slept in timers and the
    response. *)
Definition POST (InquirySchema : Login.Body → bool) (NODE_ENV : option string)
    (headers : Headers) (body : Login.Body) (now now' : Z) (s : RateLimitStore)
  : RateLimitStore * Z * InquiryResponse :=
  let clientIP := getClientIP headers in
  let '(rateLimitResult, s') :=
    inquiryLimiter NODE_ENV ("inquiry:" ++ clientIP) now now' s in
  if negb (allowed rateLimitResult)
  then (s', 0, TooManyInquiries (retryAfter rateLimitResult))
  else
    match body with
    | Login.NotJson => (s', 0, InternalError)
    | _ =>
        if negb (InquirySchema body) then (s', 0, ValidationFailed)
        else (s', 500, Submitted (remaining rateLimitResult))
    end.

(** One request as the route sees it. *)
Record InquiryRequest := {
  headers : Headers;
  body : Login.Body;
  now : Z;
  now' : Z
}.

Fixpoint serve (InquirySchema : Login.Body → bool) (NODE_ENV : option string)
    (requests : list InquiryRequest) (s : RateLimitStore)
  : list InquiryResponse * RateLimitStore :=
  match requests with
  | [] => ([], s)
  | request :: requests' =>
      let '(s', _, response) :=
        POST InquirySchema NODE_ENV (headers request) (body request)
          (now request) (now' request) s in
      let '(responses, s'') := serve InquirySchema NODE_ENV requests' s' in
      (response :: responses, s'')
  end.

(** Eleven inquiries a minute apart from one address. *)
Definition eleven_inquiries : list InquiryRequest :=
  (λ n, {| headers := {[ "x-real-ip" := "203.0.113.5" ]};
           body := Login.NotAnObject;
           now := 60000 * n; now' := 60000 * n |}) <$>
  [0; 1; 2; 3; 4; 5; 6; 7; 8; 9; 10].

End Inquiry.

(** ** Error handler ([src/lib/errorHandler.ts], lines 1-288)

    An error object is the class it was constructed from and the fields
    the constructors set; [stack] is the trace the runtime captured and a
    [context] is kept as its rendering. *)

Module ErrorHandler.
Local Open Scope string_scope.
Local Open Scope Z_scope.















Inductive LogLevel := log_error | log_warn | log_info.






End ErrorHandler.

(** * Properties *)

(** ** The store and its cleanup pass *)

Module RateLimitFacts.
Import RateLimit.

Lemma lookup_foldl_delete (keys : list string) (m : gmap string RateLimitEntry) k :
  foldl (λ m key, delete key m) m keys !! k =
  if decide (k ∈ keys) then None else m !! k.
Proof.
  revert m. induction keys as [|key keys IH]; intros m; cbn [foldl].
  - by rewrite decide_False by apply not_elem_of_nil.
  - rewrite IH. destruct (decide (k = key)) as [->|Hne].
    + rewrite lookup_delete_eq, (decide_True (P := key ∈ key :: keys)) by constructor.
      by destruct (decide (key ∈ keys)).
    + rewrite lookup_delete_ne by done. destruct (decide (k ∈ keys)) as [Hin|Hin].
      * by rewrite decide_True by (by constructor).
      * rewrite decide_False; [done|]. by intros [?|?]%elem_of_cons.
Qed.

Lemma elem_of_expiredKeys now (m : gmap string RateLimitEntry) k :
  k ∈ expiredKeys now m ↔ ∃ entry, m !! k = Some entry ∧ expired now entry = true.
Proof.
  unfold expiredKeys. rewrite list_elem_of_fmap. split.
  - intros [[k' entry] [-> [Hexp Hin]%list_elem_of_filter]].
    exists entry. split; [by apply elem_of_map_to_list | done].
  - intros (entry & Hk & Hexp). exists (k, entry). split; [done|].
    apply list_elem_of_filter. split; [done | by apply elem_of_map_to_list].
Qed.

(** What a cleanup pass leaves under each key. *)
Lemma lookup_cleanup now s k :
  store (cleanup now s) !! k =
  match store s !! k with
  | Some entry => if expired now entry then None else Some entry
  | None => None
  end.
Proof.
  unfold cleanup. simpl. rewrite lookup_foldl_delete.
  case_decide as Hin.
  - apply elem_of_expiredKeys in Hin as (entry & -> & ->). done.
  - destruct (store s !! k) as [entry|] eqn:Hk; [|done].
    destruct (expired now entry) eqn:Hexp; [|done].
    exfalso. apply Hin, elem_of_expiredKeys. eauto.
Qed.

Lemma live_cleanup key now now' s :
  now' ≤ now → live key now (cleanup now' s) = live key now s.
Proof.
  intros Hle. unfold live. rewrite lookup_cleanup.
  destruct (store s !! key) as [entry|]; [|done].
  unfold expired. destruct (resetTime entry <? now') eqn:H1; [|done].
  apply Z.ltb_lt in H1. destruct (resetTime entry <? now) eqn:H2; [done|].
  apply Z.ltb_ge in H2. lia.
Qed.

(** C3. The store is built with a cleanup timer of period 60000 ms, which
    neither a request nor a pass changes; a
    cleanup pass at clock [now] deletes exactly the entries with
    [resetTime < now], whether or not their key was requested again: none
    of them is left under any key or in an enumeration of the store, the
    other entries are kept as they are, and on an empty store the pass
    returns the empty store. *)
Theorem cleanup_removes_expired :
  cleanupInterval constructor = Some 60000 ∧
  (∀ now s, cleanupInterval (cleanup now s) = cleanupInterval s) ∧
  (∀ key windowMs now s,
      cleanupInterval (increment key windowMs now s).2 = cleanupInterval s) ∧
  (∀ now s key entry,
      store s !! key = Some entry → resetTime entry < now →
      store (cleanup now s) !! key = None) ∧
  (∀ now s key entry,
      store (cleanup now s) !! key = Some entry →
      ¬ resetTime entry < now ∧ store s !! key = Some entry) ∧
  (∀ now s key entry,
      (key, entry) ∈ map_to_list (store (cleanup now s)) → ¬ resetTime entry < now) ∧
  (∀ now s key entry,
      store s !! key = Some entry → ¬ resetTime entry < now →
      store (cleanup now s) !! key = Some entry) ∧
  (∀ now, cleanup now constructor = constructor).
Proof.
  assert (Hkept : ∀ now s key entry,
             store (cleanup now s) !! key = Some entry →
             ¬ resetTime entry < now ∧ store s !! key = Some entry).
  { intros now s key entry. rewrite lookup_cleanup.
    destruct (store s !! key) as [e|]; [|done].
    unfold expired. destruct (resetTime e <? now) eqn:Hlt; [done|].
    intros [= ->]. apply Z.ltb_ge in Hlt. split; [lia | done]. }
  split_and!.
  - done.
  - done.
  - intros key windowMs now s. unfold increment.
    destruct (store s !! key) as [entry|]; [|done]. by destruct (expired now entry).
  - intros now s key entry Hk Hlt. rewrite lookup_cleanup, Hk.
    unfold expired. by apply Z.ltb_lt in Hlt as ->.
  - done.
  - intros now s key entry Hin%elem_of_map_to_list. by apply Hkept in Hin as [? _].
  - intros now s key entry Hk Hge. rewrite lookup_cleanup, Hk.
    unfold expired. destruct (resetTime entry <? now) eqn:Hlt; [|done].
    apply Z.ltb_lt in Hlt. lia.
  - intros now. unfold cleanup, constructor, with_store, expiredKeys. simpl.
    by rewrite map_to_list_empty.
Qed.

Lemma cleanup_removes_expired_witness :
  store (cleanup 50 two_entry_store) !! "gone"%string = None ∧
  store (cleanup 50 two_entry_store) !! "kept"%string =
    Some {| count := 2; firstRequest := 40; resetTime := 100 |} ∧
  cleanup 50 constructor = constructor.
Proof.
  destruct cleanup_removes_expired as (_ & _ & _ & Hgone & _ & _ & Hkept & Hempty).
  split_and!.
  - apply (Hgone 50 two_entry_store "gone"%string
             {| count := 7; firstRequest := 0; resetTime := 10 |});
      [reflexivity | simpl; lia].
  - apply (Hkept 50 two_entry_store "kept"%string); [reflexivity | simpl; lia].
  - apply Hempty.
Defined.

(** ** One call of a limiter *)

Lemma increment_next key windowMs now s :
  increment key windowMs now s =
  (next_entry key windowMs now s,
   with_store (<[key := next_entry key windowMs now s]> (store s)) s).
Proof.
  unfold increment, next_entry, live.
  destruct (store s !! key) as [entry|]; [|done].
  by destruct (expired now entry).
Qed.

(** [ceil_div1000] is the ceiling of the quotient by 1000. *)
Lemma ceil_div1000_spec x q :
  ceil_div1000 x = q ↔ 1000 * (q - 1) < x ≤ 1000 * q.
Proof.
  unfold ceil_div1000.
  pose proof (Z.div_mod (- x) 1000 ltac:(lia)) as Hdm.
  pose proof (Z.mod_pos_bound (- x) 1000 ltac:(lia)) as Hb.
  split; [intros <-; lia | intros [H1 H2]].
  assert (- x / 1000 = - q); [|lia].
  symmetry. apply Z.div_unique with (r := - x + 1000 * q); lia.
Qed.

Lemma createRateLimiter_next config identifier now now' s :
  let key := key_of config identifier in
  let entry := next_entry key (windowMs config) now s in
  createRateLimiter config identifier now now' s =
  ({| allowed := count entry <=? maxRequests config;
      remaining := Z.max 0 (maxRequests config - count entry);
      resultResetTime := resetTime entry;
      retryAfter := Z.max 0 (ceil_div1000 (resetTime entry - now')) |},
   with_store (<[key := entry]> (store s)) s).
Proof.
  intros key entry. unfold createRateLimiter.
  rewrite increment_next. fold key entry. do 2 f_equal.
  destruct (0 <? ceil_div1000 (resetTime entry - now')) eqn:Hlt.
  - apply Z.ltb_lt in Hlt. lia.
  - apply Z.ltb_ge in Hlt. lia.
Qed.

(** A call under another key leaves the entry of [key] alone. *)
Lemma createRateLimiter_other config identifier now now' s key :
  key_of config identifier ≠ key →
  store (createRateLimiter config identifier now now' s).2 !! key = store s !! key.
Proof.
  intros Hne. rewrite createRateLimiter_next. simpl.
  by rewrite lookup_insert_ne.
Qed.

(** ** Calls within one window *)

Lemma run_in_window config key R evs :
  ∀ s entry,
    store s !! key = Some entry → resetTime entry = R →
    Forall (in_window config key R) evs →
    ∀ (i : nat) r, (run key evs s).1 !! i = Some r →
      allowed r = (count entry + Z.of_nat i + 1 <=? maxRequests config) ∧
      remaining r = Z.max 0 (maxRequests config - (count entry + Z.of_nat i + 1)) ∧
      resultResetTime r = R.
Proof.
  induction evs as [|ev evs IH]; intros s entry Hk HR Hall i r; [done|].
  apply Forall_cons in Hall as [Hev Hall]. cbn [run].
  destruct (step ev s) as [o s'] eqn:Hstep.
  destruct (run key evs s') as [rs s''] eqn:Hrun.
  pose proof (IH s') as IH'. rewrite Hrun in IH'. simpl in IH'.
  destruct ev as [c identifier now now'|now]; simpl in Hstep, Hev.
  - rewrite createRateLimiter_next in Hstep. injection Hstep as <- <-.
    destruct (decide (key_of c identifier = key)) as [Heq|Hne].
    + destruct Hev as [?|[-> Hnow]]; [done|]. rewrite Heq in *.
      assert (next_entry key (windowMs config) now s = bumped entry) as Hnext.
      { unfold next_entry, live, expired. rewrite Hk.
        destruct (resetTime entry <? now) eqn:Hlt; [|done].
        apply Z.ltb_lt in Hlt. lia. }
      rewrite Hnext in *. simpl. destruct i as [|i]; simpl.
      * intros [= <-]. simpl. rewrite Z.add_0_r. done.
      * intros Hi. eapply (IH' (bumped entry)) in Hi; [| |done|done].
        -- simpl in Hi. replace (count entry + Z.of_nat (S i) + 1)
             with (count entry + 1 + Z.of_nat i + 1) by lia. done.
        -- simpl. apply lookup_insert_eq.
    + simpl. intros Hi. eapply IH'; [|done|done|done].
      simpl. by rewrite lookup_insert_ne.
  - injection Hstep as <- <-. simpl. intros Hi.
    eapply IH'; [|done|done|done].
    rewrite lookup_cleanup, Hk. unfold expired.
    destruct (resetTime entry <? now) eqn:Hlt; [|done].
    apply Z.ltb_lt in Hlt. lia.
Qed.

(** One result per call under [key]. *)
Lemma run_length key evs s : length (run key evs s).1 = calls_under key evs.
Proof.
  revert s. induction evs as [|ev evs IH]; intros s; [done|]. cbn [run].
  destruct (step ev s) as [o s'] eqn:Hstep.
  specialize (IH s'). destruct (run key evs s') as [rs s''].
  destruct ev as [c identifier now now'|now]; simpl in Hstep.
  - destruct (createRateLimiter c identifier now now' s) as [r0 s0].
    injection Hstep as <- <-. unfold calls_under in *. simpl in *.
    destruct (decide (key_of c identifier = key)) as [Heq|Hne].
    + rewrite bool_decide_eq_true_2 by done. simpl. by rewrite IH.
    + rewrite bool_decide_eq_false_2 by done. done.
  - injection Hstep as <- <-. done.
Qed.

(** No entry is live for [key] at [now]: never seen, or past its [resetTime]. *)
Lemma live_None key now s :
  live key now s = None ↔
  store s !! key = None ∨ ∃ entry, store s !! key = Some entry ∧ resetTime entry < now.
Proof.
  unfold live, expired. destruct (store s !! key) as [entry|]; [|naive_solver].
  destruct (resetTime entry <? now) eqn:Hlt.
  - apply Z.ltb_lt in Hlt. naive_solver.
  - apply Z.ltb_ge in Hlt. split; [done|]. intros [?|(e & [= <-] & ?)]; [done|lia].
Qed.

Lemma live_Some key now s entry :
  live key now s = Some entry ↔ store s !! key = Some entry ∧ ¬ resetTime entry < now.
Proof.
  unfold live, expired. destruct (store s !! key) as [e|]; [|by split; [|intros [? _]]].
  destruct (resetTime e <? now) eqn:Hlt.
  - apply Z.ltb_lt in Hlt. split; [done|]. intros [Heq ?]. injection Heq as <-. lia.
  - apply Z.ltb_ge in Hlt. split; [intros [= <-]; split; [done|lia] | by intros [? _]].
Qed.

(** C1, for the profiles with [maxRequests >= 1].  Each call: when no
    entry is live for the key (never seen, or past its [resetTime]) a
    fresh entry with [count = 1] and [resetTime = now + windowMs] is
    stored and the call is allowed; when an entry is live its count is
    incremented and the call is allowed iff the new count is at most
    [maxRequests]; in every case [remaining = max(0, maxRequests - count)]
    and [retryAfter] is [ceil((resetTime - now') / 1000)] floored at 0.
    Consequently, counting the calls under one key from the call that
    opens its window, while other keys are served and cleanup passes run,
    every call gets a result, the calls number 1 to [maxRequests] are
    allowed and the call number [maxRequests + 1] is not. *)
Theorem rate_limiter_contract config (Hmax : 1 ≤ maxRequests config) :
  (∀ identifier now now' s,
     let key := key_of config identifier in
     let r := (createRateLimiter config identifier now now' s).1 in
     let s' := (createRateLimiter config identifier now now' s).2 in
     ∃ entry,
       store s' = <[key := entry]> (store s) ∧
       ((store s !! key = None ∨
         (∃ old, store s !! key = Some old ∧ resetTime old < now)) →
        entry = {| count := 1; firstRequest := now; resetTime := now + windowMs config |} ∧
        allowed r = true) ∧
       (∀ old, store s !! key = Some old → ¬ resetTime old < now →
        entry = {| count := count old + 1; firstRequest := firstRequest old;
                   resetTime := resetTime old |} ∧
        (allowed r = true ↔ count old + 1 ≤ maxRequests config)) ∧
       remaining r = Z.max 0 (maxRequests config - count entry) ∧
       resultResetTime r = resetTime entry ∧
       retryAfter r = Z.max 0 (ceil_div1000 (resetTime entry - now'))) ∧
  (∀ identifier now now' evs s,
     let key := key_of config identifier in
     (store s !! key = None ∨
      (∃ old, store s !! key = Some old ∧ resetTime old < now)) →
     Forall (in_window config key (now + windowMs config)) evs →
     length (run key (Call config identifier now now' :: evs) s).1 =
       S (calls_under key evs) ∧
     ∀ (i : nat) r,
       (run key (Call config identifier now now' :: evs) s).1 !! i = Some r →
       (Z.of_nat i < maxRequests config → allowed r = true) ∧
       (Z.of_nat i = maxRequests config → allowed r = false) ∧
       remaining r = Z.max 0 (maxRequests config - (Z.of_nat i + 1)) ∧
       resultResetTime r = now + windowMs config).
Proof.
  split.
  - intros identifier now now' s key r s'. subst r s'.
    rewrite createRateLimiter_next. fold key. simpl.
    exists (next_entry key (windowMs config) now s). split_and!; try done.
    + intros Hnone%live_None. unfold next_entry. rewrite Hnone.
      split; [done|]. simpl. apply Z.leb_le. done.
    + intros old Hold Hge. unfold next_entry.
      rewrite (proj2 (live_Some key now s old)) by done.
      split; [done|]. simpl. apply Z.leb_le.
  - intros identifier now now' evs s key Hnone%live_None Hall.
    split.
    { rewrite run_length. unfold calls_under. simpl.
      by rewrite bool_decide_eq_true_2. }
    intros i r. cbn [run step]. rewrite createRateLimiter_next. fold key.
    unfold next_entry. rewrite Hnone.
    set (s1 := with_store _ s).
    destruct (run key evs s1) as [rs s2] eqn:Hrun.
    rewrite decide_True by done. simpl. intros Hi.
    assert (allowed r = (Z.of_nat i + 1 <=? maxRequests config) ∧
            remaining r = Z.max 0 (maxRequests config - (Z.of_nat i + 1)) ∧
            resultResetTime r = now + windowMs config) as (Ha & Hr & Ht).
    { revert Hi. destruct i as [|i]; simpl.
      - intros. simplify_eq. done.
      - pose proof (run_in_window config key (now + windowMs config) evs s1
                      (fresh_entry now (windowMs config))) as Hw.
        rewrite Hrun in Hw. simpl in Hw.
        intros Hi. eapply Hw in Hi; [|apply lookup_insert_eq|done|done].
        simpl in Hi. replace (Z.of_nat (S i) + 1) with (1 + Z.of_nat i + 1) by lia.
        done. }
    split_and!; try done.
    + intros Hlt. rewrite Ha. apply Z.leb_le. lia.
    + intros Heq. rewrite Ha. apply Z.leb_gt. lia.
Qed.

(** The login scenario: attempts 1 to 5 of one client leave 4, 3, 2, 1, 0
    requests, the sixth is refused. *)
Lemma rate_limiter_contract_witness :
  1 ≤ maxRequests (RateLimitConfigs login) ∧
  ∃ r, (run "login:1.2.3.4"
          (Call (RateLimitConfigs login) "login:1.2.3.4" 0 0 :: five_more_logins)
          constructor).1 !! 5%nat = Some r ∧
       allowed r = false ∧ remaining r = 0 ∧ resultResetTime r = 900000.
Proof.
  assert (1 ≤ maxRequests (RateLimitConfigs login)) as Hmax by (simpl; lia).
  split; [exact Hmax|].
  eexists. split; [vm_compute; reflexivity|].
  assert (Forall (in_window (RateLimitConfigs login) "login:1.2.3.4"
                    (0 + windowMs (RateLimitConfigs login))) five_more_logins) as Hall.
  { unfold five_more_logins. simpl.
    repeat (apply Forall_cons_2; [right; split; [reflexivity | lia] |]).
    apply Forall_nil_2. }
  edestruct (proj2 (rate_limiter_contract (RateLimitConfigs login) Hmax)
               "login:1.2.3.4"%string 0 0 five_more_logins constructor
               (or_introl eq_refl) Hall) as [_ Hcalls].
  edestruct (Hcalls 5%nat) as (_ & Hno & Hrem & Ht).
  - vm_compute. reflexivity.
  - split_and!; [by apply Hno | exact Hrem | exact Ht].
Defined.

Example login_throttling :
  (λ r, (allowed r, remaining r, retryAfter r)) <$>
    (run "login:1.2.3.4"
       (Call (RateLimitConfigs login) "login:1.2.3.4" 0 0 :: five_more_logins) constructor).1 =
  [(true, 4, 900); (true, 3, 890); (true, 2, 880); (true, 1, 870); (true, 0, 860);
   (false, 0, 850)].
Proof. vm_compute. reflexivity. Qed.

(** On a profile with [maxRequests = 0] the call that opens a window is
    refused, although no entry exists for its key. *)
Lemma first_call_refused_at_zero_cap :
  store constructor !! key_of closed_profile "k" = None ∧
  (createRateLimiter closed_profile "k" 0 0 constructor).1 =
    {| allowed := false; remaining := 0; resultResetTime := 1000; retryAfter := 1 |} ∧
  store (createRateLimiter closed_profile "k" 0 0 constructor).2 !! "k"%string =
    Some {| count := 1; firstRequest := 0; resetTime := 1000 |}.
Proof. split_and!; reflexivity. Qed.

(** ** A call after the window has ended *)

(** C2, for the profiles with [maxRequests >= 1].  When the entry of a key
    is past its [resetTime], the next call for the key does what a first
    call would do had the key never been seen: the old entry, whatever its
    count, is replaced by one with [count = 1] and
    [resetTime = now + windowMs], and the call is allowed. *)
Theorem expired_window_restarts config (Hmax : 1 ≤ maxRequests config)
    identifier now now' s old :
  let key := key_of config identifier in
  store s !! key = Some old → resetTime old < now →
  createRateLimiter config identifier now now' s =
    createRateLimiter config identifier now now' (reset key s) ∧
  store (createRateLimiter config identifier now now' s).2 !! key =
    Some {| count := 1; firstRequest := now; resetTime := now + windowMs config |} ∧
  (∀ key', key' ≠ key →
     store (createRateLimiter config identifier now now' s).2 !! key' = store s !! key') ∧
  allowed (createRateLimiter config identifier now now' s).1 = true ∧
  remaining (createRateLimiter config identifier now now' s).1 = maxRequests config - 1 ∧
  resultResetTime (createRateLimiter config identifier now now' s).1 = now + windowMs config.
Proof.
  intros key Hold Hlt.
  assert (live key now s = None) as Hnone by (apply live_None; eauto).
  assert (live key now (reset key s) = None) as Hnone'.
  { apply live_None. left. simpl. apply lookup_delete_eq. }
  rewrite !createRateLimiter_next. fold key. unfold next_entry.
  rewrite Hnone, Hnone'. simpl. split_and!.
  - unfold with_store. simpl. by rewrite insert_delete_eq.
  - apply lookup_insert_eq.
  - intros key' Hne. by rewrite lookup_insert_ne.
  - by apply Z.leb_le.
  - lia.
  - done.
Qed.

Lemma expired_window_restarts_witness :
  (1 ≤ maxRequests (RateLimitConfigs login) ∧
   store stale_store !! key_of (RateLimitConfigs login) "k" =
     Some {| count := 3; firstRequest := 0; resetTime := 10 |} ∧
   10 < 11) ∧
  store (createRateLimiter (RateLimitConfigs login) "k" 11 11 stale_store).2 !! "k"%string =
    Some {| count := 1; firstRequest := 11; resetTime := 900011 |} ∧
  allowed (createRateLimiter (RateLimitConfigs login) "k" 11 11 stale_store).1 = true.
Proof.
  assert (1 ≤ maxRequests (RateLimitConfigs login)) as Hmax by (simpl; lia).
  assert (store stale_store !! key_of (RateLimitConfigs login) "k" =
            Some {| count := 3; firstRequest := 0; resetTime := 10 |}) as Hold
    by reflexivity.
  assert (10 < 11) as Hlt by lia.
  split; [done|].
  destruct (expired_window_restarts (RateLimitConfigs login) Hmax "k" 11 11
              stale_store _ Hold Hlt) as (_ & Hentry & _ & Hallowed & _).
  split; [exact Hentry | exact Hallowed].
Defined.

(** On a profile with [maxRequests = 0] the call after an ended window
    starts a new window and is refused. *)
Lemma restart_refused_at_zero_cap :
  store stale_store !! key_of closed_profile "k" =
    Some {| count := 3; firstRequest := 0; resetTime := 10 |} ∧
  store (createRateLimiter closed_profile "k" 11 11 stale_store).2 !! "k"%string =
    Some {| count := 1; firstRequest := 11; resetTime := 1011 |} ∧
  allowed (createRateLimiter closed_profile "k" 11 11 stale_store).1 = false.
Proof. split_and!; reflexivity. Qed.

End RateLimitFacts.

(** ** Client identity *)

Module ClientIPFacts.
Import ClientIP.
Local Open Scope string_scope.

Lemma append_cons c (a b : string) : String c a ++ b = String c (a ++ b).
Proof. reflexivity. Qed.

Lemma append_nil (b : string) : "" ++ b = b.
Proof. reflexivity. Qed.

Lemma split_comma_first_spec s : first_of_list s (split_comma_first s).
Proof.
  unfold first_of_list. induction s as [|c s [[IH|[rest IH]] Hno]]; simpl.
  - by split; [left|].
  - destruct (Ascii.eqb c comma) eqn:Hc.
    + apply Ascii.eqb_eq in Hc as ->. split; [right; by exists s | done].
    + simpl. rewrite Hc, Hno. split; [left; by f_equal | done].
  - destruct (Ascii.eqb c comma) eqn:Hc.
    + apply Ascii.eqb_eq in Hc as ->. split; [right; by exists s | done].
    + cbn [has_comma String.append]. rewrite Hc, Hno.
      split; [right; exists rest; rewrite append_cons; by f_equal | done].
Qed.

Lemma trim_start_spec s :
  (∃ a, s = a ++ trim_start s ∧ all_white a = true) ∧
  (∀ c r', trim_start s = String c r' → is_white c = false).
Proof.
  induction s as [|c s [[a [IH Ha]] Hfirst]]; simpl.
  - split; [by exists "" | done].
  - destruct (is_white c) eqn:Hc.
    + split; [|done]. exists (String c a). rewrite append_cons. simpl.
      rewrite Hc, Ha. split; [by f_equal | done].
    + split; [by exists "" |]. by intros ? ? [= <- _].
Qed.

Lemma app_eq_unit r' c a :
  r' ++ String c "" = String a "" → r' = "" ∧ c = a.
Proof.
  destruct r' as [|x r']; [by intros [= ->]|].
  rewrite append_cons. intros [= _ H]. by destruct r'.
Qed.

Lemma trim_end_spec s :
  (∃ b, s = trim_end s ++ b ∧ all_white b = true) ∧
  (∀ r' c, trim_end s = r' ++ String c "" → is_white c = false) ∧
  (∀ c s', s = String c s' → is_white c = false → ∃ r', trim_end s = String c r').
Proof.
  induction s as [|a s [[b [IH Hb]] [Hlast _]]]; cbn [trim_end].
  - split_and!; [by exists "" | by intros [|? ?] | done].
  - destruct (trim_end s) as [|x y] eqn:Hr.
    + rewrite append_nil in IH. subst b. destruct (is_white a) eqn:Ha.
      * split_and!.
        -- exists (String a s). rewrite append_nil. simpl. by rewrite Ha, Hb.
        -- by intros [|? ?].
        -- intros ? ? [= <- _]. congruence.
      * split_and!.
        -- exists s. by rewrite append_cons, append_nil.
        -- intros r' c [-> ->]%eq_sym%app_eq_unit. done.
        -- intros ? ? [= <- _] _. by eexists.
    + split_and!.
      * exists b. rewrite append_cons. split; [by f_equal | done].
      * intros [|z r'] c; [done|]. rewrite append_cons.
        intros [= _ H]. by eapply Hlast.
      * intros ? ? [= <- _] _. by eexists.
Qed.

Lemma trim_spec s : trimmed_of s (trim s).
Proof.
  unfold trimmed_of, trim.
  destruct (trim_start_spec s) as [[a [Hs Ha]] Hfirst].
  destruct (trim_end_spec (trim_start s)) as [[b [He Hb]] [Hlast Hkeep]].
  split_and!.
  - exists a, b. split_and!; [|done|done]. by rewrite <- He.
  - intros c r' Hr. destruct (trim_start s) as [|x y] eqn:Hts; [done|].
    destruct (Hkeep x y eq_refl (Hfirst x y eq_refl)) as [r'' Hx].
    rewrite Hx in Hr. injection Hr as <- _. by eapply Hfirst.
  - done.
Qed.

Lemma truthy_usable (headers : Headers) name :
  truthy (headers_get headers name) = true ↔ usable headers name.
Proof.
  unfold usable, headers_get. destruct (headers !! name) as [[|c v]|]; simpl.
  - split; [done|]. by intros (v & [= <-] & ?).
  - split; [|done]. intros _. by eexists.
  - split; [done|]. by intros (v & ? & ?).
Qed.

Lemma not_truthy_usable (headers : Headers) name :
  ¬ usable headers name → truthy (headers_get headers name) = false.
Proof.
  intros Hno. destruct (truthy _) eqn:Ht; [|done].
  by apply truthy_usable in Ht.
Qed.

(** C4, with "present" read as "present with a non-empty value".  The
    client identity follows the chain [x-forwarded-for], then
    [cf-connecting-ip], then [x-real-ip], then the literal ["unknown"]:
    the first of them that is usable decides.  From [x-forwarded-for] the
    result is the first element of the comma-separated list, trimmed; the
    other two are returned as they are.  Nothing checks that the result
    is an IP address: the statement holds for every header value. *)
Theorem getClientIP_priority (headers : Headers) :
  (∀ forwarded, headers !! "x-forwarded-for" = Some forwarded → forwarded ≠ "" →
     getClientIP headers = trim (split_comma_first forwarded) ∧
     ∃ seg, first_of_list forwarded seg ∧ trimmed_of seg (getClientIP headers)) ∧
  (¬ usable headers "x-forwarded-for" →
     (∀ cloudflare, headers !! "cf-connecting-ip" = Some cloudflare → cloudflare ≠ "" →
        getClientIP headers = cloudflare) ∧
     (¬ usable headers "cf-connecting-ip" →
        (∀ realIP, headers !! "x-real-ip" = Some realIP → realIP ≠ "" →
           getClientIP headers = realIP) ∧
        (¬ usable headers "x-real-ip" → getClientIP headers = "unknown"))).
Proof.
  unfold getClientIP. split.
  - intros forwarded Hf Hne.
    rewrite (proj2 (truthy_usable headers "x-forwarded-for")) by (by exists forwarded).
    unfold headers_get. rewrite Hf. simpl. split; [done|].
    exists (split_comma_first forwarded).
    split; [apply split_comma_first_spec | apply trim_spec].
  - intros Hxff. rewrite (not_truthy_usable _ _ Hxff). split.
    + intros cloudflare Hc Hne.
      rewrite (proj2 (truthy_usable headers "cf-connecting-ip")) by (by exists cloudflare).
      unfold headers_get. by rewrite Hc.
    + intros Hcf. rewrite (not_truthy_usable _ _ Hcf). split.
      * intros realIP Hr Hne.
        rewrite (proj2 (truthy_usable headers "x-real-ip")) by (by exists realIP).
        unfold headers_get. by rewrite Hr.
      * intros Hreal. by rewrite (not_truthy_usable _ _ Hreal).
Qed.

Lemma getClientIP_priority_witness :
  getClientIP proxied = "203.0.113.5" ∧
  getClientIP (delete "x-forwarded-for" proxied) = "10.0.0.9" ∧
  getClientIP ∅ = "unknown".
Proof.
  split_and!.
  - destruct (getClientIP_priority proxied) as [Hxff _].
    destruct (Hxff " 203.0.113.5 , 10.0.0.1") as [-> _]; [reflexivity | done |].
    reflexivity.
  - destruct (getClientIP_priority (delete "x-forwarded-for" proxied)) as [_ Hrest].
    destruct Hrest as [_ Hrest].
    { intros (v & Hv & _). vm_compute in Hv. discriminate. }
    destruct Hrest as [Hreal _].
    { intros (v & Hv & _). vm_compute in Hv. discriminate. }
    apply Hreal; [reflexivity | done].
  - destruct (getClientIP_priority ∅) as [_ Hrest].
    destruct Hrest as [_ Hrest]; [by intros (v & Hv & _)|].
    destruct Hrest as [_ Hrest]; [by intros (v & Hv & _)|].
    apply Hrest. by intros (v & Hv & _).
Defined.

Example getClientIP_does_not_validate :
  getClientIP (<["x-forwarded-for" := "  not an address ,203.0.113.5"]> ∅) =
    "not an address" ∧
  getClientIP (<["cf-connecting-ip" := "<script>"]> ∅) = "<script>".
Proof. split; reflexivity. Qed.

(** An [x-forwarded-for] header that is present with an empty value is
    passed over: the result comes from [x-real-ip], not from the (empty)
    first element of the list. *)
Lemma empty_forwarded_is_skipped :
  empty_forwarded !! "x-forwarded-for" = Some "" ∧
  trim (split_comma_first "") = "" ∧
  getClientIP empty_forwarded = "10.0.0.1".
Proof. split_and!; reflexivity. Qed.

End ClientIPFacts.

(** ** Session tokens *)

Module AuthFacts.
Import Auth.
Local Open Scope string_scope.
Local Open Scope Z_scope.

Section Session.
Context `{Platform}.
Variable JWT_SECRET : string.

Lemma createSession_claims username now now_iat now_exp :
  createSession JWT_SECRET username now now_iat now_exp =
  jws_sign "HS256" JWT_SECRET (session_claims username now now_iat now_exp).
Proof. reflexivity. Qed.

Lemma session_claims_lookup username now now_iat now_exp :
  let payload := session_claims username now now_iat now_exp in
  claim payload "username" = Some (Str username) ∧
  claim payload "expiresAt" = Some (Str (toISOString (now + two_hours))) ∧
  claim payload "iat" = Some (Number (epoch now_iat)) ∧
  claim payload "exp" = Some (Number (epoch now_exp + 7200)) ∧
  claim payload "nbf" = None.
Proof.
  unfold session_claims, setExpirationTime, setIssuedAt, claim. simpl.
  split_and!.
  - rewrite !lookup_insert_ne by done. by rewrite lookup_insert_eq.
  - rewrite !lookup_insert_ne by done. by rewrite lookup_insert_eq.
  - rewrite !lookup_insert_ne by done. by rewrite lookup_insert_eq.
  - by rewrite lookup_insert_eq.
  - by rewrite !lookup_insert_ne, lookup_empty by done.
Qed.

(** What the library's claims validation does with an issued payload. *)
Lemma validateClaims_session username now now_iat now_exp now_lib :
  validateClaims (session_claims username now now_iat now_exp) now_lib =
  if (epoch now_exp + 7200 <=? epoch now_lib)%Z then throw JWTExpired
  else ret (session_claims username now now_iat now_exp).
Proof.
  destruct (session_claims_lookup username now now_iat now_exp)
    as (_ & _ & Hiat & Hexp & Hnbf).
  unfold validateClaims. rewrite Hiat, Hnbf, Hexp. simpl.
  by destruct (epoch now_exp + 7200 <=? epoch now_lib)%Z.
Qed.

(** [verifySession] on a token of [createSession], for all clock readings. *)
Lemma verifySession_createSession username now now_iat now_exp now_lib now' :
  verifySession JWT_SECRET (createSession JWT_SECRET username now now_iat now_exp)
    now_lib now' =
  ret (if ((epoch now_exp + 7200 <=? epoch now_lib) || (now + two_hours <? now'))%Z
       then None
       else Some {| username := Some (Str username); expiresAt := Some (now + two_hours) |}).
Proof.
  destruct (session_claims_lookup username now now_iat now_exp)
    as (Huser & Hexpires & _).
  unfold verifySession, jwtVerify. rewrite createSession_claims, jws_open_sign.
  simpl. rewrite validateClaims_session.
  destruct (epoch now_exp + 7200 <=? epoch now_lib)%Z; [done|]. simpl.
  rewrite Hexpires, Huser. simpl. rewrite Date_parse_toISOString. simpl.
  by destruct (now + two_hours <? now')%Z.
Qed.

End Session.

Lemma epoch_bounds t : (1000 * epoch t ≤ t < 1000 * epoch t + 1000)%Z.
Proof.
  unfold epoch. pose proof (Z.div_mod t 1000 ltac:(lia)).
  pose proof (Z.mod_pos_bound t 1000 ltac:(lia)). lia.
Qed.

(** C5. A token verified at the clock reading at which it was issued gives
    a session (not [null]) whose [username] is the identity it was issued
    for, for every identity, the empty string included. *)
Theorem session_round_trip `{Platform} (JWT_SECRET identity : string) (T0 : Z) :
  verify JWT_SECRET (issue JWT_SECRET identity T0) T0 =
  inr (Some {| username := Some (Str identity); expiresAt := Some (T0 + two_hours) |}).
Proof.
  unfold verify, issue. rewrite verifySession_createSession.
  replace (epoch T0 + 7200 <=? epoch T0)%Z with false by (symmetry; apply Z.leb_gt; lia).
  replace (T0 + two_hours <? T0)%Z with false
    by (symmetry; apply Z.ltb_ge; unfold two_hours; lia).
  done.
Qed.

Lemma session_round_trip_witness :
  verify (H := ref_platform) "secret"
    (issue (H := ref_platform) "secret" "admin@russoluxtours.de" 1767225600000)
    1767225600000 =
  inr (Some {| username := Some (Str "admin@russoluxtours.de");
               expiresAt := Some (1767225600000 + two_hours) |}).
Proof. apply (session_round_trip (H := ref_platform)). Defined.

(** ** Expiry *)

(** C6, with the library's whole seconds taken into account.  For a token
    issued at clock [T0]: the embedded [expiresAt] is [T0] plus two hours;
    the token is refused at every clock from [T0 + 2h] on; it is accepted
    at every clock at least one second before [T0 + 2h], and more
    precisely exactly at the clocks before the whole second
    [floor(T0 / 1000) + 7200], which can lie up to 999 ms before
    [T0 + 2h].  So it is accepted at [T0 + 1h59m] and refused at
    [T0 + 2h0m1s]. *)
Theorem session_expiry `{Platform} (JWT_SECRET identity : string) (T0 T : Z) :
  let token := issue JWT_SECRET identity T0 in
  let session := {| username := Some (Str identity); expiresAt := Some (T0 + two_hours) |} in
  (∃ payload, jws_open JWT_SECRET token = inr payload ∧
     new_Date (claim payload "expiresAt") = Some (T0 + two_hours)) ∧
  (T0 + two_hours ≤ T → verify JWT_SECRET token T = inr None) ∧
  (T ≤ T0 + two_hours - 1000 → verify JWT_SECRET token T = inr (Some session)) ∧
  (verify JWT_SECRET token T = inr (Some session) ↔ T < 1000 * (epoch T0 + 7200)) ∧
  (verify JWT_SECRET token T = inr None ↔ 1000 * (epoch T0 + 7200) ≤ T) ∧
  verify JWT_SECRET token (T0 + (60 + 59) * 60 * 1000) = inr (Some session) ∧
  verify JWT_SECRET token (T0 + two_hours + 1000) = inr None.
Proof.
  intros token session.
  assert (Hchar : ∀ T', verify JWT_SECRET token T' =
            inr (if decide (1000 * (epoch T0 + 7200) ≤ T') then None else Some session)).
  { intros T'. unfold verify, token, issue. rewrite verifySession_createSession.
    unfold ret. f_equal. pose proof (epoch_bounds T0). pose proof (epoch_bounds T').
    case_decide as Hd.
    - replace (epoch T0 + 7200 <=? epoch T') with true; [done|].
      symmetry. apply Z.leb_le. lia.
    - replace (epoch T0 + 7200 <=? epoch T') with false
        by (symmetry; apply Z.leb_gt; lia).
      replace (T0 + two_hours <? T') with false
        by (symmetry; apply Z.ltb_ge; unfold two_hours; lia).
      done. }
  pose proof (epoch_bounds T0) as Hb. unfold two_hours in *.
  split_and!.
  - exists (session_claims identity T0 T0 T0). unfold token, issue.
    rewrite createSession_claims, jws_open_sign. split; [done|].
    destruct (session_claims_lookup identity T0 T0 T0) as (_ & -> & _).
    simpl. by rewrite Date_parse_toISOString.
  - intros Hle. rewrite Hchar, decide_True by lia. done.
  - intros Hle. rewrite Hchar, decide_False by lia. done.
  - rewrite Hchar. case_decide; split; (done || lia).
  - rewrite Hchar. case_decide; split; (done || lia).
  - rewrite Hchar, decide_False by lia. done.
  - rewrite Hchar, decide_True by lia. done.
Qed.

Lemma session_expiry_witness :
  verify (H := ref_platform) "secret" (issue "secret" "admin" 500) (500 + two_hours) =
    inr None ∧
  verify (H := ref_platform) "secret" (issue "secret" "admin" 500) (500 + two_hours - 1000) =
    inr (Some {| username := Some (Str "admin"); expiresAt := Some (500 + two_hours) |}).
Proof.
  split.
  - destruct (session_expiry (H := ref_platform) "secret" "admin" 500 (500 + two_hours))
      as (_ & Hlate & _).
    apply Hlate. lia.
  - destruct (session_expiry (H := ref_platform) "secret" "admin" 500
                (500 + two_hours - 1000)) as (_ & _ & Hearly & _).
    apply Hearly. lia.
Defined.

Example session_expiry_scenario :
  verify (H := ref_platform) "secret" (issue "secret" "admin" 0) (119 * 60 * 1000) =
    inr (Some {| username := Some (Str "admin"); expiresAt := Some 7200000 |}) ∧
  verify (H := ref_platform) "secret" (issue "secret" "admin" 0) (7200000 + 1000) =
    inr None ∧
  verify (H := ref_platform) "wrong key" (issue "secret" "admin" 0) 1000 = inr None.
Proof. split_and!; vm_compute; reflexivity. Qed.

(** A token issued at clock 500 (ms) is already refused at clock 7200100,
    which is 400 ms before its two hours are over: its [exp] claim is the
    whole second 7200. *)
Lemma refused_before_two_hours :
  7200100 < 500 + two_hours ∧
  ∀ (P : Platform) (JWT_SECRET identity : string),
    jwtVerify (issue JWT_SECRET identity 500) JWT_SECRET 7200100 = inl JWTExpired ∧
    verify JWT_SECRET (issue JWT_SECRET identity 500) 7200100 = inr None.
Proof.
  split; [unfold two_hours; lia|]. intros P JWT_SECRET identity. split.
  - unfold issue, jwtVerify. rewrite createSession_claims, jws_open_sign. simpl.
    by rewrite validateClaims_session.
  - unfold verify, issue. by rewrite verifySession_createSession.
Qed.

(** ** Failures *)

(** C7. [verifySession] never throws, and every way of failing gives the
    same result [null]: a token that the library refuses, whatever the
    error (malformed, signature not verified, [exp] passed, a claim of the
    wrong type), and a token whose embedded [expiresAt] has passed.  These
    are the only ways to get [null]. *)
Theorem verifySession_failures_merge `{Platform} (JWT_SECRET : string)
    (token : Token) (now_lib now : Z) :
  (∃ result, verifySession JWT_SECRET token now_lib now = inr result) ∧
  (∀ error, jws_open JWT_SECRET token = inl error →
     verifySession JWT_SECRET token now_lib now = inr None) ∧
  (∀ error, jwtVerify token JWT_SECRET now_lib = inl error →
     verifySession JWT_SECRET token now_lib now = inr None) ∧
  (∀ payload exp, jws_open JWT_SECRET token = inr payload →
     claim payload "exp" = Some (Number exp) → exp ≤ epoch now_lib →
     verifySession JWT_SECRET token now_lib now = inr None) ∧
  (∀ payload expires, jwtVerify token JWT_SECRET now_lib = inr payload →
     new_Date (claim payload "expiresAt") = Some expires → expires < now →
     verifySession JWT_SECRET token now_lib now = inr None) ∧
  (verifySession JWT_SECRET token now_lib now = inr None ↔
     (∃ error, jwtVerify token JWT_SECRET now_lib = inl error) ∨
     (∃ payload expires, jwtVerify token JWT_SECRET now_lib = inr payload ∧
        new_Date (claim payload "expiresAt") = Some expires ∧ expires < now)).
Proof.
  assert (Hlib : ∀ error, jwtVerify token JWT_SECRET now_lib = inl error →
            verifySession JWT_SECRET token now_lib now = inr None).
  { intros error Hv. unfold verifySession. by rewrite Hv. }
  assert (Hexp : ∀ payload expires, jwtVerify token JWT_SECRET now_lib = inr payload →
            new_Date (claim payload "expiresAt") = Some expires → expires < now →
            verifySession JWT_SECRET token now_lib now = inr None).
  { intros payload expires Hv Hd Hlt. unfold verifySession. rewrite Hv. simpl.
    rewrite Hd. simpl. by apply Z.ltb_lt in Hlt as ->. }
  split_and!.
  - unfold verifySession. destruct (jwtVerify token JWT_SECRET now_lib) as [e|payload];
      simpl; [by eexists|].
    destruct (date_lt _ _); by eexists.
  - intros error Hopen. apply (Hlib error). unfold jwtVerify. by rewrite Hopen.
  - done.
  - intros payload exp Hopen Hclaim Hle.
    assert (∃ error, jwtVerify token JWT_SECRET now_lib = inl error) as [error Hv];
      [|by apply (Hlib error)].
    unfold jwtVerify. rewrite Hopen. simpl. unfold validateClaims.
    destruct (claim payload "iat") as [[]|]; simpl; try by eexists.
    all: destruct (claim payload "nbf") as [[| |nbf|]|]; simpl; try by eexists.
    all: try (destruct (epoch now_lib <? nbf)%Z; simpl; try by eexists).
    all: rewrite Hclaim; simpl; apply Z.leb_le in Hle as ->; by eexists.
  - done.
  - split; [|intros [[error Hv]|(payload & expires & Hv & Hd & Hlt)]; eauto].
    unfold verifySession. destruct (jwtVerify token JWT_SECRET now_lib) as [e|payload];
      simpl; [intros _; left; by eexists|].
    destruct (new_Date (claim payload "expiresAt")) as [expires|] eqn:Hd;
      simpl; [|done].
    destruct (expires <? now)%Z eqn:Hlt; [|done].
    intros _. right. exists payload, expires. apply Z.ltb_lt in Hlt. done.
Qed.

(** On the reference platform: a malformed token, a token signed with
    another key, and a token whose [exp] has passed all give [null]. *)
Lemma verifySession_failures_merge_witness :
  verifySession (H := ref_platform) "secret" None 0 0 = inr None ∧
  verifySession (H := ref_platform) "secret" (issue "other key" "admin" 0) 0 0 = inr None ∧
  verifySession (H := ref_platform) "secret" (issue "secret" "admin" 0)
    (3 * 60 * 60 * 1000) 0 = inr None.
Proof.
  split_and!.
  - destruct (verifySession_failures_merge (H := ref_platform) "secret" None 0 0)
      as (_ & Hopen & _).
    apply (Hopen JWSInvalid). reflexivity.
  - destruct (verifySession_failures_merge (H := ref_platform) "secret"
                (issue "other key" "admin" 0) 0 0) as (_ & Hopen & _).
    apply (Hopen JWSSignatureVerificationFailed). reflexivity.
  - destruct (verifySession_failures_merge (H := ref_platform) "secret"
                (issue "secret" "admin" 0) (3 * 60 * 60 * 1000) 0)
      as (_ & _ & Hlib & _).
    apply (Hlib JWTExpired). vm_compute. reflexivity.
Defined.

(** ** A payload without a usable [expiresAt] *)

(** C10. For a token whose signature verifies and whose payload has no
    [expiresAt], or one that is not a parsable date string, [new Date]
    gives an Invalid Date, the comparison with the current time is false
    at every clock, and the explicit check refuses nothing: the result is
    [null] only when the library's own validation throws, and otherwise a
    session whose [expiresAt] is the Invalid Date.  With well-formed [iat]
    and no [nbf], the token is refused exactly when its [exp] has passed,
    and a token that has no [exp] either is accepted at every clock. *)
Theorem unparsable_expiresAt_is_not_checked `{Platform} (JWT_SECRET : string)
    (token : Token) (now_lib now : Z) (payload : Payload) :
  jws_open JWT_SECRET token = inr payload →
  (claim payload "expiresAt" = None ∨
   ∃ s, claim payload "expiresAt" = Some (Str s) ∧ Date_parse s = None) →
  let session := {| username := claim payload "username"; expiresAt := None |} in
  new_Date (claim payload "expiresAt") = None ∧
  date_lt (new_Date (claim payload "expiresAt")) (Some now) = false ∧
  verifySession JWT_SECRET token now_lib now =
    match validateClaims payload now_lib with
    | inl _ => inr None
    | inr _ => inr (Some session)
    end ∧
  (verifySession JWT_SECRET token now_lib now = inr None ↔
     ∃ error, validateClaims payload now_lib = inl error) ∧
  ((claim payload "iat" = None ∨ ∃ iat, claim payload "iat" = Some (Number iat)) →
   claim payload "nbf" = None →
   (∀ exp, claim payload "exp" = Some (Number exp) →
      (verifySession JWT_SECRET token now_lib now = inr None ↔ exp ≤ epoch now_lib) ∧
      (verifySession JWT_SECRET token now_lib now = inr (Some session) ↔
         epoch now_lib < exp)) ∧
   (claim payload "exp" = None →
      verifySession JWT_SECRET token now_lib now = inr (Some session))).
Proof.
  intros Hopen Hclaim session.
  assert (new_Date (claim payload "expiresAt") = None) as Hdate.
  { destruct Hclaim as [->|(s & -> & Hs)]; [done | exact Hs]. }
  assert (verifySession JWT_SECRET token now_lib now =
            match validateClaims payload now_lib with
            | inl _ => inr None
            | inr _ => inr (Some session)
            end) as Hv.
  { unfold verifySession, jwtVerify. rewrite Hopen. simpl.
    destruct (validateClaims payload now_lib) as [e|payload'] eqn:Hval; [done|].
    assert (payload' = payload) as ->.
    { revert Hval. unfold validateClaims.
      destruct (claim payload "iat") as [[]|]; simpl; try done.
      all: destruct (claim payload "nbf") as [[| |nbf|]|]; simpl; try done.
      all: try (destruct (epoch now_lib <? nbf); simpl; try done).
      all: destruct (claim payload "exp") as [[| |exp|]|]; simpl; try done.
      all: try (destruct (exp <=? epoch now_lib); simpl; try done).
      all: by intros [= ->]. }
    simpl. by rewrite Hdate. }
  split_and!.
  - done.
  - by rewrite Hdate.
  - done.
  - rewrite Hv. destruct (validateClaims payload now_lib); split; try done.
    + intros _. by eexists.
    + by intros [? ?].
  - intros Hiat Hnbf. rewrite Hv. unfold validateClaims. rewrite Hnbf.
    assert (∀ k : () → Result Payload,
              bind (match claim payload "iat" with
                    | None | Some (Number _) => ret ()
                    | _ => throw (JWTClaimValidationFailed "iat")
                    end) k = k ()) as ->.
    { intros k. by destruct Hiat as [->|[iat ->]]. }
    simpl. split.
    + intros exp ->. simpl. destruct (exp <=? epoch now_lib) eqn:Hle; simpl.
      * apply Z.leb_le in Hle. split; split; (done || lia).
      * apply Z.leb_gt in Hle. split; split; (done || lia).
    + by intros ->.
Qed.

(** On the reference platform, tokens signed with the right key that carry
    no [exp] and either [expiresAt = "soon"] or no [expiresAt] at all are
    accepted at any clock, here in the year 2100. *)
Lemma unparsable_expiresAt_is_not_checked_witness :
  (jws_open (Platform := ref_platform) "secret" token_with_bad_expiresAt =
     inr (<["username" := Str "admin"]> (<["expiresAt" := Str "soon"]> ∅)) ∧
   ∃ s, claim (<["username" := Str "admin"]> (<["expiresAt" := Str "soon"]> ∅))
          "expiresAt" = Some (Str s) ∧
        Date_parse (Platform := ref_platform) s = None) ∧
  verifySession (H := ref_platform) "secret" token_with_bad_expiresAt
    4102444800000 4102444800000 =
  inr (Some {| username := Some (Str "admin"); expiresAt := None |}) ∧
  verifySession (H := ref_platform) "secret" token_without_expiresAt
    4102444800000 4102444800000 =
  inr (Some {| username := Some (Str "admin"); expiresAt := None |}).
Proof.
  assert (jws_open (Platform := ref_platform) "secret" token_with_bad_expiresAt =
            inr (<["username" := Str "admin"]> (<["expiresAt" := Str "soon"]> ∅)))
    as Hopen by reflexivity.
  assert (∃ s, claim (<["username" := Str "admin"]> (<["expiresAt" := Str "soon"]> ∅))
                 "expiresAt" = Some (Str s) ∧
               Date_parse (Platform := ref_platform) s = None) as Hbad
    by (exists "soon"; split; reflexivity).
  split; [done|]. split.
  - destruct (unparsable_expiresAt_is_not_checked (H := ref_platform) "secret"
                token_with_bad_expiresAt 4102444800000 4102444800000 _
                Hopen (or_intror Hbad)) as (_ & _ & Hv & _).
    rewrite Hv. reflexivity.
  - destruct (unparsable_expiresAt_is_not_checked (H := ref_platform) "secret"
                token_without_expiresAt 4102444800000 4102444800000
                (<["username" := Str "admin"]> ∅)
                eq_refl (or_introl eq_refl)) as (_ & _ & Hv & _).
    rewrite Hv. reflexivity.
Defined.

(** ** Credentials *)

(** [verifyCredentials] never throws, never reads the configuration, and
    accepts exactly the address and the hash written in the code. *)
Lemma verifyCredentials_hardcoded `{Platform} (env : Env) (email password : string) :
  verifyCredentials env email password =
  if String.eqb email TARGET_EMAIL
  then (0, inr match bcrypt_compare password TARGET_HASH with
              | inr isPasswordValid => isPasswordValid
              | inl _ => false
              end)
  else (100, inr false).
Proof.
  unfold verifyCredentials. destruct (String.eqb email TARGET_EMAIL); [|done].
  simpl. by destruct (bcrypt_compare password TARGET_HASH).
Qed.

(** The time slept on the two ways of failing a login: 100 ms inside
    [verifyCredentials] on an unknown address only, and 1000 ms in the
    route on every failure.  The running time of [bcrypt.compare], which
    only the second way pays, is not part of the model. *)
Lemma login_failure_sleeps `{Platform} (env : Env) (email password : string) :
  (email ≠ TARGET_EMAIL →
     verifyCredentials env email password = (100, inr false) ∧
     login_credentials env email password = (1100, 401)) ∧
  (bcrypt_compare password TARGET_HASH = inr false →
     verifyCredentials env TARGET_EMAIL password = (0, inr false) ∧
     login_credentials env TARGET_EMAIL password = (1000, 401)).
Proof.
  unfold login_credentials. rewrite !verifyCredentials_hardcoded. split.
  - intros Hne%String.eqb_neq. by rewrite Hne.
  - intros Hcmp. simpl. by rewrite Hcmp.
Qed.

(** C9, at a configuration whose administrator is [owner@example.com]
    with the hash of ["s3cret"]: on every platform the configured
    administrator is refused whatever the password, and the pair written
    in the code is accepted as soon as the password matches [TARGET_HASH];
    on the reference platform the configured pair does match its hash. *)
Theorem verifyCredentials_ignores_configuration :
  (∀ (P : Platform) (password : string),
     verifyCredentials other_admin_env "owner@example.com" password = (100, inr false)) ∧
  (∀ (P : Platform) (env : Env) (password : string),
     bcrypt_compare password TARGET_HASH = inr true →
     verifyCredentials env TARGET_EMAIL password = (0, inr true)) ∧
  (∀ (P : Platform) (env env' : Env) (email password : string),
     verifyCredentials env email password = verifyCredentials env' email password) ∧
  configured_check (H := ref_platform) other_admin_env "owner@example.com" "s3cret" = true.
Proof.
  split_and!.
  - intros P password. by rewrite verifyCredentials_hardcoded.
  - intros P env password Hok. rewrite verifyCredentials_hardcoded. simpl. by rewrite Hok.
  - intros P env env' email password. by rewrite !verifyCredentials_hardcoded.
  - reflexivity.
Qed.

End AuthFacts.

(** * Further properties *)

(** ** The rate limiter in use *)

Module RateLimitMore.
Import RateLimit RateLimitTraces RateLimitFacts.

(** The results under a key, from the call that opens its window. *)
Lemma run_from_fresh config identifier now now' evs s :
  let key := key_of config identifier in
  live key now s = None →
  Forall (in_window config key (now + windowMs config)) evs →
  ∀ (i : nat) r,
    (run key (Call config identifier now now' :: evs) s).1 !! i = Some r →
    allowed r = (Z.of_nat i + 1 <=? maxRequests config) ∧
    remaining r = Z.max 0 (maxRequests config - (Z.of_nat i + 1)) ∧
    resultResetTime r = now + windowMs config.
Proof.
  intros key Hnone Hall i r. cbn [run step].
  rewrite createRateLimiter_next. fold key. unfold next_entry. rewrite Hnone.
  set (s1 := with_store _ s).
  destruct (run key evs s1) as [rs s2] eqn:Hrun.
  rewrite decide_True by done. simpl. destruct i as [|i]; simpl.
  - intros. by simplify_eq.
  - pose proof (run_in_window config key (now + windowMs config) evs s1
                  (fresh_entry now (windowMs config))) as Hw.
    rewrite Hrun in Hw. simpl in Hw.
    intros Hi. eapply Hw in Hi; [|apply lookup_insert_eq|done|done].
    simpl in Hi. replace (Z.of_nat (S i) + 1) with (1 + Z.of_nat i + 1) by lia.
    done.
Qed.

(** X1. Within one window the remaining quota reported under a key goes
    down by exactly one from each call to the next, and stays at 0 once it
    has reached 0; a call that is allowed always follows an allowed call
    and reports one less than it. *)
Theorem remaining_steps_down config identifier now now' evs s (i : nat) r r' :
  let key := key_of config identifier in
  (store s !! key = None ∨ (∃ old, store s !! key = Some old ∧ resetTime old < now)) →
  Forall (in_window config key (now + windowMs config)) evs →
  (run key (Call config identifier now now' :: evs) s).1 !! i = Some r →
  (run key (Call config identifier now now' :: evs) s).1 !! S i = Some r' →
  remaining r' = Z.max 0 (remaining r - 1) ∧
  (allowed r' = true → allowed r = true ∧ remaining r' = remaining r - 1) ∧
  (allowed r = false → allowed r' = false ∧ remaining r' = 0).
Proof.
  intros key Hnone%live_None Hall Hi Hi'.
  destruct (run_from_fresh config identifier now now' evs s Hnone Hall i r Hi)
    as (Ha & Hr & _).
  destruct (run_from_fresh config identifier now now' evs s Hnone Hall (S i) r' Hi')
    as (Ha' & Hr' & _).
  rewrite Ha, Ha', Hr, Hr'. split_and!.
  - lia.
  - intros Hle%Z.leb_le. split; [apply Z.leb_le|]; lia.
  - intros Hgt%Z.leb_gt. split; [apply Z.leb_gt|]; lia.
Qed.

Lemma remaining_steps_down_witness :
  ∃ r r',
    (run "login:1.2.3.4"
       (Call (RateLimitConfigs login) "login:1.2.3.4" 0 0 :: five_more_logins)
       constructor).1 !! 3%nat = Some r ∧
    (run "login:1.2.3.4"
       (Call (RateLimitConfigs login) "login:1.2.3.4" 0 0 :: five_more_logins)
       constructor).1 !! 4%nat = Some r' ∧
    remaining r = 1 ∧ remaining r' = 0 ∧ remaining r' = Z.max 0 (remaining r - 1).
Proof.
  assert (Forall (in_window (RateLimitConfigs login) "login:1.2.3.4"
                    (0 + windowMs (RateLimitConfigs login))) five_more_logins) as Hall.
  { unfold five_more_logins. simpl.
    repeat (apply Forall_cons_2; [right; split; [reflexivity | lia] |]).
    apply Forall_nil_2. }
  exists {| allowed := true; remaining := 1; resultResetTime := 900000; retryAfter := 870 |},
         {| allowed := true; remaining := 0; resultResetTime := 900000; retryAfter := 860 |}.
  split; [vm_compute; reflexivity|]. split; [vm_compute; reflexivity|].
  split; [reflexivity|]. split; [reflexivity|].
  refine (proj1 (remaining_steps_down (RateLimitConfigs login) "login:1.2.3.4" 0 0
                   five_more_logins constructor 3%nat _ _ (or_introl eq_refl) Hall _ _)).
  - vm_compute. reflexivity.
  - vm_compute. reflexivity.
Defined.


(** The advertised delay reaches the end of the window. *)
Lemma retryAfter_reaches_reset config identifier now now' s :
  resultResetTime (createRateLimiter config identifier now now' s).1 ≤
  now' + 1000 * retryAfter (createRateLimiter config identifier now now' s).1.
Proof.
  rewrite createRateLimiter_next. simpl.
  set (R := resetTime _).
  pose proof (proj1 (ceil_div1000_spec (R - now') _) eq_refl). lia.
Qed.

(** X2. Waiting longer than the advertised [retryAfter] seconds is always
    enough: the next call under the key opens a new window with
    [count = 1].  Waiting exactly that long is not: when the window ends a
    whole number of seconds after the clock read for [retryAfter], the
    call made at that very millisecond is still counted in the old
    window. *)
Theorem retry_after_is_enough_only_strictly config identifier now now' s :
  let key := key_of config identifier in
  let r := (createRateLimiter config identifier now now' s).1 in
  let s1 := (createRateLimiter config identifier now now' s).2 in
  0 ≤ retryAfter r ∧
  (∀ t t', now' + 1000 * retryAfter r < t →
     store (createRateLimiter config identifier t t' s1).2 !! key =
       Some {| count := 1; firstRequest := t; resetTime := t + windowMs config |} ∧
     allowed (createRateLimiter config identifier t t' s1).1 = (1 <=? maxRequests config)) ∧
  (∀ t', 0 ≤ resultResetTime r - now' → (resultResetTime r - now') mod 1000 = 0 →
     ∃ entry,
       store s1 !! key = Some entry ∧
       store (createRateLimiter config identifier
                (now' + 1000 * retryAfter r) t' s1).2 !! key =
         Some {| count := count entry + 1; firstRequest := firstRequest entry;
                 resetTime := resetTime entry |} ∧
       allowed (createRateLimiter config identifier
                  (now' + 1000 * retryAfter r) t' s1).1 =
         (count entry + 1 <=? maxRequests config)).
Proof.
  intros key r s1.
  pose proof (retryAfter_reaches_reset config identifier now now' s) as Hreach.
  fold r in Hreach. subst r s1.
  rewrite createRateLimiter_next in *. fold key in Hreach |- *. simpl in *.
  set (entry := next_entry key (windowMs config) now s) in *.
  set (s1 := with_store (<[key:=entry]> (store s)) s).
  assert (store s1 !! key = Some entry) as Hs1 by apply lookup_insert_eq.
  split_and!.
  - lia.
  - intros t t' Hlt. rewrite createRateLimiter_next. fold key. simpl.
    assert (live key t s1 = None) as Hnone.
    { apply live_None. right. exists entry. split; [done | lia]. }
    unfold next_entry. rewrite Hnone. split; [apply lookup_insert_eq | done].
  - intros t' Hpos Hmod. exists entry. split; [done|].
    assert (ceil_div1000 (resetTime entry - now') = (resetTime entry - now') / 1000) as Hq.
    { apply ceil_div1000_spec.
      pose proof (Z.div_mod (resetTime entry - now') 1000 ltac:(lia)). lia. }
    assert (now' + 1000 * (0 `max` ceil_div1000 (resetTime entry - now')) =
            resetTime entry) as ->.
    { rewrite Hq. pose proof (Z.div_mod (resetTime entry - now') 1000 ltac:(lia)).
      assert (0 ≤ (resetTime entry - now') / 1000) by (apply Z.div_pos; lia). lia. }
    rewrite createRateLimiter_next. fold key. simpl.
    assert (live key (resetTime entry) s1 = Some entry) as Hlive.
    { apply live_Some. split; [done | lia]. }
    unfold next_entry. rewrite Hlive. split; [apply lookup_insert_eq | done].
Qed.

(** A refused sixth login at 10.000 s: who comes back at 900.000 s, after
    exactly the 890 advertised seconds, is refused again; one millisecond
    later a new window starts. *)
Lemma retry_after_is_enough_only_strictly_witness :
  let s5 := (run "login:1.2.3.4"
               (Call (RateLimitConfigs login) "login:1.2.3.4" 0 0 ::
                replicate 4 (Call (RateLimitConfigs login) "login:1.2.3.4" 5000 5000))
               constructor).2 in
  let r := (createRateLimiter (RateLimitConfigs login) "login:1.2.3.4" 10000 10000 s5).1 in
  let s6 := (createRateLimiter (RateLimitConfigs login) "login:1.2.3.4" 10000 10000 s5).2 in
  allowed r = false ∧ retryAfter r = 890 ∧
  allowed (createRateLimiter (RateLimitConfigs login) "login:1.2.3.4" 900000 900000 s6).1
    = false ∧
  allowed (createRateLimiter (RateLimitConfigs login) "login:1.2.3.4" 900001 900001 s6).1
    = true.
Proof.
  intros s5 r s6.
  destruct (retry_after_is_enough_only_strictly (RateLimitConfigs login)
              "login:1.2.3.4" 10000 10000 s5) as (_ & Hlater & Hexact).
  fold r s6 in Hlater, Hexact.
  assert (retryAfter r = 890) as Hr by (vm_compute; reflexivity).
  split_and!.
  - vm_compute. reflexivity.
  - exact Hr.
  - destruct (Hexact 900000) as (entry & Hentry & _ & Hallowed).
    + vm_compute. discriminate.
    + vm_compute. reflexivity.
    + rewrite Hr in Hallowed. change (10000 + 1000 * 890) with 900000 in Hallowed.
      rewrite Hallowed.
      assert (entry = {| count := 6; firstRequest := 0; resetTime := 900000 |}) as ->.
      { assert (store s6 !! key_of (RateLimitConfigs login) "login:1.2.3.4" =
                  Some {| count := 6; firstRequest := 0; resetTime := 900000 |}) as H6
          by (vm_compute; reflexivity).
        rewrite Hentry in H6. by injection H6. }
      reflexivity.
  - destruct (Hlater 900001 900001) as [_ Hallowed].
    + rewrite Hr. lia.
    + rewrite Hallowed. reflexivity.
Defined.


(** ** What every reachable store looks like *)

Lemma exec_app evs evs' s : exec (evs ++ evs') s = exec evs' (exec evs s).
Proof. unfold exec. apply foldl_app. Qed.

Lemma run_exec key evs s : (run key evs s).2 = exec evs s.
Proof.
  revert s. induction evs as [|ev evs IH]; intros s; [done|].
  cbn [run]. destruct (step ev s) as [o s'] eqn:Hstep.
  specialize (IH s'). destruct (run key evs s') as [rs s''].
  simpl in *. unfold exec in *. simpl. by rewrite Hstep.
Qed.

(** X3. In every store reached from the empty one by calls of any limiters
    and cleanup passes, each entry has [count >= 1], at most as many
    requests as the trace has calls under its key, and carries the clock
    and the window of one of those calls: [resetTime] is the [firstRequest]
    of that call plus the [windowMs] of its limiter. *)
Theorem reachable_entries_are_well_formed (evs : list Event) key entry :
  store (exec evs constructor) !! key = Some entry →
  1 ≤ count entry ≤ Z.of_nat (calls_under key evs) ∧ opened_by evs key entry.
Proof.
  revert key entry. induction evs as [|ev evs IH] using rev_ind; intros key entry.
  { unfold exec, constructor. simpl. by rewrite lookup_empty. }
  rewrite exec_app. set (s := exec evs constructor) in *.
  assert (∀ e, 1 ≤ count e ≤ Z.of_nat (calls_under key evs) ∧ opened_by evs key e →
               1 ≤ count e ≤ Z.of_nat (calls_under key (evs ++ [ev])) ∧
               opened_by (evs ++ [ev]) key e) as Hmono.
  { intros e [[? ?] (c & i & n & n' & Hin & ?)]. split.
    - unfold calls_under in *. rewrite List.filter_app, length_app. lia.
    - exists c, i, n, n'. split; [apply in_or_app; by left | done]. }
  destruct ev as [c identifier now now'|now]; unfold exec; simpl.
  - rewrite createRateLimiter_next. simpl.
    destruct (decide (key_of c identifier = key)) as [Heq|Hne].
    + rewrite Heq, lookup_insert_eq. intros [= <-].
      assert (calls_under key (evs ++ [Call c identifier now now']) =
              S (calls_under key evs)) as Hcalls.
      { unfold calls_under. rewrite List.filter_app, length_app. simpl.
        rewrite bool_decide_eq_true_2 by done. simpl. lia. }
      unfold next_entry. destruct (live key now s) as [old|] eqn:Hlive.
      * apply live_Some in Hlive as [Hold _]. apply IH in Hold.
        destruct (Hmono old Hold) as [_ Hopened].
        destruct Hold as [[? ?] _]. split; [simpl; lia | exact Hopened].
      * split; [simpl; lia|].
        exists c, identifier, now, now'.
        split; [apply in_or_app; right; by left | done].
    + rewrite lookup_insert_ne by done. intros Hk. by apply Hmono, IH.
  - change (foldl _ (store s) _) with (store (cleanup now s)). rewrite lookup_cleanup.
    destruct (store s !! key) as [e|] eqn:Hk; [|done].
    destruct (expired now e); [done|]. intros [= <-]. by apply Hmono, IH.
Qed.

Lemma reachable_entries_are_well_formed_witness :
  store (exec mixed_trace constructor) !! "login:203.0.113.5"%string =
    Some {| count := 2; firstRequest := 1000; resetTime := 901000 |} ∧
  1 ≤ 2 ≤ Z.of_nat (calls_under "login:203.0.113.5" mixed_trace) ∧
  opened_by mixed_trace "login:203.0.113.5"
    {| count := 2; firstRequest := 1000; resetTime := 901000 |}.
Proof.
  assert (store (exec mixed_trace constructor) !! "login:203.0.113.5"%string =
            Some {| count := 2; firstRequest := 1000; resetTime := 901000 |}) as Hk
    by (vm_compute; reflexivity).
  split; [exact Hk|].
  exact (reachable_entries_are_well_formed mixed_trace _ _ Hk).
Defined.

(** ** Keys are separate buckets, limiters are not *)

Lemma step_agree key ev s1 s2 :
  store s1 !! key = store s2 !! key →
  store (step ev s1).2 !! key = store (step ev s2).2 !! key ∧
  (is_call_under key ev = true → (step ev s1).1 = (step ev s2).1).
Proof.
  intros Hagree. destruct ev as [c identifier now now'|now]; cbn [step fst snd].
  - rewrite !createRateLimiter_next. simpl.
    destruct (decide (key_of c identifier = key)) as [Heq|Hne].
    + assert (next_entry (key_of c identifier) (windowMs c) now s1 =
              next_entry (key_of c identifier) (windowMs c) now s2) as Hnext.
      { unfold next_entry, live. by rewrite Heq, Hagree. }
      rewrite Hnext, Heq, !lookup_insert_eq. done.
    + rewrite !lookup_insert_ne by done. split; [done|].
      intros Hb. by apply bool_decide_eq_true in Hb.
  - rewrite !lookup_cleanup, Hagree. done.
Qed.

Lemma run_agree key evs :
  ∀ s1 s2, store s1 !! key = store s2 !! key →
    (run key evs s1).1 = (run key evs s2).1 ∧
    store (run key evs s1).2 !! key = store (run key evs s2).2 !! key.
Proof.
  induction evs as [|ev evs IH]; intros s1 s2 Hagree; [done|].
  cbn [run]. destruct (step_agree key ev s1 s2 Hagree) as [Hnext Hres].
  destruct (step ev s1) as [o1 t1] eqn:H1. destruct (step ev s2) as [o2 t2] eqn:H2.
  simpl in Hnext, Hres. destruct (IH t1 t2 Hnext) as [Hrs Hfinal].
  destruct (run key evs t1) as [rs1 u1]. destruct (run key evs t2) as [rs2 u2].
  simpl in *. subst rs2. split; [|done].
  destruct ev as [c identifier now now'|now]; [|by destruct o1, o2].
  destruct (decide (key_of c identifier = key)) as [Heq|Hne].
  - rewrite Hres by (by apply bool_decide_eq_true). done.
  - by destruct o1, o2.
Qed.

(** X4. What a key is answered depends only on the calls under that key
    and on the cleanup passes: removing from a trace every call under
    other keys changes none of the results under the key, nor its entry
    in the final store. *)
Theorem other_keys_do_not_interfere key evs s :
  (run key (without_other_keys key evs) s).1 = (run key evs s).1 ∧
  store (exec (without_other_keys key evs) s) !! key = store (exec evs s) !! key.
Proof.
  rewrite <- !(run_exec key).
  assert (∀ s1 s2, store s1 !! key = store s2 !! key →
            (run key (without_other_keys key evs) s1).1 = (run key evs s2).1 ∧
            store (run key (without_other_keys key evs) s1).2 !! key =
              store (run key evs s2).2 !! key) as Hgen; [|by apply Hgen].
  induction evs as [|ev evs IH]; intros s1 s2 Hagree; [done|].
  unfold without_other_keys. cbn [List.filter].
  destruct (is_call_elsewhere key ev) eqn:Helse; simpl.
  - destruct ev as [c identifier now now'|now]; [|done].
    apply negb_true_iff, bool_decide_eq_false in Helse.
    fold (without_other_keys key evs). cbn [run step].
    destruct (createRateLimiter c identifier now now' s2) as [r0 t2] eqn:Hcall.
    assert (store t2 !! key = store s2 !! key) as Hsame.
    { pose proof (createRateLimiter_other c identifier now now' s2 key Helse) as Ho.
      by rewrite Hcall in Ho. }
    destruct (IH s1 t2) as [Hrs Hfinal]; [congruence|].
    destruct (run key evs t2) as [rs u]. rewrite decide_False by done. done.
  - fold (without_other_keys key evs). cbn [run].
    destruct (step_agree key ev s1 s2 Hagree) as [Hnext Hres].
    destruct (step ev s1) as [o1 t1] eqn:H1. destruct (step ev s2) as [o2 t2] eqn:H2.
    simpl in Hnext, Hres. destruct (IH t1 t2 Hnext) as [Hrs Hfinal].
    destruct (run key (without_other_keys key evs) t1) as [rs1 u1].
    destruct (run key evs t2) as [rs2 u2]. simpl in *. subst rs2. split; [|done].
    destruct ev as [c identifier now now'|now]; [|by destruct o1, o2].
    simpl in Helse. apply negb_false_iff, bool_decide_eq_true in Helse.
    by rewrite Hres by (by apply bool_decide_eq_true).
Qed.

Lemma other_keys_do_not_interfere_witness :
  without_other_keys "gallery:198.51.100.7" mixed_trace =
    [ Call (RateLimitConfigs publicAPI) "gallery:198.51.100.7" 0 0;
      Call (RateLimitConfigs publicAPI) "gallery:198.51.100.7" 2000 2001;
      Sweep 60000;
      Call (RateLimitConfigs publicAPI) "gallery:198.51.100.7" 61500 61500 ] ∧
  (λ r, (allowed r, remaining r)) <$>
    (run "gallery:198.51.100.7" mixed_trace constructor).1 =
    [(true, 59); (true, 58); (true, 59)].
Proof.
  split; [reflexivity|].
  rewrite <- (proj1 (other_keys_do_not_interfere "gallery:198.51.100.7" mixed_trace
                       constructor)).
  vm_compute. reflexivity.
Defined.

(** X5. The store is shared by all limiters: a call of one limiter under a
    key whose window another limiter opened is counted in that window.  It
    sees the other limiter's count and [resetTime] and compares the count
    with its own [maxRequests]; its own [windowMs] plays no part. *)
Theorem limiters_share_entries config1 config2 id1 id2 t1 t1' t2 t2' s :
  let key := key_of config1 id1 in
  key_of config2 id2 = key →
  (store s !! key = None ∨ (∃ old, store s !! key = Some old ∧ resetTime old < t1)) →
  t2 ≤ t1 + windowMs config1 →
  let s1 := (createRateLimiter config1 id1 t1 t1' s).2 in
  let r2 := (createRateLimiter config2 id2 t2 t2' s1).1 in
  let s2 := (createRateLimiter config2 id2 t2 t2' s1).2 in
  store s2 !! key =
    Some {| count := 2; firstRequest := t1; resetTime := t1 + windowMs config1 |} ∧
  allowed r2 = (2 <=? maxRequests config2) ∧
  remaining r2 = Z.max 0 (maxRequests config2 - 2) ∧
  resultResetTime r2 = t1 + windowMs config1.
Proof.
  intros key Hkey Hnone%live_None Hle s1 r2 s2. subst s1 r2 s2.
  rewrite (createRateLimiter_next config1). fold key.
  assert (next_entry key (windowMs config1) t1 s = fresh_entry t1 (windowMs config1))
    as -> by (unfold next_entry; by rewrite Hnone).
  cbn [snd]. set (s1 := with_store _ s).
  rewrite createRateLimiter_next, Hkey. simpl.
  assert (live key t2 s1 = Some (fresh_entry t1 (windowMs config1))) as Hlive.
  { apply live_Some. split; [apply lookup_insert_eq | simpl; lia]. }
  unfold next_entry. rewrite Hlive. simpl. by rewrite lookup_insert_eq.
Qed.

(** An address that shows up under the same key in a limiter with the
    [inquiry] profile and in one with the [login] profile. *)
Lemma limiters_share_entries_witness :
  let s1 := (createRateLimiter (RateLimitConfigs inquiry) "203.0.113.5" 0 0 constructor).2 in
  store (createRateLimiter (RateLimitConfigs login) "203.0.113.5" 1000000 1000000 s1).2
    !! "203.0.113.5"%string =
    Some {| count := 2; firstRequest := 0; resetTime := 3600000 |} ∧
  resultResetTime
    (createRateLimiter (RateLimitConfigs login) "203.0.113.5" 1000000 1000000 s1).1 =
    3600000.
Proof.
  intros s1.
  destruct (limiters_share_entries (RateLimitConfigs inquiry) (RateLimitConfigs login)
              "203.0.113.5" "203.0.113.5" 0 0 1000000 1000000 constructor)
    as (Hentry & _ & _ & Hreset);
    [reflexivity | left; reflexivity | simpl; lia |].
  split; [exact Hentry | exact Hreset].
Defined.


(** ** Reading, resetting and measuring the store *)

(** X6. [get] returns an entry exactly when one is live for the key, and
    then leaves the store alone; an entry past its [resetTime] is deleted
    and [null] returned.  Reading is invisible to the limiters: a call at
    a clock not before the one of the [get] is answered the same, and
    leaves the same entry, whether or not the [get] took place. *)
Theorem get_is_a_lazy_read key now s :
  (get key now s).1 = live key now s ∧
  (∀ entry, (get key now s).1 = Some entry →
     store s !! key = Some entry ∧ ¬ resetTime entry < now ∧ (get key now s).2 = s) ∧
  ((get key now s).1 = None → store (get key now s).2 !! key = None) ∧
  (∀ key', key' ≠ key → store (get key now s).2 !! key' = store s !! key') ∧
  (∀ config identifier t t', now ≤ t →
     (createRateLimiter config identifier t t' (get key now s).2).1 =
       (createRateLimiter config identifier t t' s).1 ∧
     store (createRateLimiter config identifier t t' (get key now s).2).2
       !! key_of config identifier =
     store (createRateLimiter config identifier t t' s).2 !! key_of config identifier).
Proof.
  unfold get, live.
  destruct (store s !! key) as [entry|] eqn:Hk.
  2:{ split_and!; done. }
  destruct (expired now entry) eqn:Hexp; simpl.
  - apply Z.ltb_lt in Hexp. split_and!; try done.
    + intros _. apply lookup_delete_eq.
    + intros key' Hne. by apply lookup_delete_ne.
    + intros config identifier t t' Hle. rewrite !createRateLimiter_next. simpl.
      assert (next_entry (key_of config identifier) (windowMs config) t
                (with_store (delete key (store s)) s) =
              next_entry (key_of config identifier) (windowMs config) t s) as ->.
      { unfold next_entry, live. simpl.
        destruct (decide (key_of config identifier = key)) as [->|Hne].
        - rewrite lookup_delete_eq, Hk. unfold expired.
          replace (resetTime entry <? t) with true; [done|].
          symmetry. apply Z.ltb_lt. lia.
        - by rewrite lookup_delete_ne. }
      by rewrite !lookup_insert_eq.
  - apply Z.ltb_ge in Hexp. split_and!; try done.
    intros e [= <-]. split_and!; [done | lia | done].
Qed.

Lemma get_is_a_lazy_read_witness :
  (get "k" 11 stale_store).1 = None ∧
  store (get "k" 11 stale_store).2 !! "k"%string = None ∧
  (get "k" 10 stale_store).1 = Some {| count := 3; firstRequest := 0; resetTime := 10 |} ∧
  (createRateLimiter (RateLimitConfigs login) "k" 12 12 (get "k" 11 stale_store).2).1 =
    (createRateLimiter (RateLimitConfigs login) "k" 12 12 stale_store).1.
Proof.
  destruct (get_is_a_lazy_read "k" 11 stale_store) as (_ & _ & Hnone & _ & Hsame).
  split_and!.
  - reflexivity.
  - apply Hnone. reflexivity.
  - reflexivity.
  - apply (Hsame (RateLimitConfigs login) "k"%string 12 12). lia.
Defined.

(** X7. After [reset(key)] the key is as if never seen: [get] finds
    nothing and the next call under it opens a new window with
    [count = 1], whatever the count was and whatever is left of the old
    window; the entries of the other keys are untouched. *)
Theorem reset_gives_the_quota_back key s :
  (∀ now, (get key now (reset key s)).1 = None) ∧
  (∀ key', key' ≠ key → store (reset key s) !! key' = store s !! key') ∧
  (∀ config identifier now now', key_of config identifier = key →
     (createRateLimiter config identifier now now' (reset key s)).1 =
       {| allowed := 1 <=? maxRequests config;
          remaining := Z.max 0 (maxRequests config - 1);
          resultResetTime := now + windowMs config;
          retryAfter := Z.max 0 (ceil_div1000 (now + windowMs config - now')) |} ∧
     store (createRateLimiter config identifier now now' (reset key s)).2 !! key =
       Some {| count := 1; firstRequest := now; resetTime := now + windowMs config |}).
Proof.
  split_and!.
  - intros now. unfold get, reset. simpl. by rewrite lookup_delete_eq.
  - intros key' Hne. by apply lookup_delete_ne.
  - intros config identifier now now' Hkey. rewrite createRateLimiter_next, Hkey.
    assert (live key now (reset key s) = None) as Hnone.
    { apply live_None. left. apply lookup_delete_eq. }
    unfold next_entry. rewrite Hnone. simpl. by rewrite lookup_insert_eq.
Qed.

(** A client locked out after six logins is let in again after a reset. *)
Lemma reset_gives_the_quota_back_witness :
  let s6 := exec (Call (RateLimitConfigs login) "login:1.2.3.4" 0 0 :: five_more_logins)
              constructor in
  allowed (createRateLimiter (RateLimitConfigs login) "login:1.2.3.4" 60000 60000 s6).1
    = false ∧
  allowed (createRateLimiter (RateLimitConfigs login) "login:1.2.3.4" 60000 60000
             (reset "login:1.2.3.4" s6)).1 = true.
Proof.
  intros s6. split; [vm_compute; reflexivity|].
  destruct (reset_gives_the_quota_back "login:1.2.3.4" s6) as (_ & _ & Hcall).
  destruct (Hcall (RateLimitConfigs login) "login:1.2.3.4"%string 60000 60000 eq_refl)
    as [-> _].
  reflexivity.
Defined.

(** X8. The store grows by one entry when a call comes under a key that
    has no entry at all, and not otherwise: a key whose window is over is
    reused in place.  A cleanup pass never grows it, and leaves it
    unchanged exactly when nothing was expired; [destroy] empties it.  So
    after any trace the store has at most as many entries more as there
    were calls. *)
Theorem store_size_accounting :
  (∀ config identifier now now' s,
     size (createRateLimiter config identifier now now' s).2 =
     match store s !! key_of config identifier with
     | Some _ => size s
     | None => S (size s)
     end) ∧
  (∀ now s, (size (cleanup now s) ≤ size s)%nat) ∧
  (∀ now s, size (cleanup now s) = size s ↔ expiredKeys now (store s) = []) ∧
  (∀ s, size (destroy s) = 0%nat) ∧
  (∀ evs s, (size (exec evs s) ≤ size s + length (List.filter
               (λ ev, match ev with Call _ _ _ _ => true | Sweep _ => false end) evs))%nat).
Proof.
  assert (Hcall : ∀ config identifier now now' s,
     size (createRateLimiter config identifier now now' s).2 =
     match store s !! key_of config identifier with
     | Some _ => size s
     | None => S (size s)
     end).
  { intros. rewrite createRateLimiter_next. unfold size. simpl.
    destruct (store s !! key_of config identifier) as [old|] eqn:Hk.
    - rewrite <- (insert_delete_id (store s) _ _ Hk) at 2.
      rewrite <- insert_delete_eq.
      rewrite !map_size_insert_None by apply lookup_delete_eq. done.
    - by rewrite map_size_insert_None. }
  assert (Hsub : ∀ now s, store (cleanup now s) ⊆ store s).
  { intros now s. apply map_subseteq_spec. intros k e. rewrite lookup_cleanup.
    destruct (store s !! k) as [e'|]; [|done]. by destruct (expired now e'). }
  assert (Hsweep : ∀ now s, (size (cleanup now s) ≤ size s)%nat).
  { intros. unfold size. apply map_subseteq_size, Hsub. }
  split_and!.
  - exact Hcall.
  - exact Hsweep.
  - intros now s. split.
    + intros Hsize.
      assert (store (cleanup now s) = store s) as Heq.
      { apply map_subseteq_size_eq; [apply Hsub|]. unfold size in Hsize. lia. }
      destruct (expiredKeys now (store s)) as [|k ks] eqn:Hkeys; [done|].
      assert (k ∈ expiredKeys now (store s)) as Hin by (rewrite Hkeys; by left).
      apply elem_of_expiredKeys in Hin as (e & Hk & Hexp).
      pose proof (lookup_cleanup now s k) as Hl. rewrite Heq, Hk, Hexp in Hl. done.
    + intros Hnil. unfold cleanup, size. simpl. by rewrite Hnil.
  - done.
  - intros evs. induction evs as [|ev evs IH] using rev_ind; intros s.
    + simpl. unfold exec. simpl. lia.
    + rewrite exec_app, List.filter_app, length_app. specialize (IH s).
      unfold exec at 1. simpl. destruct ev as [c identifier now now'|now]; simpl.
      * change (let '(r, s') := createRateLimiter c identifier now now' (exec evs s)
                in (Some r, s')).2
          with (step (Call c identifier now now') (exec evs s)).2.
        assert ((step (Call c identifier now now') (exec evs s)).2 =
                (createRateLimiter c identifier now now' (exec evs s)).2) as ->.
        { simpl. by destruct (createRateLimiter _ _ _ _ _). }
        rewrite Hcall. destruct (store (exec evs s) !! key_of c identifier); lia.
      * pose proof (Hsweep now (exec evs s)). unfold cleanup in *. simpl in *. lia.
Qed.

Lemma store_size_accounting_witness :
  size (exec mixed_trace constructor) = 2%nat ∧
  (size (exec mixed_trace constructor) ≤ size constructor + 5)%nat.
Proof.
  split; [vm_compute; reflexivity|].
  destruct store_size_accounting as (_ & _ & _ & _ & Hbound).
  exact (Hbound mixed_trace constructor).
Defined.

(** X9. Every profile that [getRateLimitConfig] can return has a positive
    window, admits at least five requests and generates no key of its own;
    with the development flag it is the development profile whatever the
    type.  So, for the limiters the routes build, the key is the
    identifier they pass and the call that opens a window is allowed. *)
Theorem table_profiles_admit_the_first_call type isDevelopment :
  let config := getRateLimitConfig type isDevelopment in
  5 ≤ maxRequests config ∧ 60000 ≤ windowMs config ∧ statusCode config = 429 ∧
  (isDevelopment = true → config = RateLimitConfigs development ∧
     maxRequests config = 1000000) ∧
  (isDevelopment = false → config = RateLimitConfigs type) ∧
  (∀ identifier, key_of config identifier = identifier) ∧
  (∀ identifier now now' s,
     (store s !! identifier = None ∨
      (∃ old, store s !! identifier = Some old ∧ resetTime old < now)) →
     allowed (createRateLimiter config identifier now now' s).1 = true ∧
     remaining (createRateLimiter config identifier now now' s).1 = maxRequests config - 1).
Proof.
  intros config.
  assert (5 ≤ maxRequests config ∧ 60000 ≤ windowMs config ∧ statusCode config = 429 ∧
          keyGenerator config = None) as (Hmax & Hwin & Hstatus & Hgen).
  { subst config. destruct isDevelopment, type; simpl; split_and!; (done || lia). }
  assert (∀ identifier, key_of config identifier = identifier) as Hkey.
  { intros. unfold key_of. by rewrite Hgen. }
  split_and!; try done.
  - intros ->. done.
  - intros ->. done.
  - intros identifier now now' s Hnone. rewrite createRateLimiter_next, Hkey.
    rewrite <- live_None in Hnone. unfold next_entry. rewrite Hnone. simpl.
    split; [apply Z.leb_le; lia | lia].
Qed.

Lemma table_profiles_admit_the_first_call_witness :
  allowed (createRateLimiter (getRateLimitConfig inquiry false) "inquiry:unknown" 0 0
             constructor).1 = true ∧
  remaining (createRateLimiter (getRateLimitConfig inquiry false) "inquiry:unknown" 0 0
               constructor).1 = 9.
Proof.
  destruct (table_profiles_admit_the_first_call inquiry false)
    as (_ & _ & _ & _ & _ & _ & Hfirst).
  destruct (Hfirst "inquiry:unknown"%string 0 0 constructor (or_introl eq_refl))
    as [Ha Hr].
  split; [exact Ha | exact Hr].
Defined.

End RateLimitMore.

(** ** More on the client identity *)

Module ClientIPMore.
Import ClientIP ClientIPFacts.
Local Open Scope string_scope.

Lemma trim_end_empty s : trim_end s = "" ↔ all_white s = true.
Proof.
  induction s as [|c s IH]; simpl; [done|].
  destruct (trim_end s) as [|x y] eqn:Hr.
  - destruct (is_white c); simpl; [by rewrite <- IH | done].
  - split; [done|]. intros [_ Hs]%andb_true_iff. by apply IH in Hs.
Qed.

Lemma trim_start_white s : all_white (trim_start s) = all_white s.
Proof.
  induction s as [|c s IH]; simpl; [done|].
  destruct (is_white c) eqn:Hc; simpl; [done | by rewrite Hc].
Qed.

Lemma trim_empty s : trim s = "" ↔ all_white s = true.
Proof. unfold trim. by rewrite trim_end_empty, trim_start_white. Qed.

Lemma has_comma_trim s : has_comma s = false → has_comma (trim s) = false.
Proof.
  intros Hs. unfold trim.
  assert (has_comma (trim_start s) = false) as Hstart.
  { induction s as [|c s IH]; simpl in *; [done|].
    apply orb_false_iff in Hs as [Hc Hs].
    destruct (is_white c); [by apply IH|]. simpl. by rewrite Hc, Hs. }
  revert Hstart. generalize (trim_start s). clear. intros s.
  induction s as [|c s IH]; simpl; [done|].
  intros [Hc Hs]%orb_false_iff. specialize (IH Hs).
  destruct (trim_end s) as [|x y].
  - destruct (is_white c); simpl; [done | by rewrite Hc].
  - cbn [has_comma] in *. by rewrite Hc, IH.
Qed.

(** X10. The identity that [getClientIP] returns is the empty string
    exactly when [x-forwarded-for] has a non-empty value whose first list
    element is blank; whatever the headers, an identity taken from
    [x-forwarded-for] contains no comma and neither starts nor ends with
    white space, and an identity taken elsewhere is not empty. *)
Theorem getClientIP_blank_only_from_forwarded (headers : Headers) :
  (getClientIP headers = "" ↔
     ∃ forwarded, headers !! "x-forwarded-for" = Some forwarded ∧ forwarded ≠ "" ∧
                  all_white (split_comma_first forwarded) = true) ∧
  (usable headers "x-forwarded-for" →
     has_comma (getClientIP headers) = false ∧
     (∀ c rest, getClientIP headers = String c rest → is_white c = false) ∧
     (∀ rest c, getClientIP headers = rest ++ String c "" → is_white c = false)) ∧
  (¬ usable headers "x-forwarded-for" → getClientIP headers ≠ "").
Proof.
  unfold getClientIP.
  destruct (truthy (headers_get headers "x-forwarded-for")) eqn:Hxff.
  - apply truthy_usable in Hxff as Husable.
    destruct Husable as (forwarded & Hf & Hne).
    unfold headers_get. rewrite Hf. simpl. split_and!.
    + rewrite trim_empty. split; [by exists forwarded|].
      by intros (f & [= <-] & _ & Hw).
    + intros _. destruct (trim_spec (split_comma_first forwarded)) as (_ & H1 & H2).
      split_and!; [|done|done].
      apply has_comma_trim. apply split_comma_first_spec.
    + intros Hno. exfalso. apply Hno. by exists forwarded.
  - assert (¬ usable headers "x-forwarded-for") as Hno.
    { intros Hu%truthy_usable. congruence. }
    assert ((if truthy (headers_get headers "cf-connecting-ip")
             then default "" (headers_get headers "cf-connecting-ip")
             else if truthy (headers_get headers "x-real-ip")
                  then default "" (headers_get headers "x-real-ip")
                  else "unknown") ≠ "") as Hrest.
    { destruct (headers_get headers "cf-connecting-ip") as [[|? ?]|];
        destruct (headers_get headers "x-real-ip") as [[|? ?]|]; simpl; done. }
    split_and!; [|done|done].
    split; [done|]. intros (f & Hf & Hne & _). exfalso. apply Hno. by exists f.
Qed.

Lemma getClientIP_blank_only_from_forwarded_witness :
  getClientIP (<["x-forwarded-for" := " ,203.0.113.5"]> (<["x-real-ip" := "10.0.0.9"]> ∅))
    = "" ∧
  has_comma (getClientIP proxied) = false.
Proof.
  split.
  - apply (proj1 (getClientIP_blank_only_from_forwarded _)).
    exists " ,203.0.113.5". split_and!; [reflexivity | done | reflexivity].
  - destruct (getClientIP_blank_only_from_forwarded proxied) as (_ & Hxff & _).
    apply Hxff. exists " 203.0.113.5 , 10.0.0.1". split; [reflexivity | done].
Defined.

End ClientIPMore.

(** ** CORS *)

Module CorsFacts.
Import Cors.
Local Open Scope string_scope.

Lemma isOriginAllowed_spec origin config :
  isOriginAllowed origin config = true ↔
  ∃ o, origin = Some o ∧ o ≠ "" ∧ o ∈ allowedOrigins config.
Proof.
  unfold isOriginAllowed. destruct origin as [[|c o]|]; simpl.
  - split; [done|]. by intros (o & [= <-] & ? & _).
  - rewrite bool_decide_eq_true. split; [by eexists | by intros (? & [= <-] & _ & ?)].
  - split; [done|]. by intros (o & ? & _).
Qed.

(** X11. [getCORSHeaders] grants nothing (an empty object) unless the
    request's origin is a non-empty string listed in [allowedOrigins];
    when it grants, it returns exactly six headers and
    [Access-Control-Allow-Origin] is the request's own origin: never an
    origin outside the list, and never the wildcard unless ["*"] is itself
    listed and sent. *)
Theorem getCORSHeaders_grants_listed_origins_only origin config :
  (getCORSHeaders origin config = ∅ ↔ isOriginAllowed origin config = false) ∧
  (isOriginAllowed origin config = false ↔
     origin = None ∨ origin = Some "" ∨
     ∃ o, origin = Some o ∧ o ∉ allowedOrigins config) ∧
  (∀ granted, getCORSHeaders origin config !! "Access-Control-Allow-Origin" = Some granted →
     origin = Some granted ∧ granted ≠ "" ∧ granted ∈ allowedOrigins config) ∧
  (isOriginAllowed origin config = true →
     dom (getCORSHeaders origin config) =
       {[ "Access-Control-Allow-Origin"; "Access-Control-Allow-Credentials";
          "Access-Control-Allow-Methods"; "Access-Control-Allow-Headers";
          "Access-Control-Expose-Headers"; "Access-Control-Max-Age" ]} ∧
     getCORSHeaders origin config !! "Access-Control-Allow-Credentials" =
       Some (if credentials config then "true" else "false") ∧
     getCORSHeaders origin config !! "Access-Control-Max-Age" =
       Some (toString (maxAge config))).
Proof.
  unfold getCORSHeaders.
  destruct (isOriginAllowed origin config) eqn:Hallowed; simpl.
  - apply isOriginAllowed_spec in Hallowed as (o & -> & Hne & Hin).
    assert (truthy_o : ClientIP.truthy (Some o) = true) by (by destruct o).
    rewrite truthy_o. simpl. split_and!.
    + split; [|done]. intros Hempty.
      apply (f_equal (λ m, m !! "Access-Control-Allow-Origin")) in Hempty.
      by rewrite lookup_insert_eq, lookup_empty in Hempty.
    + split; [done|]. intros [?|[[= ->]|(o' & [= <-] & Hnot)]]; done.
    + intros granted. rewrite lookup_insert_eq. by intros [= <-].
    + intros _. split_and!.
      * rewrite !dom_insert_L, dom_empty_L. set_solver.
      * rewrite lookup_insert_ne by done. by rewrite lookup_insert_eq.
      * rewrite !lookup_insert_ne by done. by rewrite lookup_insert_eq.
  - split_and!; try done.
    split; [intros _|done].
    destruct origin as [[|c o]|]; [by right; left | | by left].
    right. right. exists (String c o). split; [done|]. intros Hin.
    assert (isOriginAllowed (Some (String c o)) config = true) as Hyes
      by (apply isOriginAllowed_spec; by eexists).
    congruence.
Qed.

Lemma getCORSHeaders_grants_listed_origins_only_witness :
  getCORSHeaders (Some "https://evil.example") (getCORSConfig (Some "production") None) = ∅ ∧
  getCORSHeaders None (getCORSConfig (Some "production") None) = ∅ ∧
  getCORSHeaders (Some "https://www.russoluxtours.de")
    (getCORSConfig (Some "production") None) !! "Access-Control-Allow-Origin" =
    Some "https://www.russoluxtours.de" ∧
  getCORSHeaders (Some "https://www.russoluxtours.de")
    (getCORSConfig (Some "production") None) !! "Access-Control-Max-Age" = Some "86400".
Proof.
  split_and!.
  - apply (proj1 (getCORSHeaders_grants_listed_origins_only _ _)). reflexivity.
  - apply (proj1 (getCORSHeaders_grants_listed_origins_only _ _)). reflexivity.
  - reflexivity.
  - destruct (getCORSHeaders_grants_listed_origins_only
                (Some "https://www.russoluxtours.de")
                (getCORSConfig (Some "production") None)) as (_ & _ & _ & Hgrant).
    destruct Hgrant as (_ & _ & ->); reflexivity.
Defined.

Lemma replace_first_unfold pattern replacement s :
  replace_first pattern replacement s =
  if String.prefix pattern s
  then replacement ++ string_drop (String.length pattern) s
  else match s with
       | EmptyString => EmptyString
       | String c s' => String c (replace_first pattern replacement s')
       end.
Proof. by destruct s. Qed.

Lemma replace_first_prefix pattern replacement rest :
  replace_first pattern replacement (pattern ++ rest) = replacement ++ rest.
Proof.
  assert (String.prefix pattern (pattern ++ rest) = true) as Hp.
  { induction pattern as [|c p IH]; [by destruct rest|].
    rewrite ClientIPFacts.append_cons. simpl. destruct (ascii_dec c c); [done|congruence]. }
  assert (string_drop (String.length pattern) (pattern ++ rest) = rest) as Hd.
  { clear Hp. induction pattern as [|c p IH]; [done|].
    rewrite ClientIPFacts.append_cons. simpl. exact IH. }
  by rewrite replace_first_unfold, Hp, Hd.
Qed.

Lemma replace_first_absent pattern replacement s :
  includes pattern s = false → replace_first pattern replacement s = s.
Proof.
  induction s as [|c s IH]; simpl.
  - intros [Hp _]%orb_false_iff. by rewrite Hp.
  - intros [Hp Hs]%orb_false_iff. rewrite Hp. by rewrite IH.
Qed.

(** X12. Only [NODE_ENV = "development"] selects the localhost policy,
    and it ignores [NEXT_PUBLIC_APP_URL]; every other environment
    (production, test, none) gets the production policy, whose two
    allowed origins are the configured URL (the fixed domain when the
    variable is unset or empty) and that URL with ["https://"] replaced by
    ["https://www."].  For a URL that starts with ["https://"] the second
    is the www host; for a URL without ["https://"] the two are the same,
    so no www origin is allowed.  Methods, headers, credentials and max
    age do not depend on the environment. *)
Theorem getCORSConfig_policies NODE_ENV NEXT_PUBLIC_APP_URL :
  let config := getCORSConfig NODE_ENV NEXT_PUBLIC_APP_URL in
  let domain := match NEXT_PUBLIC_APP_URL with
                | Some (String c url) => String c url
                | _ => "https://russoluxtours.de"
                end in
  (NODE_ENV = Some "development" →
     config = getCORSConfig (Some "development") None ∧
     allowedOrigins config = ["http://localhost:3000"; "http://localhost:3001";
                              "http://127.0.0.1:3000"; "http://127.0.0.1:3001"]) ∧
  (NODE_ENV ≠ Some "development" →
     allowedOrigins config = [domain; replace_first "https://" "https://www." domain] ∧
     (∀ rest, domain = "https://" ++ rest →
        allowedOrigins config = [domain; "https://www." ++ rest]) ∧
     (includes "https://" domain = false → allowedOrigins config = [domain; domain])) ∧
  credentials config = true ∧ methods config = standard_methods ∧
  headers config = standard_headers ∧ maxAge config = 86400.
Proof.
  intros config domain. subst config. unfold getCORSConfig.
  destruct (bool_decide (NODE_ENV = Some "development")) eqn:Hdev.
  - apply bool_decide_eq_true in Hdev. split_and!; done.
  - apply bool_decide_eq_false in Hdev. split_and!; try done. intros _.
    assert ((if ClientIP.truthy NEXT_PUBLIC_APP_URL
             then default "" NEXT_PUBLIC_APP_URL
             else "https://russoluxtours.de") = domain) as ->.
    { subst domain. by destruct NEXT_PUBLIC_APP_URL as [[|? ?]|]. }
    cbn [allowedOrigins]. split_and!.
    + done.
    + intros rest Hd. rewrite Hd at 2. by rewrite replace_first_prefix.
    + intros Hno. by rewrite replace_first_absent.
Qed.

Lemma getCORSConfig_policies_witness :
  allowedOrigins (getCORSConfig (Some "test") (Some "https://reisen.example")) =
    ["https://reisen.example"; "https://www.reisen.example"] ∧
  allowedOrigins (getCORSConfig None (Some "http://reisen.example")) =
    ["http://reisen.example"; "http://reisen.example"] ∧
  allowedOrigins (getCORSConfig (Some "development") (Some "https://reisen.example")) =
    ["http://localhost:3000"; "http://localhost:3001";
     "http://127.0.0.1:3000"; "http://127.0.0.1:3001"].
Proof.
  split_and!.
  - destruct (getCORSConfig_policies (Some "test") (Some "https://reisen.example"))
      as (_ & Hprod & _).
    destruct Hprod as (_ & Hwww & _); [done|].
    apply (Hwww "reisen.example"). reflexivity.
  - destruct (getCORSConfig_policies None (Some "http://reisen.example"))
      as (_ & Hprod & _).
    destruct Hprod as (_ & _ & Hsame); [done|]. apply Hsame. reflexivity.
  - destruct (getCORSConfig_policies (Some "development") (Some "https://reisen.example"))
      as (Hdev & _).
    by destruct Hdev.
Defined.

End CorsFacts.

(** ** The middleware *)

Module MiddlewareFacts.
Import ClientIP Auth Middleware AuthFacts.
Local Open Scope string_scope.
Local Open Scope Z_scope.

Lemma prefix_app a b s : String.prefix (a ++ b) s = true → String.prefix a s = true.
Proof.
  revert s. induction a as [|c a IH]; intros s; [by destruct s|].
  rewrite ClientIPFacts.append_cons. destruct s as [|d s]; simpl; [done|].
  destruct (ascii_dec c d); [apply IH | done].
Qed.

Section Guard.
Context `{Platform}.
Variable stringify : SessionPayload → string.
Variables NODE_ENV NEXT_PUBLIC_APP_URL : option string.
Variable JWT_SECRET : string.

Abbreviation mw := (middleware stringify NODE_ENV NEXT_PUBLIC_APP_URL JWT_SECRET).
Abbreviation cors := (cors_of NODE_ENV NEXT_PUBLIC_APP_URL).

Lemma verifySession_returns token now_lib now :
  ∃ result, verifySession JWT_SECRET token now_lib now = inr result.
Proof.
  unfold verifySession. destruct (jwtVerify token JWT_SECRET now_lib) as [e|payload];
    simpl; [by eexists|].
  destruct (date_lt _ _); by eexists.
Qed.

(** X13. Two kinds of request are never asked for a session: every
    [OPTIONS] request, answered 200 with the CORS headers, and every [GET]
    request whose path starts with [/api/], passed on with the CORS
    headers.  The paths under [/api/admin] are among the latter: a [GET]
    there reaches its handler whatever cookie it carries. *)
Theorem middleware_unguarded_requests (request : Request) (now_lib now : Z) :
  (method request = "OPTIONS" →
     mw request now_lib now = inr (Preflight 200 (cors request))) ∧
  (method request = "GET" → String.prefix "/api/" (pathname request) = true →
     mw request now_lib now = inr (Next (cors request) None [])) ∧
  (method request = "GET" → String.prefix "/api/admin" (pathname request) = true →
     mw request now_lib now = inr (Next (cors request) None [])).
Proof.
  assert (method request = "GET" → String.prefix "/api/" (pathname request) = true →
          mw request now_lib now = inr (Next (cors request) None [])) as Hget.
  { intros Hm Hp. unfold middleware. rewrite Hm, Hp. reflexivity. }
  split_and!.
  - intros Hm. unfold middleware. rewrite Hm. reflexivity.
  - exact Hget.
  - intros Hm Hp. apply Hget; [done|].
    by apply (prefix_app "/api/" "admin").
Qed.


Lemma getSession_returns cookie now_lib now :
  ∃ result, getSession JWT_SECRET cookie now_lib now = inr result.
Proof.
  destruct cookie; simpl; [by eexists | by eexists | apply verifySession_returns].
Qed.

Lemma api_is_not_admin_page p :
  String.prefix "/api/" p = true → String.prefix "/admin" p = false.
Proof.
  destruct p as [|c1 [|c2 [|c3 rest]]]; cbn [String.prefix]; try done.
  - by destruct (ascii_dec "/" c1).
  - destruct (ascii_dec "/" c1); [|done]. by destruct (ascii_dec "a" c2).
  - destruct (ascii_dec "/" c1); [|done]. destruct (ascii_dec "a" c2); [|done].
    destruct (ascii_dec "p" c3) as [<-|]; [|done]. intros _.
    by destruct (ascii_dec "d" "p").
Qed.

Lemma set_all_lookup_other (object : gmap string string) (headers : Headers) name :
  (∀ k v, object !! k = Some v → lower k ≠ name) →
  set_all object headers !! name = headers !! name.
Proof.
  unfold set_all. intros Hne.
  assert (∀ kv, kv ∈ map_to_list object → lower kv.1 ≠ name) as Hl.
  { intros [k v] Hin%elem_of_map_to_list. by eapply Hne. }
  revert Hl. generalize (map_to_list object). intros l.
  induction l as [|kv l IH]; intros Hl; simpl; [done|].
  rewrite lookup_insert_ne by (apply Hl; by left).
  apply IH. intros kv' Hin. apply Hl. by right.
Qed.

Lemma cors_names_are_not_the_session_header origin config k v :
  Cors.getCORSHeaders origin config !! k = Some v → lower k ≠ "x-admin-session".
Proof.
  unfold Cors.getCORSHeaders. destruct (Cors.isOriginAllowed origin config); simpl.
  - intros Hk%elem_of_dom_2. rewrite !dom_insert_L, dom_empty_L in Hk.
    repeat (apply elem_of_union in Hk as [Hk|Hk];
            [apply elem_of_singleton in Hk as ->; done|]).
    by apply elem_of_empty in Hk.
  - by rewrite lookup_empty.
Qed.

Lemma middleware_admin_api (request : Request) (now_lib now : Z) :
  method request ≠ "OPTIONS" → method request ≠ "GET" →
  (String.prefix "/api/admin" (pathname request) = true ∨
   String.prefix "/api/auth/logout" (pathname request) = true) →
  mw request now_lib now =
  inr match admin_session request with
      | TokenCookie token =>
          match verifySession JWT_SECRET token now_lib now with
          | inr (Some session) =>
              Next ∅ (Some (set_all (cors request)
                              (<["x-admin-session" := stringify session]>
                                 (req_headers request)))) []
          | _ => Json 401 "Unauthorized: Invalid or expired session" (cors request)
          end
      | _ => Json 401 "Unauthorized: No session token" (cors request)
      end.
Proof.
  intros Hopt%String.eqb_neq Hget%String.eqb_neq Hpath.
  assert (String.prefix "/api/" (pathname request) = true) as Hapi.
  { destruct Hpath as [Hp|Hp];
      [by apply (prefix_app "/api/" "admin") | by apply (prefix_app "/api/" "auth/logout")]. }
  assert ((String.prefix "/api/admin" (pathname request) ||
           String.prefix "/api/auth/logout" (pathname request))%bool = true) as Hor.
  { destruct Hpath as [->| ->]; [done | by rewrite orb_true_r]. }
  unfold middleware. rewrite Hopt, Hget, andb_false_r.
  rewrite (api_is_not_admin_page _ Hapi), Hor. simpl.
  fold (cors request).
  destruct (admin_session request) as [| |token]; simpl; try done.
  by destruct (verifySession_returns token now_lib now) as [[session|] ->].
Qed.

(** X14. For every other method, a request under [/api/admin] or
    [/api/auth/logout] reaches its handler exactly when its cookie holds a
    token that [verifySession] accepts, and then with the session written
    into the request header [x-admin-session]; without a cookie, with an
    empty one or with a refused token the answer is 401.  The middleware
    itself never throws. *)
Theorem middleware_guards_admin_api (request : Request) (now_lib now : Z) :
  method request ≠ "OPTIONS" → method request ≠ "GET" →
  (String.prefix "/api/admin" (pathname request) = true ∨
   String.prefix "/api/auth/logout" (pathname request) = true) →
  (∀ session,
     getSession JWT_SECRET (admin_session request) now_lib now = inr (Some session) →
     ∃ forwarded,
       mw request now_lib now = inr (Next ∅ (Some forwarded) []) ∧
       forwarded !! "x-admin-session" = Some (stringify session)) ∧
  (getSession JWT_SECRET (admin_session request) now_lib now = inr None →
   ∃ error, mw request now_lib now = inr (Json 401 error (cors request))) ∧
  (∃ response, mw request now_lib now = inr response).
Proof.
  intros Hopt Hget Hpath.
  rewrite (middleware_admin_api request now_lib now Hopt Hget Hpath).
  destruct (admin_session request) as [| |token]; simpl.
  - split_and!; [done | intros _; by eexists | by eexists].
  - split_and!; [done | intros _; by eexists | by eexists].
  - destruct (verifySession_returns token now_lib now) as [[session|] ->].
    + split_and!; [|done|by eexists].
      intros ? [= <-]. eexists. split; [done|].
      rewrite set_all_lookup_other; [apply lookup_insert_eq|].
      apply cors_names_are_not_the_session_header.
    + split_and!; [done | intros _; by eexists | by eexists].
Qed.

Lemma middleware_admin_page (request : Request) (now_lib now : Z) :
  method request ≠ "OPTIONS" →
  String.prefix "/admin" (pathname request) = true →
  String.prefix "/admin/login" (pathname request) = false →
  mw request now_lib now =
  inr match admin_session request with
      | TokenCookie token =>
          match verifySession JWT_SECRET token now_lib now with
          | inr (Some _) => Next ∅ None []
          | _ => Redirect "/admin/login" ["admin-session"]
          end
      | _ => Redirect "/admin/login" []
      end.
Proof.
  intros Hopt%String.eqb_neq Hadmin Hlogin.
  assert (String.prefix "/api/" (pathname request) = false) as Hapi.
  { destruct (String.prefix "/api/" (pathname request)) eqn:Hp; [|done].
    apply api_is_not_admin_page in Hp. congruence. }
  unfold middleware. rewrite Hopt, Hapi, Hadmin, Hlogin. simpl.
  destruct (admin_session request) as [| |token]; simpl; try done.
  by destruct (verifySession_returns token now_lib now) as [[session|] ->].
Qed.

(** X15. For every method but [OPTIONS], a request for a page under
    [/admin] other than those under [/admin/login] is passed on exactly
    when [getSession] would return a session for its cookie; otherwise it
    is redirected to [/admin/login], and the cookie is deleted when it
    held a token that was refused. *)
Theorem middleware_guards_admin_pages (request : Request) (now_lib now : Z) :
  method request ≠ "OPTIONS" →
  String.prefix "/admin" (pathname request) = true →
  String.prefix "/admin/login" (pathname request) = false →
  ((∃ session,
      getSession JWT_SECRET (admin_session request) now_lib now = inr (Some session)) →
   mw request now_lib now = inr (Next ∅ None [])) ∧
  (getSession JWT_SECRET (admin_session request) now_lib now = inr None →
   mw request now_lib now =
     inr (Redirect "/admin/login"
            match admin_session request with
            | TokenCookie _ => ["admin-session"]
            | _ => []
            end)).
Proof.
  intros Hopt Hadmin Hlogin.
  rewrite (middleware_admin_page request now_lib now Hopt Hadmin Hlogin).
  destruct (admin_session request) as [| |token]; simpl.
  - split; [by intros [? ?] | done].
  - split; [by intros [? ?] | done].
  - destruct (verifySession_returns token now_lib now) as [[session|] ->].
    + split; [done | done].
    + split; [by intros [? ?] | done].
Qed.

(** X16. Redirects do not loop: whenever the middleware redirects, the
    request that follows the redirect, made at the same clock with the
    cookie as the response left it, is passed on. *)
Theorem middleware_redirects_do_not_loop (request : Request) (now_lib now : Z)
    location deleted :
  mw request now_lib now = inr (Redirect location deleted) →
  (location = "/admin/login" ∨ location = "/admin") ∧
  mw (follow request (Redirect location deleted)) now_lib now = inr (Next ∅ None []).
Proof.
  unfold middleware at 1.
  destruct (String.eqb (method request) "OPTIONS") eqn:Hopt; [done|].
  destruct (String.prefix "/api/" (pathname request) &&
            String.eqb (method request) "GET")%bool; [done|].
  destruct (String.prefix "/admin" (pathname request) &&
            negb (String.prefix "/admin/login" (pathname request)))%bool.
  - assert (∀ cookie, (cookie = NoCookie ∨ cookie = EmptyCookie) →
              mw {| method := method request; pathname := "/admin/login"; search := "";
                    req_headers := req_headers request; admin_session := cookie |}
                 now_lib now = inr (Next ∅ None [])) as Hlogin.
    { intros cookie Hc. unfold middleware. simpl. rewrite Hopt. simpl.
      by destruct Hc as [-> | ->]. }
    destruct (admin_session request) as [| |token] eqn:Hcookie; simpl.
    + intros [= <- <-]. split; [by left|]. unfold follow. simpl.
      rewrite Hcookie. apply Hlogin. by left.
    + intros [= <- <-]. split; [by left|]. unfold follow. simpl.
      rewrite Hcookie. apply Hlogin. by right.
    + destruct (verifySession_returns token now_lib now) as [[session|] ->]; simpl;
        [done|].
      intros [= <- <-]. split; [by left|]. unfold follow. simpl.
      apply Hlogin. by left.
  - destruct (String.prefix "/api/admin" (pathname request) ||
              String.prefix "/api/auth/logout" (pathname request))%bool.
    { destruct (admin_session request) as [| |token]; simpl; try done.
      by destruct (verifySession_returns token now_lib now) as [[session|] ->]. }
    destruct (String.eqb (pathname request) "/admin/login"); [|done].
    destruct (admin_session request) as [| |token] eqn:Hcookie; simpl; try done.
    destruct (verifySession JWT_SECRET token now_lib now) as [e|[session|]] eqn:Hv;
      simpl; try done.
    intros [= <- <-]. split; [by right|].
    unfold follow, middleware. simpl. rewrite Hopt, Hcookie. simpl. by rewrite Hv.
Qed.


Lemma verify_issued identity T0 T :
  verify JWT_SECRET (issue JWT_SECRET identity T0) T =
  inr (if decide (1000 * (epoch T0 + 7200) ≤ T) then None
       else Some {| username := Some (Str identity);
                    expiresAt := Some (T0 + two_hours) |}).
Proof.
  unfold verify, issue. rewrite verifySession_createSession.
  unfold ret. f_equal. pose proof (epoch_bounds T0). pose proof (epoch_bounds T).
  case_decide as Hd.
  - replace (epoch T0 + 7200 <=? epoch T) with true; [done|].
    symmetry. apply Z.leb_le. lia.
  - replace (epoch T0 + 7200 <=? epoch T) with false
      by (symmetry; apply Z.leb_gt; lia).
    replace (T0 + two_hours <? T) with false
      by (symmetry; apply Z.ltb_ge; unfold two_hours; lia).
    done.
Qed.

(** X17. The cookie of a login works for two hours: a request that
    carries the token [createSession] issued at clock [T0] is passed on
    to the admin pages and to the guarded API at every clock up to one
    second before [T0 + 2h], and sent from [/admin/login] to [/admin];
    from [T0 + 2h] on the pages redirect it to [/admin/login] and delete
    the cookie, and the API answers 401. *)
Theorem issued_cookie_opens_the_admin_area (request : Request) identity (T0 T : Z) :
  method request ≠ "OPTIONS" →
  admin_session request = TokenCookie (issue JWT_SECRET identity T0) →
  (T ≤ T0 + two_hours - 1000 →
     (String.prefix "/admin" (pathname request) = true →
      String.prefix "/admin/login" (pathname request) = false →
      mw request T T = inr (Next ∅ None [])) ∧
     (pathname request = "/admin/login" → mw request T T = inr (Redirect "/admin" [])) ∧
     (method request ≠ "GET" → String.prefix "/api/admin" (pathname request) = true →
      ∃ forwarded, mw request T T = inr (Next ∅ (Some forwarded) []) ∧
        forwarded !! "x-admin-session" =
          Some (stringify {| username := Some (Str identity);
                             expiresAt := Some (T0 + two_hours) |}))) ∧
  (T0 + two_hours ≤ T →
     (String.prefix "/admin" (pathname request) = true →
      String.prefix "/admin/login" (pathname request) = false →
      mw request T T = inr (Redirect "/admin/login" ["admin-session"])) ∧
     (method request ≠ "GET" → String.prefix "/api/admin" (pathname request) = true →
      ∃ error, mw request T T = inr (Json 401 error (cors request)))).
Proof.
  intros Hopt Hcookie.
  pose proof (verify_issued identity T0 T) as Hv. unfold verify in Hv.
  pose proof (epoch_bounds T0) as Hb. unfold two_hours in *.
  split.
  - intros Hle. rewrite decide_False in Hv by lia. split_and!.
    + intros Hadmin Hlogin.
      rewrite (middleware_admin_page request T T Hopt Hadmin Hlogin), Hcookie.
      by rewrite Hv.
    + intros Hpath. apply String.eqb_neq in Hopt. unfold middleware.
      rewrite Hopt, Hpath, Hcookie. simpl. by rewrite Hv.
    + intros Hget Hpath.
      rewrite (middleware_admin_api request T T Hopt Hget (or_introl Hpath)), Hcookie.
      rewrite Hv. eexists. split; [done|].
      rewrite set_all_lookup_other; [apply lookup_insert_eq|].
      apply cors_names_are_not_the_session_header.
  - intros Hle. rewrite decide_True in Hv by lia. split.
    + intros Hadmin Hlogin.
      rewrite (middleware_admin_page request T T Hopt Hadmin Hlogin), Hcookie.
      by rewrite Hv.
    + intros Hget Hpath.
      rewrite (middleware_admin_api request T T Hopt Hget (or_introl Hpath)), Hcookie.
      rewrite Hv. by eexists.
Qed.

End Guard.

Lemma middleware_unguarded_requests_witness :
  ref_middleware (plain_request "GET" "/api/admin/metrics" NoCookie) 0 0 =
    inr (Next ∅ None []) ∧
  ref_middleware (plain_request "OPTIONS" "/admin/packages" NoCookie) 0 0 =
    inr (Preflight 200 ∅).
Proof.
  split.
  - exact (proj2 (proj2 (middleware_unguarded_requests ref_stringify
             (Some "production") None "secret"
             (plain_request "GET" "/api/admin/metrics" NoCookie) 0 0)) eq_refl eq_refl).
  - exact (proj1 (middleware_unguarded_requests ref_stringify
             (Some "production") None "secret"
             (plain_request "OPTIONS" "/admin/packages" NoCookie) 0 0) eq_refl).
Defined.

Lemma middleware_guards_admin_api_witness :
  (∃ error, ref_middleware (plain_request "PUT" "/api/admin/packages" NoCookie) 0 0 =
     inr (Json 401 error ∅)) ∧
  (∃ forwarded,
     ref_middleware (plain_request "PUT" "/api/admin/packages"
                       (TokenCookie (issue "secret" "admin@russoluxtours.de" 0))) 1000 1000 =
       inr (Next ∅ (Some forwarded) []) ∧
     forwarded !! "x-admin-session" = Some "admin@russoluxtours.de").
Proof.
  split.
  - destruct (middleware_guards_admin_api ref_stringify (Some "production") None "secret"
                (plain_request "PUT" "/api/admin/packages" NoCookie) 0 0)
      as (_ & Hno & _); [done | done | by left |].
    destruct (Hno eq_refl) as [error Herr]. exists error. exact Herr.
  - destruct (middleware_guards_admin_api ref_stringify (Some "production") None "secret"
                (plain_request "PUT" "/api/admin/packages"
                   (TokenCookie (issue "secret" "admin@russoluxtours.de" 0))) 1000 1000)
      as (Hyes & _); [done | done | by left |].
    destruct (Hyes {| username := Some (Str "admin@russoluxtours.de");
                      expiresAt := Some 7200000 |}) as (forwarded & Hmw & Hsession).
    + vm_compute. reflexivity.
    + exists forwarded. split; [exact Hmw | exact Hsession].
Defined.

Lemma middleware_guards_admin_pages_witness :
  ref_middleware (plain_request "GET" "/admin/packages" EmptyCookie) 0 0 =
    inr (Redirect "/admin/login" []) ∧
  ref_middleware (plain_request "GET" "/admin/packages"
                    (TokenCookie (issue "other key" "admin" 0))) 0 0 =
    inr (Redirect "/admin/login" ["admin-session"]) ∧
  ref_middleware (plain_request "GET" "/admin/packages"
                    (TokenCookie (issue "secret" "admin" 0))) 0 0 =
    inr (Next ∅ None []).
Proof.
  split_and!.
  - apply (middleware_guards_admin_pages ref_stringify (Some "production") None "secret"
             (plain_request "GET" "/admin/packages" EmptyCookie) 0 0);
      [done | reflexivity | reflexivity | reflexivity].
  - apply (middleware_guards_admin_pages ref_stringify (Some "production") None "secret"
             (plain_request "GET" "/admin/packages"
                (TokenCookie (issue "other key" "admin" 0))) 0 0);
      [done | reflexivity | reflexivity | vm_compute; reflexivity].
  - apply (middleware_guards_admin_pages ref_stringify (Some "production") None "secret"
             (plain_request "GET" "/admin/packages"
                (TokenCookie (issue "secret" "admin" 0))) 0 0);
      [done | reflexivity | reflexivity |].
    eexists. vm_compute. reflexivity.
Defined.

Lemma middleware_redirects_do_not_loop_witness :
  ref_middleware (plain_request "GET" "/admin/login"
                    (TokenCookie (issue "secret" "admin" 0))) 5000 5000 =
    inr (Redirect "/admin" []) ∧
  ref_middleware (plain_request "GET" "/admin"
                    (TokenCookie (issue "secret" "admin" 0))) 5000 5000 =
    inr (Next ∅ None []).
Proof.
  assert (ref_middleware (plain_request "GET" "/admin/login"
                            (TokenCookie (issue "secret" "admin" 0))) 5000 5000 =
            inr (Redirect "/admin" [])) as Hredirect by (vm_compute; reflexivity).
  split; [exact Hredirect|].
  exact (proj2 (middleware_redirects_do_not_loop ref_stringify (Some "production") None
                  "secret" _ 5000 5000 _ _ Hredirect)).
Defined.

Lemma issued_cookie_opens_the_admin_area_witness :
  ref_middleware (plain_request "GET" "/admin"
                    (TokenCookie (issue "secret" "admin" 500))) 7199500 7199500 =
    inr (Next ∅ None []) ∧
  ref_middleware (plain_request "GET" "/admin"
                    (TokenCookie (issue "secret" "admin" 500))) 7200500 7200500 =
    inr (Redirect "/admin/login" ["admin-session"]).
Proof.
  split.
  - destruct (issued_cookie_opens_the_admin_area ref_stringify (Some "production") None
                "secret" (plain_request "GET" "/admin"
                            (TokenCookie (issue "secret" "admin" 500)))
                "admin" 500 7199500) as [Hearly _]; [done | reflexivity |].
    destruct Hearly as (Hpage & _); [unfold two_hours; lia|].
    apply Hpage; reflexivity.
  - destruct (issued_cookie_opens_the_admin_area ref_stringify (Some "production") None
                "secret" (plain_request "GET" "/admin"
                            (TokenCookie (issue "secret" "admin" 500)))
                "admin" 500 7200500) as [_ Hlate]; [done | reflexivity |].
    destruct Hlate as (Hpage & _); [unfold two_hours; lia|].
    apply Hpage; reflexivity.
Defined.

End MiddlewareFacts.

(** ** The login route *)

Module LoginFacts.
Import RateLimit ClientIP Auth Middleware Login RateLimitFacts AuthFacts.
Local Open Scope string_scope.
Local Open Scope Z_scope.

Section Route.
Context `{Platform}.
Variable z_email : string → bool.
Variable NODE_ENV : option string.
Variable env : Env.
Variable JWT_SECRET : string.

Abbreviation post := (POST z_email NODE_ENV env JWT_SECRET).
Abbreviation config :=
  (getRateLimitConfig login (bool_decide (NODE_ENV = Some "development"))).

(** The route, with [verifyCredentials] resolved. *)
Lemma POST_cases headers body clocks s :
  post headers body clocks s =
  let '(r, s') := loginLimiter NODE_ENV (rateLimitKey headers)
                    (at_increment clocks) (at_retryAfter clocks) s in
  if allowed r then
    match body with
    | NotJson => (s', 0, InternalError)
    | _ =>
        match safeParse z_email body with
        | None => (s', 0, InvalidInput)
        | Some (email, password) =>
            if String.eqb email TARGET_EMAIL then
              match bcrypt_compare password TARGET_HASH with
              | inr true =>
                  (s', 0,
                   LoggedIn email
                     {| value := createSession JWT_SECRET email (at_expiresAt clocks)
                                   (at_iat clocks) (at_exp clocks);
                        httpOnly := true;
                        secure := bool_decide (NODE_ENV = Some "production");
                        sameSite := "lax";
                        cookieMaxAge := 2 * 60 * 60;
                        path := "/" |})
              | _ => (s', 1000, InvalidCredentials (remaining r))
              end
            else (s', 1100, InvalidCredentials (remaining r))
        end
    end
  else (s', 0, TooManyAttempts (retryAfter r)).
Proof.
  unfold POST, rateLimitKey.
  destruct (loginLimiter NODE_ENV _ _ _ s) as [r s'].
  destruct (allowed r); cbn [negb]; [|done].
  destruct body as [|fields|]; [done| |]; cbv beta iota;
    (destruct (safeParse z_email _) as [[email password]|]; [|done];
     rewrite verifyCredentials_hardcoded;
     destruct (String.eqb email TARGET_EMAIL); [|done];
     by destruct (bcrypt_compare password TARGET_HASH) as [|[|]]).
Qed.

(** The limiter is asked first, and its answer decides between 429 and
    the rest. *)
Lemma POST_limiter headers body clocks s :
  let r := (createRateLimiter config (rateLimitKey headers)
              (at_increment clocks) (at_retryAfter clocks) s).1 in
  (post headers body clocks s).1.1 =
    (createRateLimiter config (rateLimitKey headers)
       (at_increment clocks) (at_retryAfter clocks) s).2 ∧
  (allowed r = false →
     post headers body clocks s =
       ((post headers body clocks s).1.1, 0, TooManyAttempts (retryAfter r))) ∧
  (allowed r = true → status (post headers body clocks s).2 ≠ 429).
Proof.
  rewrite POST_cases. unfold loginLimiter.
  destruct (createRateLimiter _ _ _ _ s) as [r s']. cbn [fst snd].
  destruct (allowed r); [|done].
  split_and!; [|done|intros _];
    (destruct body as [|fields|]; [done| |]; cbv beta iota;
     (destruct (safeParse z_email _) as [[email password]|]; [|done];
      destruct (String.eqb email TARGET_EMAIL); [|done];
      by destruct (bcrypt_compare password TARGET_HASH) as [|[|]])).
Qed.

(** The responses to requests that come under one key within its window. *)
Lemma serve_in_window key R requests :
  NODE_ENV ≠ Some "development" →
  ∀ s entry,
    store s !! key = Some entry → resetTime entry = R →
    Forall (λ request, rateLimitKey (headers request) = key ∧
                       at_increment (clocks request) ≤ R) requests →
    ∀ (i : nat) response,
      (serve z_email NODE_ENV env JWT_SECRET requests s).1 !! i = Some response →
      (status response = 429 ↔ 5 < count entry + Z.of_nat i + 1).
Proof.
  intros Hdev. induction requests as [|request requests IH];
    intros s entry Hk HR Hall i response; [done|].
  apply Forall_cons in Hall as [Hhead Hall]. destruct Hhead as [Hkey Hnow].
  cbn [serve].
  destruct (POST_limiter (headers request) (body request) (clocks request) s)
    as (Hstore & Hno & Hyes).
  rewrite createRateLimiter_next in Hstore, Hno, Hyes.
  assert (key_of config (rateLimitKey (headers request)) = key) as Hkey'.
  { unfold key_of. rewrite bool_decide_eq_false_2 by done. exact Hkey. }
  rewrite Hkey' in Hstore, Hno, Hyes.
  assert (next_entry key (windowMs config) (at_increment (clocks request)) s =
          bumped entry) as Hnext.
  { unfold next_entry. rewrite (proj2 (live_Some key _ s entry)); [done|].
    split; [done | lia]. }
  rewrite Hnext in Hstore, Hno, Hyes. simpl in Hstore, Hno, Hyes.
  assert (maxRequests config = 5) as Hmax by (by rewrite bool_decide_eq_false_2).
  rewrite Hmax in Hno, Hyes.
  destruct (post (headers request) (body request) (clocks request) s)
    as [[s' slept] response0] eqn:Hpost. simpl in Hstore, Hno, Hyes.
  destruct (serve z_email NODE_ENV env JWT_SECRET requests s') as [responses s'']
    eqn:Hserve.
  destruct i as [|i]; simpl.
  - intros [= <-]. rewrite Z.add_0_r.
    destruct (count entry + 1 <=? 5) eqn:Hle.
    + apply Z.leb_le in Hle. split; [by intros ?%Hyes | lia].
    + apply Z.leb_gt in Hle. split; [lia|]. intros _.
      specialize (Hno eq_refl). by inversion Hno.
  - intros Hi. pose proof (IH s' (bumped entry)) as IH'. rewrite Hserve in IH'.
    apply IH' in Hi; [| |done|done].
    + simpl in Hi. rewrite Hi. lia.
    + subst s'. apply lookup_insert_eq.
Qed.

(** X18. In every environment but development, login requests that
    resolve to one client identity are counted together whatever they
    carry: served one after the other from a store with no open window
    for that identity, those made within fifteen minutes of the first are
    answered as follows: the first five never with 429, every later one
    with 429 and no session cookie, the right password included.  Every
    request without a usable proxy header resolves to the identity
    ["unknown"]. *)
Theorem login_locks_out_after_five request requests s :
  NODE_ENV ≠ Some "development" →
  let key := rateLimitKey (headers request) in
  (store s !! key = None ∨
   (∃ old, store s !! key = Some old ∧ resetTime old < at_increment (clocks request))) →
  Forall (λ later, getClientIP (headers later) = getClientIP (headers request) ∧
                   at_increment (clocks later) ≤
                     at_increment (clocks request) + 15 * 60 * 1000) requests →
  (∀ (i : nat) response,
     (serve z_email NODE_ENV env JWT_SECRET (request :: requests) s).1 !! i =
       Some response →
     ((i < 5)%nat → status response ≠ 429) ∧
     ((5 ≤ i)%nat → ∃ retryAfter, response = TooManyAttempts retryAfter)) ∧
  (∀ headers, ¬ usable headers "x-forwarded-for" → ¬ usable headers "cf-connecting-ip" →
     ¬ usable headers "x-real-ip" → rateLimitKey headers = "login:unknown").
Proof.
  intros Hdev key Hnone%live_None Hall. split.
  2:{ intros headers H1 H2 H3. unfold rateLimitKey, getClientIP.
      by rewrite !ClientIPFacts.not_truthy_usable. }
  intros i response. cbn [serve].
  destruct (POST_limiter (headers request) (body request) (clocks request) s)
    as (Hstore & Hno & Hyes).
  rewrite createRateLimiter_next in Hstore, Hno, Hyes.
  assert (key_of config (rateLimitKey (headers request)) = key) as Hkey'.
  { unfold key_of. by rewrite bool_decide_eq_false_2. }
  rewrite Hkey' in Hstore, Hno, Hyes.
  assert (next_entry key (windowMs config) (at_increment (clocks request)) s =
          fresh_entry (at_increment (clocks request)) (15 * 60 * 1000)) as Hnext.
  { unfold next_entry. rewrite Hnone. by rewrite bool_decide_eq_false_2. }
  rewrite Hnext in Hstore, Hno, Hyes. simpl in Hstore, Hno, Hyes.
  assert (maxRequests config = 5) as Hmax by (by rewrite bool_decide_eq_false_2).
  rewrite Hmax in Hyes.
  destruct (post (headers request) (body request) (clocks request) s)
    as [[s' slept] response0] eqn:Hpost. simpl in Hstore, Hyes.
  destruct (serve z_email NODE_ENV env JWT_SECRET requests s') as [responses s'']
    eqn:Hserve.
  assert (∀ r, status r = 429 → ∃ retryAfter, r = TooManyAttempts retryAfter) as H429.
  { intros [| | | |]; simpl; try done. by eexists. }
  destruct i as [|i]; simpl.
  - intros [= <-]. split; [intros _; by apply Hyes | lia].
  - intros Hi.
    pose proof (serve_in_window key (at_increment (clocks request) + 15 * 60 * 1000)
                  requests Hdev s'
                  (fresh_entry (at_increment (clocks request)) (15 * 60 * 1000))) as Hw.
    rewrite Hserve in Hw. apply Hw in Hi; [| |done|].
    + simpl in Hi. split.
      * intros Hlt Hs. apply Hi in Hs. lia.
      * intros Hge. apply H429, Hi. lia.
    + subst s'. apply lookup_insert_eq.
    + eapply Forall_impl; [exact Hall|]. intros later [Hip Hnow]. split; [|done].
      unfold key, rateLimitKey. by rewrite Hip.
Qed.

Lemma ones_untouched n :
  split_comma_first (ones n) = ones n ∧ trim (ones (S n)) = ones (S n).
Proof.
  split.
  - induction n as [|n IH]; simpl; [done | by rewrite IH].
  - assert (∀ m, trim_end (ones m) = ones m) as Hend.
    { intros m. induction m as [|m IH]; [done|].
      cbn [ones trim_end]. rewrite IH. by destruct m. }
    unfold trim. cbn [ones trim_start]. change (is_white "1") with false. cbv iota.
    apply (Hend (S n)).
Qed.

Lemma ones_length n : String.length (ones n) = n.
Proof. induction n as [|n IH]; simpl; [done | by rewrite IH]. Qed.

Lemma append_length (a b : string) :
  String.length (a ++ b) = (String.length a + String.length b)%nat.
Proof.
  induction a as [|c a IH]; [done|].
  rewrite ClientIPFacts.append_cons. simpl. by rewrite IH.
Qed.

(** X19. The limit does not hold against a caller who sets
    [x-forwarded-for]: whatever the store holds, there is a header value
    with which the request is not answered 429. *)
Theorem login_limit_is_bypassed_by_forwarded_header headers body clocks s :
  ∃ forwarded,
    status (post (<["x-forwarded-for" := forwarded]> headers) body clocks s).2 ≠ 429.
Proof.
  set (n := max_list ((λ kv, String.length kv.1) <$> map_to_list (store s))).
  exists (ones (S n)).
  destruct (POST_limiter (<["x-forwarded-for" := ones (S n)]> headers) body clocks s)
    as (_ & _ & Hyes).
  apply Hyes. clear Hyes. rewrite createRateLimiter_next. cbn [fst allowed].
  assert (getClientIP (<["x-forwarded-for" := ones (S n)]> headers) = ones (S n)) as Hip.
  { unfold getClientIP, headers_get. rewrite lookup_insert_eq.
    change (truthy (Some (ones (S n)))) with true.
    change (default "" (Some (ones (S n)))) with (ones (S n)). cbv iota.
    rewrite (proj1 (ones_untouched (S n))).
    apply ones_untouched. }
  assert (key_of config (rateLimitKey (<["x-forwarded-for" := ones (S n)]> headers)) =
          "login:" ++ ones (S n)) as ->.
  { unfold rateLimitKey. rewrite Hip. unfold key_of.
    by destruct (bool_decide (NODE_ENV = Some "development")). }
  assert (store s !! ("login:" ++ ones (S n)) = None) as Hfresh.
  { destruct (store s !! ("login:" ++ ones (S n))) as [entry|] eqn:Hk; [|done].
    exfalso. apply elem_of_map_to_list in Hk.
    assert ((String.length ("login:" ++ ones (S n)) ≤ n)%nat) as Hlen.
    { apply max_list_elem_of_le, list_elem_of_fmap.
      by exists ("login:" ++ ones (S n), entry). }
    rewrite append_length, ones_length in Hlen. simpl in Hlen. lia. }
  unfold next_entry, live. rewrite Hfresh. simpl. apply Z.leb_le.
  destruct (bool_decide (NODE_ENV = Some "development")); simpl; lia.
Qed.

(** X20. A login that succeeds was made with the address written in the
    code and slept in no timer; with one clock reading [T0] its cookie
    holds the token [createSession] issues at [T0], and the browser keeps
    the cookie for the two hours of the session: the token is accepted
    until the whole second at or below [T0 + 2h], which is never after the
    cookie has gone and less than a second before. *)
Theorem login_cookie_matches_the_session headers body s T0 email cookie :
  (post headers body (frozen T0) s).2 = LoggedIn email cookie →
  email = TARGET_EMAIL ∧
  (post headers body (frozen T0) s).1.2 = 0 ∧
  value cookie = issue JWT_SECRET TARGET_EMAIL T0 ∧
  httpOnly cookie = true ∧
  1000 * cookieMaxAge cookie = two_hours ∧
  (∀ T, verify JWT_SECRET (value cookie) T =
          inr (if decide (1000 * (epoch T0 + 7200) ≤ T) then None
               else Some {| username := Some (Str TARGET_EMAIL);
                            expiresAt := Some (T0 + two_hours) |})) ∧
  T0 + 1000 * cookieMaxAge cookie - 1000 < 1000 * (epoch T0 + 7200)
    ≤ T0 + 1000 * cookieMaxAge cookie.
Proof.
  rewrite POST_cases.
  destruct (loginLimiter NODE_ENV _ _ _ s) as [r s'].
  destruct (allowed r); [|done].
  assert (email = TARGET_EMAIL ∧
          cookie = {| value := issue JWT_SECRET TARGET_EMAIL T0;
                      httpOnly := true;
                      secure := bool_decide (NODE_ENV = Some "production");
                      sameSite := "lax";
                      cookieMaxAge := 2 * 60 * 60;
                      path := "/" |} →
          ∀ slept : Z, slept = 0 →
          email = TARGET_EMAIL ∧ slept = 0 ∧
          value cookie = issue JWT_SECRET TARGET_EMAIL T0 ∧
          httpOnly cookie = true ∧
          1000 * cookieMaxAge cookie = two_hours ∧
          (∀ T, verify JWT_SECRET (value cookie) T =
                  inr (if decide (1000 * (epoch T0 + 7200) ≤ T) then None
                       else Some {| username := Some (Str TARGET_EMAIL);
                                    expiresAt := Some (T0 + two_hours) |})) ∧
          T0 + 1000 * cookieMaxAge cookie - 1000 < 1000 * (epoch T0 + 7200)
            ≤ T0 + 1000 * cookieMaxAge cookie) as Hgoal.
  { intros [-> ->] slept ->. pose proof (epoch_bounds T0). unfold two_hours.
    cbn [value httpOnly cookieMaxAge]. split_and!; try done; try lia.
    intros T. apply MiddlewareFacts.verify_issued. }
  destruct body as [|fields|]; [done| |]; cbv beta iota;
    (destruct (safeParse z_email _) as [[email' password]|]; [|done];
     destruct (String.eqb email' TARGET_EMAIL) eqn:He; [|done];
     apply String.eqb_eq in He as ->;
     destruct (bcrypt_compare password TARGET_HASH) as [|[|]]; try done;
     cbn [fst snd]; intros [= <- <-]; by apply Hgoal).
Qed.

End Route.

Lemma login_locks_out_after_five_witness :
  ((production_serve six_logins constructor).1 !! 4%nat =
     Some (InvalidCredentials (H := open_sesame) 0) ∧
   (production_serve six_logins constructor).1 !! 5%nat =
     Some (TooManyAttempts (H := open_sesame) 600)) ∧
  (∀ (i : nat) response,
     (production_serve six_logins constructor).1 !! i = Some response →
     ((i < 5)%nat → status response ≠ 429) ∧
     ((5 ≤ i)%nat → ∃ retryAfter, response = TooManyAttempts retryAfter)) ∧
  (∀ headers, ¬ usable headers "x-forwarded-for" → ¬ usable headers "cf-connecting-ip" →
     ¬ usable headers "x-real-ip" → rateLimitKey headers = "login:unknown").
Proof.
  split; [split; vm_compute; reflexivity|].
  apply (login_locks_out_after_five (H := open_sesame) (λ _, true) (Some "production")
           other_admin_env "secret" (attempt None "guess 1" 0)
           [ attempt None "guess 2" 60000; attempt None "guess 3" 120000;
             attempt None "guess 4" 180000; attempt None "guess 5" 240000;
             attempt None "open sesame" 300000 ] constructor).
  - done.
  - left. reflexivity.
  - repeat (apply Forall_cons; split; [split; [reflexivity | vm_compute; discriminate]|]).
    apply Forall_nil. done.
Defined.

Lemma login_cookie_matches_the_session_witness :
  (production_login ∅ (credentials TARGET_EMAIL "open sesame") (frozen 1700000000123)
     constructor).2 = LoggedIn TARGET_EMAIL (production_cookie 1700000000123) ∧
  (production_login ∅ (credentials TARGET_EMAIL "open sesame") (frozen 1700000000123)
     constructor).1.2 = 0 ∧
  verify (H := open_sesame) "secret" (value (production_cookie 1700000000123))
    1700007199999 =
    inr (Some {| username := Some (Str TARGET_EMAIL);
                 expiresAt := Some 1700007200123 |}) ∧
  verify (H := open_sesame) "secret" (value (production_cookie 1700000000123))
    1700007200000 = inr None.
Proof.
  assert ((production_login ∅ (credentials TARGET_EMAIL "open sesame")
             (frozen 1700000000123) constructor).2 =
          LoggedIn TARGET_EMAIL (production_cookie 1700000000123)) as Hlogin
    by (vm_compute; reflexivity).
  destruct (login_cookie_matches_the_session (H := open_sesame) (λ _, true)
              (Some "production") other_admin_env "secret" ∅
              (credentials TARGET_EMAIL "open sesame") constructor 1700000000123
              TARGET_EMAIL (production_cookie 1700000000123) Hlogin)
    as (_ & Hslept & _ & _ & _ & Hverify & _).
  split_and!.
  - exact Hlogin.
  - exact Hslept.
  - exact (Hverify 1700007199999).
  - exact (Hverify 1700007200000).
Defined.

End LoginFacts.


(** ** The performance monitor *)

Module PerformanceFacts.
Import Performance.
Local Open Scope string_scope.
Local Open Scope Z_scope.

(** The [n] last elements of a list. *)
Lemma slice_from_end {A} (n : nat) (l : list A) :
  (1 ≤ n)%nat → slice (- Z.of_nat n) l = drop (length l - n) l.
Proof.
  intros Hn. unfold slice. replace (- Z.of_nat n <? 0) with true
    by (symmetry; apply Z.ltb_lt; lia).
  f_equal. lia.
Qed.

Lemma drop_to_last_app {A} (n : nat) (l k : list A) :
  let kept := drop (length l - n) l in
  drop (length (kept ++ k)%list - n) (kept ++ k)%list =
  drop (length (l ++ k)%list - n) (l ++ k)%list.
Proof.
  intros kept. unfold kept.
  rewrite <- (drop_app_le l k (length l - n)) by lia.
  rewrite drop_drop. f_equal. rewrite length_drop, !length_app. lia.
Qed.

Lemma recordMetric_metrics operation duration type memoryDelta memUsage now m :
  let metric :=
    {| operation := operation;
       duration := duration;
       memory := {| mb_heapUsed := round_MB (heapUsed memUsage);
                    mb_heapTotal := round_MB (heapTotal memUsage);
                    mb_external := round_MB (external memUsage);
                    mb_rss := round_MB (rss memUsage);
                    delta := round_MB memoryDelta |};
       timestamp := now;
       slow := threshold_of (thresholds m) type <? duration;
       threshold := threshold_of (thresholds m) type |} in
  (length (metrics m) ≤ 1000)%nat →
  (recordMetric operation duration type memoryDelta memUsage now m).1 =
  with_metrics (drop (length (metrics m ++ [metric])%list - 1000)
                  (metrics m ++ [metric])%list) m.
Proof.
  intros metric Hlen. unfold recordMetric, getMemoryUsage. cbn [fst].
  replace (if memoryDelta =? 0 then 0 else memoryDelta) with memoryDelta
    by (destruct (memoryDelta =? 0) eqn:H0; [apply Z.eqb_eq in H0|]; done).
  fold metric. f_equal. unfold maxMetrics.
  destruct (1000 <? Z.of_nat (length (metrics m ++ [metric])%list)) eqn:Hfull.
  - by apply (slice_from_end 1000); lia.
  - apply Z.ltb_ge in Hfull.
    replace (length (metrics m ++ [metric])%list - 1000)%nat with 0%nat by lia. done.
Qed.

(** X21. The monitor holds the metrics of the last thousand measurements
    that succeeded, oldest first, and nothing of the ones that failed:
    from a buffer of at most a thousand metrics, any sequence of
    measurements leaves the last thousand of the old metrics followed by
    those of the successful measurements, and the thresholds as they
    were, until [clear] empties it. *)
Theorem monitor_keeps_the_last_thousand (m : PerformanceMonitor)
    (measurements : list Measurement) :
  (length (metrics m) ≤ 1000)%nat →
  let recorded :=
    (metrics m ++ (metric_of (thresholds m) <$> List.filter succeeded measurements))%list in
  metrics (run measurements m) = drop (length recorded - 1000) recorded ∧
  (length (metrics (run measurements m)) ≤ 1000)%nat ∧
  thresholds (run measurements m) = thresholds m ∧
  metrics (clear (run measurements m)) = [].
Proof.
  intros Hlen recorded.
  cut (metrics (run measurements m) = drop (length recorded - 1000) recorded ∧
       (length (metrics (run measurements m)) ≤ 1000)%nat ∧
       thresholds (run measurements m) = thresholds m).
  { intros (? & ? & ?). by split_and!. }
  assert (metrics (run measurements m) = drop (length recorded - 1000) recorded ∧
          thresholds (run measurements m) = thresholds m) as [Hm Ht].
  2:{ split_and!; [done | | done]. rewrite Hm, length_drop. lia. }
  unfold recorded. clear recorded.
  induction measurements as [|x measurements IH] using rev_ind.
  - simpl. rewrite app_nil_r. split; [|done].
    replace (length (metrics m) - 1000)%nat with 0%nat by lia. done.
  - destruct IH as [IHm IHt]. unfold run in *. rewrite foldl_snoc.
    set (before := foldl (λ m x, measure x m) m measurements) in *.
    rewrite List.filter_app. cbn [List.filter].
    assert (measure x before =
            (measureAsync (measured x) (settled x) (type x) (readings x) before).1.1)
      as -> by (unfold measure; by destruct (asynchronous x)).
    unfold measureAsync, succeeded.
    destruct (settled x) as [error|[]] eqn:Hx.
    + cbn [fst]. by rewrite app_nil_r.
    + assert (length (metrics before) ≤ 1000)%nat as Hbefore
        by (rewrite IHm, length_drop; lia).
      pose proof (recordMetric_metrics (measured x)
                    (endTime (readings x) - startTime (readings x)) (type x)
                    (endMemory (readings x) - startMemory (readings x))
                    (usage (readings x)) (stamp (readings x)) before Hbefore) as Hrec.
      destruct (recordMetric _ _ _ _ _ _ before) as [m' level]. cbn [fst] in *.
      subst m'. cbn [with_metrics metrics thresholds]. split; [|done].
      rewrite IHt, IHm. rewrite fmap_app, app_assoc. cbn [fmap list_fmap].
      apply (drop_to_last_app 1000).
Qed.

(** X22. [getMetrics(limit)] returns the [limit] latest metrics only for
    a positive [limit]: [getMetrics(0)] returns the whole buffer, and a
    negative [limit] leaves out the [-limit] oldest metrics instead.
    Without an argument the limit is 100, and [GET /api/admin/metrics]
    lists the 50 latest. *)
Theorem getMetrics_limits (m : PerformanceMonitor) (limit : Z) :
  let len := Z.of_nat (length (metrics m)) in
  (∃ older, metrics m = (older ++ getMetrics (Some limit) m)%list ∧
     Z.of_nat (length (getMetrics (Some limit) m)) =
       if 0 <? limit then Z.min limit len else len - Z.min (- limit) len) ∧
  getMetrics (Some 0) m = metrics m ∧
  getMetrics None m = getMetrics (Some 100) m ∧
  Z.of_nat (length (GET_recentMetrics m)) = Z.min 50 len.
Proof.
  intros len. split_and!; [| |done|].
  3:{ unfold GET_recentMetrics, getMetrics, slice. rewrite length_fmap, length_drop.
      change (default 100 (Some 50)) with 50. change (Z.opp 50 <? 0) with true.
      cbv iota.
      unfold len. lia. }
  2:{ unfold getMetrics, slice. change (default 100 (Some 0)) with 0.
      change (- 0 <? 0) with false. cbv iota.
      assert (Z.to_nat (Z.min (- 0) (Z.of_nat (length (metrics m)))) = 0%nat) as ->
        by lia.
      done. }
  unfold getMetrics, slice. change (default 100 (Some limit)) with limit. fold len.
  set (k := if - limit <? 0 then Z.max (len + - limit) 0 else Z.min (- limit) len).
  exists (take (Z.to_nat k) (metrics m)). split; [by rewrite take_drop|].
  rewrite length_drop. unfold k, len.
  destruct (0 <? limit) eqn:Hpos.
  - apply Z.ltb_lt in Hpos.
    replace (- limit <? 0) with true by (symmetry; apply Z.ltb_lt; lia). lia.
  - apply Z.ltb_ge in Hpos.
    replace (- limit <? 0) with false by (symmetry; apply Z.ltb_ge; lia). lia.
Qed.

Lemma prefix_spec (a s : string) :
  String.prefix a s = true ↔ ∃ b, s = a ++ b.
Proof.
  revert s. induction a as [|c a IH]; intros s.
  - split; [intros _; by exists s | by destruct s].
  - destruct s as [|c' s].
    + split; [done | by intros [b Hb]].
    + cbn [String.prefix]. destruct (ascii_dec c c') as [->|Hc].
      * rewrite IH. split; intros [b Hb]; exists b.
        -- by rewrite ClientIPFacts.append_cons, Hb.
        -- rewrite ClientIPFacts.append_cons in Hb. by injection Hb.
      * split; [done|]. intros [b Hb]. rewrite ClientIPFacts.append_cons in Hb.
        by injection Hb.
Qed.

Lemma includes_spec (needle haystack : string) :
  includes needle haystack = true ↔ ∃ a b, haystack = a ++ needle ++ b.
Proof.
  induction haystack as [|c haystack IH]; cbn [includes].
  - rewrite orb_false_r, prefix_spec. split.
    + intros [b Hb]. by exists "", b.
    + intros ([|c a] & b & Hab); [by exists b|].
      by rewrite ClientIPFacts.append_cons in Hab.
  - rewrite orb_true_iff, prefix_spec, IH. split.
    + intros [[b Hb]|(a & b & Hab)]; [by exists "", b|].
      exists (String c a), b. by rewrite ClientIPFacts.append_cons, Hab.
    + intros ([|c' a] & b & Hab); [left; by exists b|].
      right. exists a, b. rewrite ClientIPFacts.append_cons in Hab. by injection Hab.
Qed.

Lemma filter_nil_iff {A} (f : A → bool) (l : list A) :
  List.filter f l = [] ↔ ∀ x, x ∈ l → f x = false.
Proof.
  induction l as [|y l IH]; simpl.
  - split; [intros _ x Hx; by apply elem_of_nil in Hx | done].
  - destruct (f y) eqn:Hy.
    + split; [done|]. intros Hall. specialize (Hall y (list_elem_of_here _ _)). congruence.
    + rewrite IH. split.
      * intros Hall x [->|Hx]%elem_of_cons; [done | by apply Hall].
      * intros Hall x Hx. apply Hall. by apply list_elem_of_further.
Qed.

Lemma getStats_None operation m :
  getStats operation m = None ↔ relevantMetrics operation m = [].
Proof. unfold getStats. by destruct (relevantMetrics operation m). Qed.

Lemma getStats_Some operation m stats :
  getStats operation m = Some stats →
  stats_operation stats = match operation with
                          | Some (String c name) => String c name
                          | _ => "all"
                          end ∧
  count stats = Z.of_nat (length (relevantMetrics operation m)).
Proof.
  unfold getStats. destruct (relevantMetrics operation m); [done|].
  by intros [= <-].
Qed.

(** X23. The statistics [GET /api/admin/metrics] reports when no
    operation is asked for are those of [getStats('all')], which are not
    the statistics over all metrics that [getStats()] gives: both carry
    the label ["all"], but the former count only the operations whose name
    contains ["all"], and are [null] when there is none, whatever the
    buffer holds. *)
Theorem metrics_route_all_is_a_name_filter (m : PerformanceMonitor) :
  (getStats None m = None ↔ metrics m = []) ∧
  (GET_stats None m = None ↔
     ∀ metric, metric ∈ metrics m → ¬ ∃ a b, operation metric = a ++ "all" ++ b) ∧
  GET_stats (Some "") m = GET_stats None m ∧
  (∀ overall, getStats None m = Some overall →
     stats_operation overall = "all" ∧
     count overall = Z.of_nat (length (metrics m)) ∧
     ∀ reported, GET_stats None m = Some reported →
       stats_operation reported = "all" ∧
       count reported =
         Z.of_nat (length (List.filter (λ metric, includes "all" (operation metric))
                             (metrics m))) ∧
       count reported ≤ count overall).
Proof.
  split_and!.
  - by rewrite getStats_None.
  - unfold GET_stats. rewrite getStats_None. unfold relevantMetrics.
    rewrite filter_nil_iff. split.
    + intros Hall metric Hin Hsub%includes_spec. rewrite (Hall metric Hin) in Hsub. done.
    + intros Hall metric Hin. specialize (Hall metric Hin).
      rewrite <- includes_spec in Hall. by destruct (includes "all" (operation metric)).
  - done.
  - intros overall [Hlabel Hcount]%getStats_Some. split_and!; [done..|].
    intros reported [Hlabel' Hcount']%getStats_Some. split_and!; [done..|].
    rewrite Hcount, Hcount'. unfold relevantMetrics.
    pose proof (List.filter_length_le
                  (λ metric, includes "all" (operation metric)) (metrics m)). lia.
Qed.

Lemma Math_min_spec (first : Z) (others : list Z) :
  Math_min first others ∈ first :: others ∧
  Forall (λ d, Math_min first others ≤ d) (first :: others).
Proof.
  unfold Math_min. revert first. induction others as [|d others IH]; intros first.
  - simpl. split; [apply list_elem_of_here | by repeat constructor].
  - cbn [foldl]. destruct (IH (Z.min first d)) as [Hin Hle]. split.
    + apply elem_of_cons in Hin as [Hin|Hin].
      * rewrite Hin. destruct (Z.min_spec first d) as [[_ ->]|[_ ->]].
        -- apply list_elem_of_here.
        -- apply list_elem_of_further, list_elem_of_here.
      * by do 2 apply list_elem_of_further.
    + apply Forall_cons in Hle as [Hhead Hle].
      repeat (apply Forall_cons; split); [lia | lia | done].
Qed.

Lemma Math_max_spec (first : Z) (others : list Z) :
  Math_max first others ∈ first :: others ∧
  Forall (λ d, d ≤ Math_max first others) (first :: others).
Proof.
  unfold Math_max. revert first. induction others as [|d others IH]; intros first.
  - simpl. split; [apply list_elem_of_here | by repeat constructor].
  - cbn [foldl]. destruct (IH (Z.max first d)) as [Hin Hle]. split.
    + apply elem_of_cons in Hin as [Hin|Hin].
      * rewrite Hin. destruct (Z.max_spec first d) as [[_ ->]|[_ ->]].
        -- apply list_elem_of_further, list_elem_of_here.
        -- apply list_elem_of_here.
      * by do 2 apply list_elem_of_further.
    + apply Forall_cons in Hle as [Hhead Hle].
      repeat (apply Forall_cons; split); [lia | lia | done].
Qed.

Lemma filter_none {A} (P : A → Prop) `{∀ x, Decision (P x)} (l : list A) :
  Forall (λ x, ¬ P x) l → filter P l = [].
Proof.
  induction 1 as [|x l Hx Hl IH]; [done|]. by rewrite filter_cons_False.
Qed.

(** The element in the middle of a sorted list has at most half of the
    list strictly below it and less than half strictly above. *)
Lemma middle_of_sorted (durations : list Z) :
  durations ≠ [] →
  ∃ p, sort durations !! Z.to_nat (Z.of_nat (length (sort durations)) / 2) = Some p ∧
       p ∈ durations ∧
       2 * Z.of_nat (length (filter (λ d, d < p) durations)) ≤
         Z.of_nat (length durations) ∧
       2 * Z.of_nat (length (filter (λ d, p < d) durations)) <
         Z.of_nat (length durations).
Proof.
  intros Hne. unfold sort.
  pose proof (merge_sort_Permutation Z.le durations) as Hperm.
  assert (StronglySorted Z.le (merge_sort Z.le durations)) as Hsorted.
  { apply StronglySorted_merge_sort; [apply _|]. intros x y.
    destruct (Z.le_ge_cases x y); [left|right]; done. }
  revert Hperm Hsorted. generalize (merge_sort Z.le durations). intros sorted Hperm Hsorted.
  assert (length sorted = length durations) as Hlen by (by rewrite Hperm).
  assert (length durations ≠ 0%nat) as Hpos by (by destruct durations).
  set (k := Z.to_nat (Z.of_nat (length sorted) / 2)).
  assert (k < length sorted)%nat as Hk.
  { unfold k. pose proof (Z.div_lt (Z.of_nat (length sorted)) 2). lia. }
  destruct (lookup_lt_is_Some_2 sorted k Hk) as [p Hp].
  exists p. split; [done|].
  pose proof (take_drop_middle sorted k p Hp) as Hsplit.
  assert (length (take k sorted) = k) as Htake by (rewrite length_take; lia).
  assert (length (drop (S k) sorted) = (length sorted - S k)%nat) as Hdrop
    by apply length_drop.
  assert (2 * Z.of_nat k ≤ Z.of_nat (length sorted) < 2 * Z.of_nat k + 2) as Hhalf.
  { unfold k. rewrite Z2Nat.id by (apply Z.div_pos; lia).
    pose proof (Z.div_mod (Z.of_nat (length sorted)) 2).
    pose proof (Z.mod_pos_bound (Z.of_nat (length sorted)) 2). lia. }
  rewrite <- Hsplit in Hsorted.
  split_and!.
  - rewrite <- Hperm. by eapply list_elem_of_lookup_2.
  - rewrite <- Hperm at 1. rewrite <- Hsplit at 1.
    rewrite filter_app, length_app.
    replace (filter (λ d, d < p) (p :: drop (S k) sorted)) with (@nil Z).
    + pose proof (length_filter (λ d, d < p) (take k sorted)). simpl. lia.
    + symmetry. apply filter_none, Forall_forall. intros d Hd.
      apply elem_of_cons in Hd as [->|Hd]; [lia|].
      apply StronglySorted_app_1_r in Hsorted.
      apply StronglySorted_inv in Hsorted as [_ Hall].
      rewrite Forall_forall in Hall. specialize (Hall d Hd). lia.
  - rewrite <- Hperm at 1. rewrite <- Hsplit at 1.
    rewrite filter_app, length_app, filter_cons_False by lia.
    replace (filter (λ d, p < d) (take k sorted)) with (@nil Z).
    + pose proof (length_filter (λ d, p < d) (drop (S k) sorted)). simpl. lia.
    + symmetry. apply filter_none, Forall_forall. intros d Hd.
      pose proof (StronglySorted_app_1_elem_of Z.le _ _ d p Hsorted Hd
                    (list_elem_of_here _ _)). lia.
Qed.

(** X24. Whenever [getStats] returns statistics they are about at least
    one metric; [min] and [max] are the least and the greatest of the
    durations; [p50] is one of the durations, with at most half of them
    strictly below it and less than half strictly above; and the slow
    operations are counted among the relevant ones. *)
Theorem getStats_orders_the_durations operation m stats :
  getStats operation m = Some stats →
  let durations := duration <$> relevantMetrics operation m in
  1 ≤ count stats ∧ count stats = Z.of_nat (length durations) ∧
  0 ≤ slowCount stats ≤ count stats ∧
  min stats ∈ durations ∧ max stats ∈ durations ∧
  Forall (λ d, min stats ≤ d ≤ max stats) durations ∧
  ∃ p, p50 stats = Some p ∧ p ∈ durations ∧ min stats ≤ p ≤ max stats ∧
       2 * Z.of_nat (length (filter (λ d, d < p) durations)) ≤ count stats ∧
       2 * Z.of_nat (length (filter (λ d, p < d) durations)) < count stats.
Proof.
  unfold getStats. destruct (relevantMetrics operation m) as [|first others] eqn:Hrel;
    [done|].
  intros [= <-]. cbn [count slowCount min max p50].
  set (durations := duration <$> first :: others).
  destruct (Math_min_spec (duration first) (duration <$> others)) as [Hmin Hle].
  destruct (Math_max_spec (duration first) (duration <$> others)) as [Hmax Hge].
  change (duration first :: (duration <$> others)) with durations in Hmin, Hle, Hmax, Hge.
  assert (length durations = length (first :: others)) as Hlen
    by (unfold durations; by rewrite length_fmap).
  assert (∀ d, d ∈ durations →
            Math_min (duration first) (duration <$> others) ≤ d
              ≤ Math_max (duration first) (duration <$> others)) as Hbounds.
  { intros d Hd. rewrite Forall_forall in Hle, Hge.
    split; [by apply Hle | by apply Hge]. }
  split_and!.
  - simpl. lia.
  - by rewrite Hlen.
  - lia.
  - pose proof (List.filter_length_le is_slow (first :: others)) as Hslow.
    simpl in Hslow. lia.
  - done.
  - done.
  - by apply Forall_forall.
  - destruct (middle_of_sorted durations) as (p & Hp & Hin & Hbelow & Habove); [done|].
    exists p. rewrite Hlen in Hbelow, Habove.
    split_and!; [done | done | by apply Hbounds..| done | done].
Qed.

Lemma monitor_keeps_the_last_thousand_witness :
  (length (metrics performanceMonitor) ≤ 1000)%nat ∧
  metrics (run (took "first" 1 :: failed "second" 2 :: replicate 1000 (took "later" 3))
             performanceMonitor) =
    replicate 1000 (metric_of DEFAULT_THRESHOLDS (took "later" 3)) ∧
  (duration <$> metrics busy_monitor) = [120; 700; 90; 1500; 300].
Proof.
  split; [simpl; lia|]. split.
  - destruct (monitor_keeps_the_last_thousand performanceMonitor
                (took "first" 1 :: failed "second" 2 :: replicate 1000 (took "later" 3)))
      as [Hmetrics _]; [simpl; lia|].
    rewrite Hmetrics. vm_compute. reflexivity.
  - vm_compute. reflexivity.
Defined.

Lemma metrics_route_all_is_a_name_filter_witness :
  (count <$> getStats None busy_monitor) = Some 5 ∧
  (count <$> GET_stats None busy_monitor) = Some 2 ∧
  GET_stats None quiet_monitor = None ∧
  (∀ metric, metric ∈ metrics quiet_monitor →
     ¬ ∃ a b, operation metric = a ++ "all" ++ b).
Proof.
  split_and!; [vm_compute; reflexivity..|].
  apply (proj1 (proj1 (proj2 (metrics_route_all_is_a_name_filter quiet_monitor)))).
  vm_compute. reflexivity.
Defined.

Lemma getStats_orders_the_durations_witness :
  getStats (Some "db_query") busy_monitor = Some db_query_stats ∧
  ∃ p, p50 db_query_stats = Some p ∧ min db_query_stats ≤ p ≤ max db_query_stats.
Proof.
  assert (getStats (Some "db_query") busy_monitor = Some db_query_stats) as Hstats
    by (vm_compute; reflexivity).
  split; [exact Hstats|].
  destruct (getStats_orders_the_durations (Some "db_query") busy_monitor
              db_query_stats Hstats)
    as (_ & _ & _ & _ & _ & _ & p & Hp & _ & Hbounds & _).
  exists p. split; [exact Hp | exact Hbounds].
Defined.

End PerformanceFacts.


(** ** The inquiry route and the login route on one store *)

Module InquiryFacts.
Import RateLimit ClientIP Auth Login RateLimitFacts.
Local Open Scope string_scope.
Local Open Scope Z_scope.

Lemma prefixes_differ (a b : string) : "login:" ++ a ≠ "inquiry:" ++ b.
Proof. done. Qed.

(** A call of a limiter changes the entry of its key and no other. *)
Lemma createRateLimiter_store config identifier now now' s key :
  key ≠ key_of config identifier →
  store (createRateLimiter config identifier now now' s).2 !! key = store s !! key.
Proof.
  intros Hkey. rewrite createRateLimiter_next. simpl. by apply lookup_insert_ne.
Qed.

(** What a limiter answers depends on the store through the entry of
    its key only. *)
Lemma createRateLimiter_result config identifier now now' s1 s2 :
  store s1 !! key_of config identifier = store s2 !! key_of config identifier →
  (createRateLimiter config identifier now now' s1).1 =
  (createRateLimiter config identifier now now' s2).1.
Proof.
  intros Hsame. rewrite !createRateLimiter_next. simpl.
  unfold next_entry, live. by rewrite Hsame.
Qed.

Lemma login_key_of dev ip :
  key_of (getRateLimitConfig login dev) ("login:" ++ ip) = "login:" ++ ip.
Proof. by destruct dev. Qed.

Lemma inquiry_key_of dev ip :
  key_of (getRateLimitConfig inquiry dev) ("inquiry:" ++ ip) = "inquiry:" ++ ip.
Proof. by destruct dev. Qed.

Section Routes.
Context `{Platform}.
Variable z_email : string → bool.
Variable InquirySchema : Body → bool.
Variable NODE_ENV : option string.
Variable env : Env.
Variable JWT_SECRET : string.

Abbreviation login_POST := (Login.POST z_email NODE_ENV env JWT_SECRET).
Abbreviation inquiry_POST := (Inquiry.POST InquirySchema NODE_ENV).

Lemma inquiry_POST_store headers body now now' s ip :
  store (inquiry_POST headers body now now' s).1.1 !! ("login:" ++ ip) =
  store s !! ("login:" ++ ip).
Proof.
  unfold Inquiry.POST, Inquiry.inquiryLimiter.
  pose proof (createRateLimiter_store
                (getRateLimitConfig inquiry (bool_decide (NODE_ENV = Some "development")))
                ("inquiry:" ++ getClientIP headers) now now' s ("login:" ++ ip)) as Hstore.
  rewrite inquiry_key_of in Hstore. specialize (Hstore (prefixes_differ _ _)).
  destruct (createRateLimiter _ _ now now' s) as [r s']. simpl in Hstore.
  destruct (negb (allowed r)); [done|].
  destruct body; [done| |]; by destruct (negb (InquirySchema _)).
Qed.

Lemma login_POST_store headers body clocks s ip :
  store (login_POST headers body clocks s).1.1 !! ("inquiry:" ++ ip) =
  store s !! ("inquiry:" ++ ip).
Proof.
  rewrite (proj1 (LoginFacts.POST_limiter z_email NODE_ENV env JWT_SECRET
                    headers body clocks s)).
  apply createRateLimiter_store. unfold Login.rateLimitKey. rewrite login_key_of.
  intros Heq. by apply (prefixes_differ (getClientIP headers) ip).
Qed.

Lemma login_POST_answer headers body clocks s1 s2 :
  store s1 !! Login.rateLimitKey headers = store s2 !! Login.rateLimitKey headers →
  (login_POST headers body clocks s1).2 = (login_POST headers body clocks s2).2 ∧
  (login_POST headers body clocks s1).1.2 = (login_POST headers body clocks s2).1.2.
Proof.
  intros Hsame. rewrite !LoginFacts.POST_cases. unfold loginLimiter.
  pose proof (createRateLimiter_result
                (getRateLimitConfig login (bool_decide (NODE_ENV = Some "development")))
                (Login.rateLimitKey headers) (at_increment clocks) (at_retryAfter clocks)
                s1 s2) as Hresult.
  unfold Login.rateLimitKey in Hresult at 1 2. rewrite login_key_of in Hresult.
  specialize (Hresult Hsame).
  destruct (createRateLimiter _ _ _ _ s1) as [r1 s1'].
  destruct (createRateLimiter _ _ _ _ s2) as [r2 s2']. simpl in Hresult. subst r2.
  destruct (allowed r1); [|done].
  destruct body as [|fields|]; [done| |]; cbv beta iota;
    (destruct (safeParse z_email _) as [[email password]|]; [|done];
     destruct (String.eqb email TARGET_EMAIL); [|done];
     by destruct (bcrypt_compare password TARGET_HASH) as [|[|]]).
Qed.

Lemma inquiry_POST_answer headers body now now' s1 s2 :
  store s1 !! Inquiry.rateLimitKey headers = store s2 !! Inquiry.rateLimitKey headers →
  (inquiry_POST headers body now now' s1).2 = (inquiry_POST headers body now now' s2).2 ∧
  (inquiry_POST headers body now now' s1).1.2 = (inquiry_POST headers body now now' s2).1.2.
Proof.
  intros Hsame. unfold Inquiry.POST, Inquiry.inquiryLimiter.
  pose proof (createRateLimiter_result
                (getRateLimitConfig inquiry (bool_decide (NODE_ENV = Some "development")))
                (Inquiry.rateLimitKey headers) now now' s1 s2) as Hresult.
  unfold Inquiry.rateLimitKey in Hresult at 1 2. rewrite inquiry_key_of in Hresult.
  specialize (Hresult Hsame). unfold Inquiry.rateLimitKey in Hresult.
  destruct (createRateLimiter _ _ now now' s1) as [r1 s1'].
  destruct (createRateLimiter _ _ now now' s2) as [r2 s2']. simpl in Hresult. subst r2.
  destruct (negb (allowed r1)); [done|].
  destruct body; [done| |]; by destruct (negb (InquirySchema _)).
Qed.

Lemma inquiry_serve_store requests : ∀ s ip,
  store (Inquiry.serve InquirySchema NODE_ENV requests s).2 !! ("login:" ++ ip) =
  store s !! ("login:" ++ ip).
Proof.
  induction requests as [|request requests IH]; intros s ip; [done|].
  cbn [Inquiry.serve].
  pose proof (inquiry_POST_store (Inquiry.headers request) (Inquiry.body request)
                (Inquiry.now request) (Inquiry.now' request) s ip) as Hpost.
  destruct (inquiry_POST _ _ _ _ s) as [[s' slept] response]. simpl in Hpost.
  specialize (IH s' ip).
  destruct (Inquiry.serve InquirySchema NODE_ENV requests s') as [responses s''].
  simpl in *. by rewrite IH.
Qed.

Lemma login_serve_store requests : ∀ s ip,
  store (Login.serve z_email NODE_ENV env JWT_SECRET requests s).2 !! ("inquiry:" ++ ip) =
  store s !! ("inquiry:" ++ ip).
Proof.
  induction requests as [|request requests IH]; intros s ip; [done|].
  cbn [Login.serve].
  pose proof (login_POST_store (Login.headers request) (Login.body request)
                (Login.clocks request) s ip) as Hpost.
  destruct (login_POST _ _ _ s) as [[s' slept] response]. simpl in Hpost.
  specialize (IH s' ip).
  destruct (Login.serve z_email NODE_ENV env JWT_SECRET requests s') as [responses s''].
  simpl in *. by rewrite IH.
Qed.

(** X25. The login route and the inquiry route count on the one store
    but never on the same entry: whatever inquiries are served first, from
    whatever addresses, a login request is answered as it would have been
    without them, and whatever login requests are served first, an inquiry
    is answered as it would have been without them; response and time
    slept are the same. *)
Theorem login_and_inquiry_do_not_share_counters
    (logins : list LoginRequest) (inquiries : list Inquiry.InquiryRequest)
    (login : LoginRequest) (inquiry : Inquiry.InquiryRequest) (s : RateLimitStore) :
  let after_inquiries := (Inquiry.serve InquirySchema NODE_ENV inquiries s).2 in
  let after_logins := (Login.serve z_email NODE_ENV env JWT_SECRET logins s).2 in
  let answer (result : RateLimitStore * Z * LoginResponse) := (result.1.2, result.2) in
  let reply (result : RateLimitStore * Z * Inquiry.InquiryResponse) :=
    (result.1.2, result.2) in
  answer (login_POST (Login.headers login) (Login.body login) (Login.clocks login)
            after_inquiries) =
  answer (login_POST (Login.headers login) (Login.body login) (Login.clocks login) s) ∧
  reply (inquiry_POST (Inquiry.headers inquiry) (Inquiry.body inquiry)
           (Inquiry.now inquiry) (Inquiry.now' inquiry) after_logins) =
  reply (inquiry_POST (Inquiry.headers inquiry) (Inquiry.body inquiry)
           (Inquiry.now inquiry) (Inquiry.now' inquiry) s).
Proof.
  intros after_inquiries after_logins answer reply. unfold answer, reply. split.
  - destruct (login_POST_answer (Login.headers login) (Login.body login)
                (Login.clocks login) after_inquiries s) as [-> ->]; [|done].
    apply inquiry_serve_store.
  - destruct (inquiry_POST_answer (Inquiry.headers inquiry) (Inquiry.body inquiry)
                (Inquiry.now inquiry) (Inquiry.now' inquiry) after_logins s)
      as [-> ->]; [|done].
    apply login_serve_store.
Qed.

End Routes.

Lemma login_and_inquiry_do_not_share_counters_witness :
  let after_inquiries :=
    (Inquiry.serve (λ _, true) (Some "production") Inquiry.eleven_inquiries constructor).2 in
  (Inquiry.serve (λ _, true) (Some "production") Inquiry.eleven_inquiries constructor).1
    !! 10%nat = Some (Inquiry.TooManyInquiries 3000) ∧
  status (production_login {[ "x-real-ip" := "203.0.113.5" ]}
            (credentials TARGET_EMAIL "open sesame") (frozen 660000) after_inquiries).2 =
    200.
Proof.
  intros after_inquiries. split; [vm_compute; reflexivity|].
  pose proof (login_and_inquiry_do_not_share_counters (H := open_sesame) (λ _, true)
                (λ _, true) (Some "production") other_admin_env "secret" []
                Inquiry.eleven_inquiries
                {| Login.headers := {[ "x-real-ip" := "203.0.113.5" ]};
                   Login.body := credentials TARGET_EMAIL "open sesame";
                   Login.clocks := frozen 660000 |}
                {| Inquiry.headers := ∅; Inquiry.body := NotJson;
                   Inquiry.now := 0; Inquiry.now' := 0 |} constructor) as [Hsame _].
  cbv zeta in Hsame. cbn [Login.headers Login.body Login.clocks] in Hsame.
  fold after_inquiries in Hsame. unfold production_login.
  apply (f_equal snd) in Hsame. cbn [snd] in Hsame. rewrite Hsame.
  vm_compute. reflexivity.
Defined.

End InquiryFacts.


(** ** The error handler *)

Module ErrorHandlerFacts.
Import ErrorHandler.
Local Open Scope string_scope.
Local Open Scope Z_scope.





End ErrorHandlerFacts.
